(** * lib/urlapi.c : the URL API, embedded in Rocq

    The C code works on NUL-terminated byte strings.  A C string is
    represented by the list of its bytes up to (and excluding) the
    terminating NUL; a pointer into a string is an offset from its start.
    Memory allocation is assumed to succeed (malloc, strdup and aprintf
    never return NULL). *)

From Stdlib Require Import Ascii String ZArith Lia Bool Arith List.
Import ListNotations.

Local Open Scope char_scope.
Local Open Scope nat_scope.
Local Open Scope list_scope.

(** ** C strings *)

Definition cstring := list ascii.

Definition cs (s : string) : cstring := list_ascii_of_string s.
Arguments cs _%_string.

Definition NUL : ascii := ascii_of_nat 0.

(** The content of a C string never holds the terminator. *)
Definition nul_free (s : cstring) : Prop := ~ In NUL s.

(** [s[i]], reading the terminating NUL at the end of the string. *)
Definition char_at (s : cstring) (i : nat) : ascii := nth i s NUL.

Fixpoint strchr (s : cstring) (c : ascii) : option nat :=
  match s with
  | [] => None
  | x :: s' => if Ascii.eqb x c then Some 0%nat else option_map S (strchr s' c)
  end.

Fixpoint strrchr (s : cstring) (c : ascii) : option nat :=
  match s with
  | [] => None
  | x :: s' =>
      match strrchr s' c with
      | Some i => Some (S i)
      | None => if Ascii.eqb x c then Some 0%nat else None
      end
  end.

Fixpoint has_prefix (p s : cstring) : bool :=
  match p, s with
  | [], _ => true
  | _ :: _, [] => false
  | a :: p', b :: s' => Ascii.eqb a b && has_prefix p' s'
  end.

Fixpoint strstr (s pat : cstring) : option nat :=
  if has_prefix pat s then Some 0%nat
  else match s with
       | [] => None
       | _ :: s' => option_map S (strstr s' pat)
       end.

(** [strspn]: length of the longest prefix made of accepted bytes. *)
Fixpoint strspn (s accept : cstring) : nat :=
  match s with
  | [] => 0
  | x :: s' => if existsb (Ascii.eqb x) accept then S (strspn s' accept) else 0
  end.

(** ** Character classes

    Modelled from the spec: the ISCNTRL, ISSPACE and ISGRAPH macros come
    from a header that is not part of the sources; they are the ctype tests
    on the byte value, taken here in the "C" locale. *)

Definition ISCNTRL (c : ascii) : bool :=
  let n := nat_of_ascii c in ((n <? 32) || (n =? 127))%nat.

Definition ISSPACE (c : ascii) : bool :=
  let n := nat_of_ascii c in (((9 <=? n) && (n <=? 13)) || (n =? 32))%nat.

Definition ISGRAPH (c : ascii) : bool :=
  let n := nat_of_ascii c in ((33 <=? n) && (n <=? 126))%nat.

Definition ISDIGIT (c : ascii) : bool :=
  let n := nat_of_ascii c in ((48 <=? n) && (n <=? 57))%nat.

(** ** The percent-encoding normalizer *)

Section Escaping.

(** The byte classification shared by [Curl_strlen_url] and
    [Curl_strcpy_url]. *)
Variable urlchar_needs_escaping : ascii -> bool.

(** Offset of the start of the host name: just after the first "//", or
    the start of the string. *)
Definition host_start (url : cstring) : nat :=
  match strstr url (cs "//") with
  | None => 0
  | Some i => i + 2
  end.

Definition find_host_sep (url : cstring) : nat :=
  let sep0 := host_start url in
  let query :=
    match strchr (skipn sep0 url) "?" with
    | Some q => sep0 + q
    | None => length url
    end in
  let sep :=
    match strchr (skipn sep0 url) "/" with
    | Some i => sep0 + i
    | None => length url
    end in
  if sep <? query then sep else query.

(** The loop of [Curl_strlen_url]: [pos] is [ptr - url], [left] tells
    whether the '?' is still ahead and [newlen] is the running count. *)
Fixpoint strlen_url_loop (host_sep pos : nat) (left : bool) (newlen : nat)
    (s : cstring) : nat :=
  match s with
  | [] => newlen
  | c :: s' =>
      if pos <? host_sep then
        strlen_url_loop host_sep (S pos) left (S newlen) s'
      else if Ascii.eqb c "?" then
        strlen_url_loop host_sep (S pos) false
          (S (if urlchar_needs_escaping c then newlen + 2 else newlen)) s'
      else if Ascii.eqb c " " then
        strlen_url_loop host_sep (S pos) left
          (if left then newlen + 3 else S newlen) s'
      else
        strlen_url_loop host_sep (S pos) left
          (S (if urlchar_needs_escaping c then newlen + 2 else newlen)) s'
  end.

Definition Curl_strlen_url (url : cstring) (relative : bool) : nat :=
  let host_sep := if relative then 0 else find_host_sep url in
  strlen_url_loop host_sep 0 true 0 url.

Definition hex_digit (n : nat) : ascii :=
  nth n (cs "0123456789abcdef") "0".

(** What [snprintf(optr, 4, "%%%02x", c)] writes for a byte [c]. *)
Definition percent_encode (c : ascii) : cstring :=
  let n := nat_of_ascii c in
  ["%"; hex_digit (n / 16); hex_digit (n mod 16)].

(** The loop of [Curl_strcpy_url]; [out] is what has been written to the
    output buffer so far. *)
Fixpoint strcpy_url_loop (host_sep pos : nat) (left : bool) (out : cstring)
    (s : cstring) : cstring :=
  match s with
  | [] => out
  | c :: s' =>
      if pos <? host_sep then
        strcpy_url_loop host_sep (S pos) left (out ++ [c]) s'
      else if Ascii.eqb c "?" then
        strcpy_url_loop host_sep (S pos) false
          (if urlchar_needs_escaping c then out ++ percent_encode c
           else out ++ [c]) s'
      else if Ascii.eqb c " " then
        strcpy_url_loop host_sep (S pos) left
          (if left then out ++ ["%"; "2"; "0"] else out ++ ["+"]) s'
      else
        strcpy_url_loop host_sep (S pos) left
          (if urlchar_needs_escaping c then out ++ percent_encode c
           else out ++ [c]) s'
  end.

Definition Curl_strcpy_url (url : cstring) (relative : bool) : cstring :=
  let host_sep := if relative then 0 else find_host_sep url in
  strcpy_url_loop host_sep 0 true [] url.

(** ** The relative resolver *)

(** The loop that passes every leading "../" of the reference. *)
Fixpoint skip_dotdot (level : nat) (useurl : cstring) : nat * cstring :=
  match useurl with
  | "." :: "." :: "/" :: rest => skip_dotdot (S level) rest
  | _ => (level, useurl)
  end.

(** The loop that cuts one more level off the right of the clone for every
    "../" counted; the cut writes a NUL, which shortens the string. *)
Fixpoint cut_levels (level protsep : nat) (url_clone : cstring) : cstring :=
  match level with
  | O => url_clone
  | S level' =>
      match strrchr (skipn protsep url_clone) "/" with
      | Some i => cut_levels level' protsep (firstn (protsep + i) url_clone)
      | None => firstn protsep url_clone
      end
  end.

(** The clone of the base is cut where the code writes a NUL into it;
    [protsep] stays an offset into the clone.  The length that
    [Curl_strlen_url] computes only sizes the buffer of the result. *)
Definition Curl_concat_url (base relurl : cstring) : cstring :=
  let url_clone := base in
  let protsep := host_start url_clone in
  let '(url_clone, protsep, useurl, host_changed) :=
    if negb (Ascii.eqb (char_at relurl 0) "/") then
      (* cut at the '?' and what is right of it *)
      let url_clone :=
        match strchr (skipn protsep url_clone) "?" with
        | Some i => firstn (protsep + i) url_clone
        | None => url_clone
        end in
      (* cut at the last slash unless the reference is just a query *)
      let url_clone :=
        if negb (Ascii.eqb (char_at relurl 0) "?") then
          match strrchr (skipn protsep url_clone) "/" with
          | Some i => firstn (protsep + i) url_clone
          | None => url_clone
          end
        else url_clone in
      (* remember the position after the first slash behind the host *)
      let protsep' :=
        match strchr (skipn protsep url_clone) "/" with
        | Some i => Some (protsep + i + 1)
        | None => None
        end in
      let useurl :=
        if Ascii.eqb (char_at relurl 0) "." && Ascii.eqb (char_at relurl 1) "/"
        then skipn 2 relurl else relurl in
      let '(level, useurl) := skip_dotdot 0 useurl in
      let url_clone :=
        match protsep' with
        | Some p => cut_levels level p url_clone
        | None => url_clone
        end in
      (url_clone, protsep', useurl, false)
    else if Ascii.eqb (char_at relurl 0) "/" && Ascii.eqb (char_at relurl 1) "/"
    then
      (* keep the protocol part only *)
      (firstn protsep url_clone, Some protsep, skipn 2 relurl, true)
    else
      let url_clone :=
        match strchr (skipn protsep url_clone) "/" with
        | Some i =>
            match strchr (skipn protsep url_clone) "?" with
            | Some q =>
                if q <? i then firstn (protsep + q) url_clone
                else firstn (protsep + i) url_clone
            | None => firstn (protsep + i) url_clone
            end
        | None =>
            match strchr (skipn protsep url_clone) "?" with
            | Some q => firstn (protsep + q) url_clone
            | None => url_clone
            end
        end in
      (url_clone, Some protsep, relurl, false) in
  let need_no_slash :=
    Ascii.eqb (char_at useurl 0) "/"
    || match protsep with
       | Some p => Ascii.eqb (char_at url_clone p) NUL
       | None => false
       end
    || Ascii.eqb (char_at useurl 0) "?" in
  let newest := if need_no_slash then url_clone else url_clone ++ ["/"] in
  newest ++ Curl_strcpy_url useurl (negb host_changed).

End Escaping.

(** [urlchar_needs_escaping] of the source, with the ctype tests above. *)
Definition urlchar_needs_escaping (c : ascii) : bool :=
  negb (ISCNTRL c || ISSPACE c || ISGRAPH c).


(** ** Numbers in strings *)

Definition LONG_MAX : Z := 9223372036854775807.
Definition LONG_MIN : Z := - 9223372036854775808.

Fixpoint count_space (s : cstring) : nat :=
  match s with
  | c :: r => if ISSPACE c then S (count_space r) else 0
  | [] => 0
  end.

Definition digit_value (c : ascii) : Z := Z.of_nat (nat_of_ascii c - 48).

(** Value and number of the leading decimal digits. *)
Fixpoint scan_digits (acc : Z) (s : cstring) : Z * nat :=
  match s with
  | c :: r =>
      if ISDIGIT c then
        let '(v, n) := scan_digits (acc * 10 + digit_value c) r in (v, S n)
      else (acc, 0)
  | [] => (acc, 0)
  end.

(** [strtol(nptr, &rest, 10)]: the value and the offset of [rest] from
    [nptr].  White space is passed, then an optional sign, then the decimal
    digits; without a digit nothing is converted: the value is 0 and [rest]
    is [nptr].  A value out of the range of [long] is clamped. *)
Definition strtol (nptr : cstring) : Z * nat :=
  let ws := count_space nptr in
  let s1 := skipn ws nptr in
  let '(neg, sign_len) :=
    if Ascii.eqb (char_at s1 0) "-" then (true, 1)
    else if Ascii.eqb (char_at s1 0) "+" then (false, 1)
    else (false, 0) in
  let '(v, n) := scan_digits 0 (skipn sign_len s1) in
  if n =? 0 then (0%Z, 0)
  else
    let v := if neg then (- v)%Z else v in
    (Z.max LONG_MIN (Z.min LONG_MAX v), ws + sign_len + n).

Definition digit_char (d : Z) : ascii := ascii_of_nat (48 + Z.to_nat d).

(** The decimal digits of [z], the last one first, put in front of [acc];
    [fuel] bounds the number of digits. *)
Fixpoint print_digits (fuel : nat) (z : Z) (acc : cstring) : cstring :=
  match fuel with
  | O => acc
  | S fuel' =>
      let acc' := digit_char (z mod 10) :: acc in
      if (z / 10 =? 0)%Z then acc' else print_digits fuel' (z / 10) acc'
  end.

(** What the "%ld" conversion writes; a [long] has at most 19 digits. *)
Definition print_ld (z : Z) : cstring :=
  if (z <? 0)%Z then "-" :: print_digits 19 (- z) []
  else print_digits 19 z [].

(** [snprintf(portbuf, sizeof(portbuf), "%ld", z)] with [char portbuf[7]]:
    at most six bytes are kept. *)
Definition snprintf_portbuf (z : Z) : cstring := firstn 6 (print_ld z).

(** ** Case-insensitive comparison

    Modelled from the spec: the case-insensitive ASCII compare and
    prefix-match utility (strncasecompare, checkprefix) is not part of the
    sources; it compares byte by byte after mapping a-z to A-Z. *)

Definition raw_toupper (c : ascii) : ascii :=
  let n := nat_of_ascii c in
  if (97 <=? n) && (n <=? 122) then ascii_of_nat (n - 32) else c.

Fixpoint strncasecompare (first second : cstring) (max : nat) : bool :=
  match max with
  | O => true
  | S max' =>
      match first, second with
      | a :: first', b :: second' =>
          if Ascii.eqb (raw_toupper a) (raw_toupper b)
          then strncasecompare first' second' max'
          else false
      | [], [] => true
      | _, _ => false
      end
  end.

Definition checkprefix (a b : cstring) : bool :=
  strncasecompare a b (length a).

(** ** The handle *)

Record Curl_URL : Type := mkURL {
  scheme : option cstring;
  user : option cstring;
  password : option cstring;
  options : option cstring;
  host : option cstring;
  port : option cstring;
  path : option cstring;
  query : option cstring;
  fragment : option cstring;
  scratch : bool;   (* whether the temporary scratch area is allocated *)
  portnum : Z       (* the numerical version *)
}.

(** What [calloc] returns. *)
Definition zero_handle : Curl_URL :=
  mkURL None None None None None None None None None false 0.

Definition set_scheme (u : Curl_URL) (v : option cstring) : Curl_URL :=
  mkURL v (user u) (password u) (options u) (host u) (port u) (path u)
    (query u) (fragment u) (scratch u) (portnum u).
Definition set_user (u : Curl_URL) (v : option cstring) : Curl_URL :=
  mkURL (scheme u) v (password u) (options u) (host u) (port u) (path u)
    (query u) (fragment u) (scratch u) (portnum u).
Definition set_password (u : Curl_URL) (v : option cstring) : Curl_URL :=
  mkURL (scheme u) (user u) v (options u) (host u) (port u) (path u)
    (query u) (fragment u) (scratch u) (portnum u).
Definition set_options (u : Curl_URL) (v : option cstring) : Curl_URL :=
  mkURL (scheme u) (user u) (password u) v (host u) (port u) (path u)
    (query u) (fragment u) (scratch u) (portnum u).
Definition set_host (u : Curl_URL) (v : option cstring) : Curl_URL :=
  mkURL (scheme u) (user u) (password u) (options u) v (port u) (path u)
    (query u) (fragment u) (scratch u) (portnum u).
Definition set_port (u : Curl_URL) (v : option cstring) : Curl_URL :=
  mkURL (scheme u) (user u) (password u) (options u) (host u) v (path u)
    (query u) (fragment u) (scratch u) (portnum u).
Definition set_path (u : Curl_URL) (v : option cstring) : Curl_URL :=
  mkURL (scheme u) (user u) (password u) (options u) (host u) (port u) v
    (query u) (fragment u) (scratch u) (portnum u).
Definition set_query (u : Curl_URL) (v : option cstring) : Curl_URL :=
  mkURL (scheme u) (user u) (password u) (options u) (host u) (port u)
    (path u) v (fragment u) (scratch u) (portnum u).
Definition set_fragment (u : Curl_URL) (v : option cstring) : Curl_URL :=
  mkURL (scheme u) (user u) (password u) (options u) (host u) (port u)
    (path u) (query u) v (scratch u) (portnum u).
Definition set_scratch (u : Curl_URL) (v : bool) : Curl_URL :=
  mkURL (scheme u) (user u) (password u) (options u) (host u) (port u)
    (path u) (query u) (fragment u) v (portnum u).
Definition set_portnum (u : Curl_URL) (v : Z) : Curl_URL :=
  mkURL (scheme u) (user u) (password u) (options u) (host u) (port u)
    (path u) (query u) (fragment u) (scratch u) v.

Inductive CURLUcode : Type :=
| CURLURLE_OK
| CURLURLE_BAD_HANDLE
| CURLURLE_BAD_PARTPOINTER
| CURLURLE_MALFORMED_INPUT
| CURLURLE_BAD_PORT_NUMBER
| CURLURLE_UNSUPPORTED_SCHEME
| CURLURLE_USER_NOT_ALLOWED
| CURLURLE_UNKNOWN_PART
| CURLURLE_NO_SCHEME
| CURLURLE_NO_USER
| CURLURLE_NO_PASSWORD
| CURLURLE_NO_OPTIONS
| CURLURLE_NO_HOST
| CURLURLE_NO_PORT
| CURLURLE_NO_PATH
| CURLURLE_NO_QUERY
| CURLURLE_NO_FRAGMENT
| CURLURLE_OUT_OF_MEMORY.

Inductive CURLUPart : Type :=
| CURLUPART_URL
| CURLUPART_SCHEME
| CURLUPART_USER
| CURLUPART_PASSWORD
| CURLUPART_OPTIONS
| CURLUPART_HOST
| CURLUPART_PORT
| CURLUPART_PATH
| CURLUPART_QUERY
| CURLUPART_FRAGMENT
| CURLUPART_other.   (* any value outside the enumeration *)

(** ** Option bits

    Modelled from the spec: the header that declares the option bits is not
    part of the sources; section 6 lists seven independently composable
    options, taken here as seven distinct bits of the flags word. *)

Definition CURLURL_DEFAULT_PORT : Z := 1.
Definition CURLURL_NO_DEFAULT_PORT : Z := 2.
Definition CURLURL_DEFAULT_SCHEME : Z := 4.
Definition CURLURL_NON_SUPPORT_SCHEME : Z := 8.
Definition CURLURL_PATH_AS_IS : Z := 16.
Definition CURLURL_DISALLOW_USER : Z := 32.
Definition CURLURL_VERIFY_ONLY : Z := 64.

(** [if(result)]: any code but OK. *)
Definition failed (result : CURLUcode) : bool :=
  match result with
  | CURLURLE_OK => false
  | _ => true
  end.

(** [flags & bit] as a truth value. *)
Definition has_flag (flags bit : Z) : bool := negb (Z.land flags bit =? 0)%Z.

Definition DEFAULT_SCHEME : cstring := cs "https".

(** ** The sscanf patterns *)

Definition LF : ascii := ascii_of_nat 10.
Definition EOF : Z := (-1)%Z.

Definition in_set (set : cstring) (c : ascii) : bool :=
  existsb (Ascii.eqb c) set.

Definition not_in_set (set : cstring) (c : ascii) : bool :=
  negb (in_set set c).

(** A scan set conversion: the longest prefix of bytes of the set, at most
    [width] of them, and what follows it. *)
Fixpoint scan_set (p : ascii -> bool) (width : nat) (s : cstring)
  : cstring * cstring :=
  match width, s with
  | S w, c :: r =>
      if p c then let '(a, b) := scan_set p w r in (c :: a, b) else ([], s)
  | _, _ => ([], s)
  end.

(** A scan set conversion without a width. *)
Definition scan_all (p : ascii -> bool) (s : cstring) : cstring * cstring :=
  scan_set p (length s) s.

(** [sscanf(url, "%15[^\n/:]:%3[/]%[^\n/?#]%[^\n]", schemebuf, slashbuf,
    hostname, path)]: the return value and the three buffers the code goes
    on to read ([path] was cleared before the call). *)
Definition sscanf_url (url : cstring) : Z * cstring * cstring * cstring :=
  match url with
  | [] => (EOF, [], [], [])
  | _ =>
      let '(schemebuf, r1) := scan_set (not_in_set [LF; "/"; ":"]) 15 url in
      match schemebuf, r1 with
      | [], _ => (0%Z, [], [], [])
      | _, [] => (1%Z, schemebuf, [], [])
      | _, c :: r2 =>
          if negb (Ascii.eqb c ":") then (1%Z, schemebuf, [], [])
          else
            let '(slashbuf, r3) := scan_set (in_set ["/"]) 3 r2 in
            match slashbuf with
            | [] => (1%Z, schemebuf, [], [])
            | _ =>
                let '(hostname, r4) :=
                  scan_all (not_in_set [LF; "/"; "?"; "#"]) r3 in
                match hostname with
                | [] => (2%Z, schemebuf, [], [])
                | _ =>
                    let '(path, _) := scan_all (not_in_set [LF]) r4 in
                    match path with
                    | [] => (3%Z, schemebuf, hostname, [])
                    | _ => (4%Z, schemebuf, hostname, path)
                    end
                end
            end
      end
  end.

(** [sscanf(url, "%[^\n/?#]%[^\n]", hostname, path)]. *)
Definition sscanf_noscheme (url : cstring) : Z * cstring * cstring :=
  match url with
  | [] => (EOF, [], [])
  | _ =>
      let '(hostname, r1) := scan_all (not_in_set [LF; "/"; "?"; "#"]) url in
      match hostname with
      | [] => (0%Z, [], [])
      | _ =>
          let '(path, _) := scan_all (not_in_set [LF]) r1 in
          match path with
          | [] => (1%Z, hostname, [])
          | _ => (2%Z, hostname, path)
          end
      end
  end.

(** [sscanf(url, "%*15[^\n/:]:%[^\n]", path)]: the path when the call
    returns 1. *)
Definition sscanf_file (url : cstring) : option cstring :=
  let '(skipped, r1) := scan_set (not_in_set [LF; "/"; ":"]) 15 url in
  match skipped, r1 with
  | [], _ => None
  | _, [] => None
  | _, c :: r2 =>
      if negb (Ascii.eqb c ":") then None
      else
        let '(path, _) := scan_all (not_in_set [LF]) r2 in
        match path with
        | [] => None
        | _ => Some path
        end
  end.

(** [sscanf(hostname, "[%*45[0123456789abcdefABCDEF:.]%c%n", &endbracket,
    &len)]: the byte and the length read when the call returns 1. *)
Definition sscanf_bracket (hostname : cstring) : option (ascii * nat) :=
  match hostname with
  | [] => None
  | c0 :: r =>
      if negb (Ascii.eqb c0 "[") then None
      else
        let '(lit, r1) :=
          scan_set (in_set (cs "0123456789abcdefABCDEF:.")) 45 r in
        match lit, r1 with
        | [], _ => None
        | _, [] => None
        | _, c :: _ => Some (c, 1 + length lit + 1)
        end
  end.

(** [sscanf(url, "%15[^?&/:]://%c", prot, &letter)] returns 2. *)
Definition Curl_is_absolute_url (url : cstring) : bool :=
  let '(prot, r1) := scan_set (not_in_set ["?"; "&"; "/"; ":"]) 15 url in
  match prot, r1 with
  | [], _ => false
  | _, c1 :: c2 :: c3 :: _ :: _ =>
      Ascii.eqb c1 ":" && Ascii.eqb c2 "/" && Ascii.eqb c3 "/"
  | _, _ => false
  end.

Definition is_letter (c : ascii) : bool :=
  let n := nat_of_ascii c in
  ((97 <=? n) && (n <=? 122)) || ((65 <=? n) && (n <=? 90)).

Definition STARTS_WITH_URL_DRIVE_PREFIX (str : cstring) : bool :=
  is_letter (char_at str 0)
  && (Ascii.eqb (char_at str 1) ":" || Ascii.eqb (char_at str 1) "|")
  && (Ascii.eqb (char_at str 2) "/" || Ascii.eqb (char_at str 2) "\"
      || Ascii.eqb (char_at str 2) NUL).

(** The loop that looks for a scheme in the first 16 bytes. *)
Fixpoint check_scheme (n : nat) (url : cstring) : bool :=
  match n, url with
  | S n', c :: r =>
      if Ascii.eqb c "/" then false
      else if Ascii.eqb c ":" then true
      else check_scheme n' r
  | _, _ => false
  end.

(** [size_t] arithmetic wraps around. *)
Definition SIZE_WIDTH : Z := 64.
Definition size_t_wrap (z : Z) : Z := (z mod 2 ^ SIZE_WIDTH)%Z.

(** ** The parser and the accessors *)

Section UrlApi.

(** The external collaborators.  [Curl_builtin_scheme] gives the default
    port of the handler of a registered scheme, and nothing for a scheme
    that is not registered.  [Curl_parse_login_details] splits the login
    text and may fail.  [Curl_dedotdotify] removes the dot segments of a
    path. *)
Variable Curl_builtin_scheme : cstring -> option Z.
Variable Curl_parse_login_details :
  cstring -> option (option cstring * option cstring * option cstring).
Variable Curl_dedotdotify : cstring -> cstring.

(** Whether the build is one for MSDOS, WIN32 or CYGWIN. *)
Variable WIN32 : bool.

(** What the printf family writes for a NULL string argument. *)
Variable printf_null : cstring.

Definition parse_hostname_login (u : Curl_URL) (hostname : cstring)
    (flags : Z) : CURLUcode * Curl_URL * cstring :=
  match strchr hostname "@" with
  | None => (CURLURLE_OK, u, hostname)
  | Some i =>
      let login := firstn i hostname in
      let hostname := skipn (S i) hostname in
      match Curl_parse_login_details login with
      | None => (CURLURLE_MALFORMED_INPUT, u, hostname)
      | Some (userp, passwdp, optionsp) =>
          match userp with
          | Some _ =>
              if has_flag flags CURLURL_DISALLOW_USER
              then (CURLURLE_USER_NOT_ALLOWED, u, hostname)
              else
                let u := set_user u userp in
                let u := match passwdp with
                         | Some _ => set_password u passwdp
                         | None => u
                         end in
                let u := match optionsp with
                         | Some _ => set_options u optionsp
                         | None => u
                         end in
                (CURLURLE_OK, u, hostname)
          | None =>
              let u := match passwdp with
                       | Some _ => set_password u passwdp
                       | None => u
                       end in
              let u := match optionsp with
                       | Some _ => set_options u optionsp
                       | None => u
                       end in
              (CURLURLE_OK, u, hostname)
          end
      end
  end.

(** The part of [parse_port] that follows the search for [portptr]. *)
Definition parse_port_at (u : Curl_URL) (hostname : cstring)
    (portptr : option nat) : CURLUcode * Curl_URL * cstring :=
  match portptr with
  | None => (CURLURLE_OK, u, hostname)
  | Some p =>
      let digits := skipn (S p) hostname in
      let '(port, rest) := strtol digits in
      if ((port <=? 0) || (port >? 65535))%Z
      then (CURLURLE_BAD_PORT_NUMBER, u, hostname)
      else if negb (Ascii.eqb (char_at digits rest) NUL)
      then (CURLURLE_BAD_PORT_NUMBER, u, hostname)
      else if negb (rest =? 0) then
        let u := set_portnum u port in
        let u := set_port u (Some (snprintf_portbuf port)) in
        (CURLURLE_OK, u, firstn p hostname)
      else
        (CURLURLE_OK, u, firstn p hostname)
  end.

Definition parse_port (u : Curl_URL) (hostname : cstring)
  : CURLUcode * Curl_URL * cstring :=
  match sscanf_bracket hostname with
  | Some (endbracket, len) =>
      if Ascii.eqb endbracket "]" then
        if negb (Ascii.eqb (char_at hostname len) ":")
        then (CURLURLE_MALFORMED_INPUT, u, hostname)
        else parse_port_at u hostname (Some len)
      else parse_port_at u hostname (strchr hostname ":")
  | None => parse_port_at u hostname (strchr hostname ":")
  end.

Definition hostname_check (hostname : cstring) (flags : Z) : CURLUcode :=
  let hlen := Z.of_nat (length hostname) in
  let '(hostname, l, hlen) :=
    if Ascii.eqb (char_at hostname 0) "["
    then (skipn 1 hostname, cs "0123456789abcdefABCDEF::.",
          size_t_wrap (hlen - 2))
    else (hostname,
          cs "0123456789abcdefghijklimnopqrstuvwxyz-.ABCDEFGHIJKLIMNOPQRSTUVWXYZ",
          hlen) in
  let len := Z.of_nat (strspn hostname l) in
  if negb (hlen =? len)%Z then CURLURLE_MALFORMED_INPUT else CURLURLE_OK.

(** The file: branch of [parseurl]: the path left in the scratch area. *)
Definition parse_file (url : cstring) : CURLUcode + cstring :=
  match sscanf_file url with
  | None => inl CURLURLE_MALFORMED_INPUT
  | Some path =>
      let authority :=
        if Ascii.eqb (char_at path 0) "/" && Ascii.eqb (char_at path 1) "/"
        then
          let ptr := skipn 2 path in
          if negb (Ascii.eqb (char_at ptr 0) "/")
             && negb (STARTS_WITH_URL_DRIVE_PREFIX ptr)
          then
            if negb (checkprefix (cs "localhost/") ptr)
               && negb (checkprefix (cs "127.0.0.1/") ptr)
            then inl CURLURLE_MALFORMED_INPUT
            else inr (skipn 9 ptr)
          else inr ptr
        else inr path in
      match authority with
      | inl e => inl e
      | inr path =>
          if WIN32 then
            if Ascii.eqb (char_at path 0) "/"
               && STARTS_WITH_URL_DRIVE_PREFIX (skipn 1 path)
            then inr (skipn 1 path)
            else inr path
          else
            if (Ascii.eqb (char_at path 0) "/"
                && STARTS_WITH_URL_DRIVE_PREFIX (skipn 1 path))
               || STARTS_WITH_URL_DRIVE_PREFIX path
            then inl CURLURLE_MALFORMED_INPUT
            else inr path
      end
  end.

(** The other branch of [parseurl]: the scheme to store, the host name and
    the path left in the scratch area. *)
Definition parse_generic (url : cstring) (flags : Z)
  : CURLUcode + (cstring * cstring * cstring) :=
  let '(rc, schemebuf, hostname, path) := sscanf_url url in
  if (rc =? 2)%Z then inl CURLURLE_MALFORMED_INPUT
  else
    let scanned :=
      if (rc <? 3)%Z then
        if negb (has_flag flags CURLURL_DEFAULT_SCHEME)
        then inl CURLURLE_MALFORMED_INPUT
        else
          let '(rc, hostname, path) := sscanf_noscheme url in
          if (rc <? 1)%Z then inl CURLURLE_MALFORMED_INPUT
          else inr (DEFAULT_SCHEME, hostname, path)
      else inr (schemebuf, hostname, path) in
    match scanned with
    | inl e => inl e
    | inr (schemep, hostname, path) =>
        match Curl_builtin_scheme schemep with
        | None =>
            if negb (has_flag flags CURLURL_NON_SUPPORT_SCHEME)
            then inl CURLURLE_UNSUPPORTED_SCHEME
            else inr (schemep, hostname, path)
        | Some _ => inr (schemep, hostname, path)
        end
    end.

(** The cuts at the first '?' and then at the first '#' of the query, or
    of the path when there is no query. *)
Definition split_query_fragment (path : cstring)
  : cstring * option cstring * option cstring :=
  let '(path, query) :=
    match strchr path "?" with
    | Some i => (firstn i path, Some (skipn (S i) path))
    | None => (path, None)
    end in
  match query with
  | Some q =>
      match strchr q "#" with
      | Some j => (path, Some (firstn j q), Some (skipn (S j) q))
      | None => (path, Some q, None)
      end
  | None =>
      match strchr path "#" with
      | Some j => (firstn j path, None, Some (skipn (S j) path))
      | None => (path, None, None)
      end
  end.

(** The default path, the inserted slash and the removal of dot segments.
    The query and the fragment lie behind the path in the same buffer:
    moving the path one byte up to insert the slash puts its terminator on
    the first byte of what follows it. *)
Definition fix_path (path : cstring) (query fragment : option cstring)
    (flags : Z) : cstring * option cstring * option cstring :=
  match path with
  | [] =>
      if negb (has_flag flags CURLURL_PATH_AS_IS)
      then (Curl_dedotdotify ["/"], query, fragment)
      else (["/"], query, fragment)
  | c :: _ =>
      if negb (Ascii.eqb c "/") then
        match query, fragment with
        | Some _, _ => ("/" :: path, Some [], fragment)
        | None, Some _ => ("/" :: path, None, Some [])
        | None, None => ("/" :: path, None, None)
        end
      else if negb (has_flag flags CURLURL_PATH_AS_IS)
      then (Curl_dedotdotify path, query, fragment)
      else (path, query, fragment)
  end.

(** The part of [parseurl] that follows the two scanning branches, from
    the cut of the query on. *)
Definition parse_rest (u : Curl_URL) (hostname path : cstring) (flags : Z)
  : CURLUcode * Curl_URL :=
  let '(path, query, fragment) := split_query_fragment path in
  let '(path, query, fragment) := fix_path path query fragment flags in
  let u := set_path u (Some path) in
  let '(result, u, hostname) := parse_hostname_login u hostname flags in
  if failed result then (result, u)
  else
    let '(result, u, hostname) := parse_port u hostname in
    if failed result then (result, u)
    else
      let result := hostname_check hostname flags in
      if failed result then (result, u)
      else
        let u := set_host u (Some hostname) in
        let u :=
          match query with
          | Some (_ :: _) => set_query u query
          | _ => u
          end in
        let u :=
          match fragment with
          | Some (_ :: _) => set_fragment u fragment
          | _ => u
          end in
        (CURLURLE_OK, set_scratch u false).

(** [uninit] is what the host name area of the fresh scratch buffer holds
    before anything is written to it: the file: branch leaves it as
    [malloc] returned it. *)
Definition parseurl (uninit : cstring) (url : cstring) (u : Curl_URL)
    (flags : Z) : CURLUcode * Curl_URL :=
  if Ascii.eqb (char_at url 0) ":" then (CURLURLE_MALFORMED_INPUT, u)
  else
    let u := set_scratch u true in
    let url_has_scheme := check_scheme 16 url in
    if url_has_scheme && strncasecompare url (cs "file:") 5 then
      match parse_file url with
      | inl e => (e, u)
      | inr path => parse_rest u uninit path flags
      end
    else
      match parse_generic url flags with
      | inl e => (e, u)
      | inr (schemep, hostname, path) =>
          parse_rest (set_scheme u (Some schemep)) hostname path flags
      end.

(** [curl_url]: the result and what [*urlhandle] is set to. *)
Definition curl_url (uninit : cstring) (URL : cstring) (flags : Z)
  : CURLUcode * option Curl_URL :=
  let '(result, u) := parseurl uninit URL zero_handle flags in
  if failed result || has_flag flags CURLURL_VERIFY_ONLY
  then (result, None)
  else (result, Some u).

Definition or_empty (s : option cstring) : cstring :=
  match s with Some x => x | None => [] end.

Definition if_set (s : option cstring) (x : cstring) : cstring :=
  match s with Some _ => x | None => [] end.

(** The "%s://%s%s%s%s%s%s%s%s%s%s%s%s" of the URL part. *)
Definition format_url (u : Curl_URL) (scheme : cstring) (hostp : cstring)
    (portp : option cstring) : cstring :=
  scheme ++ cs "://"
  ++ or_empty (user u)
  ++ if_set (password u) [":"]
  ++ or_empty (password u)
  ++ (match user u, password u with
      | None, None => []
      | _, _ => ["@"]
      end)
  ++ hostp
  ++ if_set portp [":"]
  ++ or_empty portp
  ++ (match path u with Some p => p | None => printf_null end)
  ++ if_set (query u) ["?"]
  ++ or_empty (query u)
  ++ if_set (fragment u) ["#"]
  ++ or_empty (fragment u).

Definition missing_or (ifmissing : CURLUcode) (ptr : option cstring)
  : CURLUcode + cstring :=
  match ptr with
  | Some s => inr s
  | None => inl ifmissing
  end.

(** [curl_url_get] for a handle and a part pointer that are not NULL: the
    error code, or the string handed out. *)
Definition curl_url_get (u : Curl_URL) (what : CURLUPart) (flags : Z)
  : CURLUcode + cstring :=
  match what with
  | CURLUPART_SCHEME => missing_or CURLURLE_NO_SCHEME (scheme u)
  | CURLUPART_USER => missing_or CURLURLE_NO_USER (user u)
  | CURLUPART_PASSWORD => missing_or CURLURLE_NO_PASSWORD (password u)
  | CURLUPART_OPTIONS => missing_or CURLURLE_NO_OPTIONS (options u)
  | CURLUPART_HOST => missing_or CURLURLE_NO_HOST (host u)
  | CURLUPART_PORT =>
      let ptr :=
        match port u, scheme u with
        | None, Some s =>
            if has_flag flags CURLURL_DEFAULT_PORT then
              match Curl_builtin_scheme s with
              | Some defport => Some (snprintf_portbuf defport)
              | None => None
              end
            else None
        | Some p, Some s =>
            match Curl_builtin_scheme s with
            | Some defport =>
                if (defport =? portnum u)%Z
                   && has_flag flags CURLURL_NO_DEFAULT_PORT
                then None else Some p
            | None => Some p
            end
        | ptr, None => ptr
        end in
      missing_or CURLURLE_NO_PORT ptr
  | CURLUPART_PATH => missing_or CURLURLE_NO_PATH (path u)
  | CURLUPART_QUERY => missing_or CURLURLE_NO_QUERY (query u)
  | CURLUPART_FRAGMENT => missing_or CURLURLE_NO_FRAGMENT (fragment u)
  | CURLUPART_URL =>
      match host u with
      | Some hostp =>
          let schemep :=
            match scheme u with
            | Some s => Some s
            | None =>
                if has_flag flags CURLURL_DEFAULT_SCHEME
                then Some DEFAULT_SCHEME else None
            end in
          match schemep with
          | None => inl CURLURLE_NO_SCHEME
          | Some s =>
              let portp :=
                match port u with
                | None =>
                    if has_flag flags CURLURL_DEFAULT_PORT then
                      match Curl_builtin_scheme s with
                      | Some defport => Some (snprintf_portbuf defport)
                      | None => None
                      end
                    else None
                | Some p =>
                    match Curl_builtin_scheme s with
                    | Some defport =>
                        if (defport =? portnum u)%Z
                           && has_flag flags CURLURL_NO_DEFAULT_PORT
                        then None else Some p
                    | None => Some p
                    end
                end in
              inr (format_url u s hostp portp)
          end
      | None => inl CURLURLE_NO_HOST
      end
  | CURLUPART_other => inl CURLURLE_UNKNOWN_PART
  end.

(** The end of [curl_url_set] for a scalar part: [store] writes through
    [storep], [port] is 0 unless the part is the port. *)
Definition store_part (u : Curl_URL)
    (store : Curl_URL -> option cstring -> Curl_URL) (part : cstring)
    (port : Z) : CURLUcode * Curl_URL :=
  let newp := part in
  if Ascii.eqb (char_at newp 0) NUL then (CURLURLE_OUT_OF_MEMORY, u)
  else
    let u := store u (Some newp) in
    let u := if negb (port =? 0)%Z then set_portnum u port else u in
    (CURLURLE_OK, u).

(** The replacement of the handle by the freshly parsed one.  With no
    handle to copy from, [copy_urlhandle] reads through a NULL pointer:
    the call has no result. *)
Definition replace_handle (u : Curl_URL)
    (parsed : CURLUcode * option Curl_URL) : option (CURLUcode * Curl_URL) :=
  let '(result, handle2) := parsed in
  if failed result then Some (result, u)
  else
    match handle2 with
    | Some from => Some (result, from)
    | None => None
    end.

(** [curl_url_set] for a handle and a part that are not NULL: the result
    and the handle after the call. *)
Definition curl_url_set (uninit : cstring) (u : Curl_URL) (what : CURLUPart)
    (part : cstring) (flags : Z) : option (CURLUcode * Curl_URL) :=
  match what with
  | CURLUPART_SCHEME =>
      if negb (has_flag flags CURLURL_NON_SUPPORT_SCHEME)
         && match Curl_builtin_scheme part with
            | None => true
            | Some _ => false
            end
      then Some (CURLURLE_UNSUPPORTED_SCHEME, u)
      else Some (store_part u set_scheme part 0)
  | CURLUPART_USER => Some (store_part u set_user part 0)
  | CURLUPART_PASSWORD => Some (store_part u set_password part 0)
  | CURLUPART_OPTIONS => Some (store_part u set_options part 0)
  | CURLUPART_HOST => Some (store_part u set_host part 0)
  | CURLUPART_PORT =>
      let port := fst (strtol part) in
      if ((port <=? 0) || (port >? 65535))%Z
      then Some (CURLURLE_BAD_PORT_NUMBER, u)
      else Some (store_part u set_port part port)
  | CURLUPART_PATH => Some (store_part u set_path part 0)
  | CURLUPART_QUERY => Some (store_part u set_query part 0)
  | CURLUPART_FRAGMENT => Some (store_part u set_fragment part 0)
  | CURLUPART_URL =>
      if Curl_is_absolute_url part then
        replace_handle u (curl_url uninit part flags)
      else
        match curl_url_get u CURLUPART_URL flags with
        | inl result => Some (result, u)
        | inr oldurl =>
            let redired_url :=
              Curl_concat_url urlchar_needs_escaping oldurl part in
            replace_handle u (curl_url uninit redired_url flags)
        end
  | CURLUPART_other => Some (CURLURLE_UNKNOWN_PART, u)
  end.

End UrlApi.

(** ** Reference collaborators

    The scheme directory, the login splitter and the dot-segment normalizer
    live outside this file of the sources.  The definitions below give one
    instance of each, for running the parser on concrete URLs. *)

Definition strcasecompare (first second : cstring) : bool :=
  strncasecompare first second (S (length first)).

(** Modelled from the spec: the Scheme Directory, [lookup(name)] giving
    whether the scheme is registered and its default port; a few well-known
    schemes with their ports, names compared without regard to case. *)
Definition scheme_table : list (cstring * Z) :=
  [ (cs "http", 80%Z); (cs "https", 443%Z); (cs "ftp", 21%Z);
    (cs "ftps", 990%Z); (cs "imap", 143%Z); (cs "file", 0%Z) ].

Definition builtin_scheme (name : cstring) : option Z :=
  match find (fun e => strcasecompare (fst e) name) scheme_table with
  | Some e => Some (snd e)
  | None => None
  end.

Definition nonempty (s : cstring) : option cstring :=
  match s with [] => None | _ => Some s end.

(** Modelled from the spec: the Login Splitter, which tokenizes
    "user[:password][;options]"; the password starts behind the first ':',
    the options behind the first ';', and an empty token is not stored. *)
Definition parse_login_details (login : cstring)
  : option (option cstring * option cstring * option cstring) :=
  let len := length login in
  let psep := strchr login ":" in
  let osep := strchr login ";" in
  let ulen :=
    match psep, osep with
    | Some p, Some o => if o <? p then o else p
    | Some p, None => p
    | None, Some o => o
    | None, None => len
    end in
  let passwd :=
    match psep, osep with
    | Some p, Some o =>
        if p <? o then firstn (o - p - 1) (skipn (S p) login)
        else skipn (S p) login
    | Some p, None => skipn (S p) login
    | None, _ => []
    end in
  let opts :=
    match osep, psep with
    | Some o, Some p =>
        if o <? p then firstn (p - o - 1) (skipn (S o) login)
        else skipn (S o) login
    | Some o, None => skipn (S o) login
    | None, _ => []
    end in
  Some (nonempty (firstn ulen login), nonempty passwd, nonempty opts).

(** Last path segment of the output buffer removed, with the '/' before
    it; the buffer is kept reversed. *)
Fixpoint drop_last_segment (rev_out : cstring) : cstring :=
  match rev_out with
  | [] => []
  | c :: r => if Ascii.eqb c "/" then r else drop_last_segment r
  end.

(** The first path segment of the input, with its leading '/' if any, up
    to the next '/', pushed on the reversed output. *)
Fixpoint move_segment (first : bool) (rev_out input : cstring)
  : cstring * cstring :=
  match input with
  | [] => (rev_out, [])
  | c :: r =>
      if Ascii.eqb c "/" && negb first then (rev_out, input)
      else move_segment false (c :: rev_out) r
  end.

Fixpoint cstring_eqb (a b : cstring) : bool :=
  match a, b with
  | [], [] => true
  | x :: a', y :: b' => Ascii.eqb x y && cstring_eqb a' b'
  | _, _ => false
  end.

(** One round of the loop for each step; [fuel] bounds the rounds, and
    every round shortens the input. *)
Fixpoint remove_dot_segments (fuel : nat) (rev_out input : cstring)
  : cstring :=
  match fuel with
  | O => rev rev_out
  | S fuel' =>
      match input with
      | [] => rev rev_out
      | _ =>
          if has_prefix (cs "../") input then
            remove_dot_segments fuel' rev_out (skipn 3 input)
          else if has_prefix (cs "./") input then
            remove_dot_segments fuel' rev_out (skipn 2 input)
          else if has_prefix (cs "/./") input then
            remove_dot_segments fuel' rev_out (skipn 2 input)
          else if cstring_eqb input (cs "/.") then
            remove_dot_segments fuel' rev_out ["/"]
          else if has_prefix (cs "/../") input then
            remove_dot_segments fuel' (drop_last_segment rev_out)
              (skipn 3 input)
          else if cstring_eqb input (cs "/..") then
            remove_dot_segments fuel' (drop_last_segment rev_out) ["/"]
          else if cstring_eqb input (cs ".") || cstring_eqb input (cs "..")
          then rev rev_out
          else
            let '(rev_out, input) := move_segment true rev_out input in
            remove_dot_segments fuel' rev_out input
      end
  end.

(** Modelled from the spec: the Dot-Segment Normalizer, the
    remove_dot_segments algorithm of RFC 3986, section 5.2.4. *)
Definition dedotdotify (input : cstring) : cstring :=
  remove_dot_segments (S (length input)) [] input.



(** ** The escaping rule, byte by byte *)

(** Offset of the first '?' at or after offset [k]. *)
Definition first_query_from (k : nat) (s : cstring) : option nat :=
  option_map (Nat.add k) (strchr (skipn k s) "?").

(** Offset of the first '/' at or after offset [k]. *)
Definition first_slash_from (k : nat) (s : cstring) : option nat :=
  option_map (Nat.add k) (strchr (skipn k s) "/").

Definition or_end (s : cstring) (o : option nat) : nat :=
  match o with Some i => i | None => length s end.

(** What is written for the byte [c] at offset [i], when the host region
    ends at [boundary] and the first '?' that counts is at [firstq]. *)
Definition escape_piece (boundary : nat) (firstq : option nat) (i : nat)
    (c : ascii) : cstring :=
  if i <? boundary then [c]
  else if Ascii.eqb c " " then
    match firstq with
    | Some q => if q <=? i then ["+"] else ["%"; "2"; "0"]
    | None => ["%"; "2"; "0"]
    end
  else if urlchar_needs_escaping c then percent_encode c
  else [c].

Fixpoint map_pieces (f : nat -> ascii -> cstring) (i : nat) (s : cstring)
  : cstring :=
  match s with
  | [] => []
  | c :: r => f i c ++ map_pieces f (S i) r
  end.

(** The copy as the code makes it: the host region ends at the earlier of
    the first '/' and the first '?' found at or after the host start, and
    the first '?' that counts is the first one at or after the host
    start. *)
Definition escaped_copy (url : cstring) (relative : bool) : cstring :=
  let start := if relative then 0 else host_start url in
  let firstq := first_query_from start url in
  let boundary :=
    if relative then 0
    else Nat.min (or_end url (first_slash_from start url)) (or_end url firstq) in
  map_pieces (escape_piece boundary firstq) 0 url.

(** The copy in the words of the specification: the host region ends at the
    earlier of the first '/' after "//" (or after the string start) and the
    first '?' of the string, and a space is written '+' at or after the
    first '?' of the string. *)
Definition claimed_copy (url : cstring) (relative : bool) : cstring :=
  let firstq := strchr url "?" in
  let boundary :=
    if relative then 0
    else Nat.min (or_end url (first_slash_from (host_start url) url))
                 (or_end url firstq) in
  map_pieces (escape_piece boundary firstq) 0 url.

(** ** The API over the reference collaborators *)

Definition ref_parseurl := parseurl builtin_scheme parse_login_details dedotdotify false.
Definition ref_curl_url := curl_url builtin_scheme parse_login_details dedotdotify false.
Definition ref_curl_url_get := curl_url_get builtin_scheme (cs "(nil)").
Definition ref_curl_url_set :=
  curl_url_set builtin_scheme parse_login_details dedotdotify false (cs "(nil)").

(** Offset of the first '?' met by the copy loop from offset [pos] on, the
    bytes in front of [host_sep] being passed without a look. *)
Fixpoint next_query (host_sep pos : nat) (s : cstring) : option nat :=
  match s with
  | [] => None
  | c :: r =>
      if (host_sep <=? pos) && Ascii.eqb c "?" then Some pos
      else next_query host_sep (S pos) r
  end.

(** The string that the URL part of [curl_url_set] hands to the parser: the
    value itself when it looks absolute, else the value resolved against
    the URL of the handle; none when that URL cannot be extracted. *)
Definition url_to_parse (dir : cstring -> option Z) (printf_null : cstring)
    (u : Curl_URL) (part : cstring) (flags : Z) : CURLUcode + cstring :=
  if Curl_is_absolute_url part then inr part
  else
    match curl_url_get dir printf_null u CURLUPART_URL flags with
    | inl e => inl e
    | inr oldurl => inr (Curl_concat_url urlchar_needs_escaping oldurl part)
    end.

(** The handle of "http://a/b/c". *)
Definition handle_abc : Curl_URL :=
  mkURL (Some (cs "http")) None None None (Some (cs "a")) None
    (Some (cs "/b/c")) None None false 0.

(** The handle of "http://a/d". *)
Definition handle_ad : Curl_URL :=
  mkURL (Some (cs "http")) None None None (Some (cs "a")) None
    (Some (cs "/d")) None None false 0.

(** ** The path of a URL *)

(** The path text that the scanning branch of the parser leaves once the
    query and the fragment are cut off; none when the scan fails. *)
Definition url_path_text (dir : cstring -> option Z) (win : bool)
    (url : cstring) (flags : Z) : option cstring :=
  if Ascii.eqb (char_at url 0) ":" then None
  else if check_scheme 16 url && strncasecompare url (cs "file:") 5 then
    match parse_file win url with
    | inr p => Some (fst (fst (split_query_fragment p)))
    | inl _ => None
    end
  else
    match parse_generic dir url flags with
    | inr (_, _, p) => Some (fst (fst (split_query_fragment p)))
    | inl _ => None
    end.

(** The path text with "/" for the empty path and a '/' put in front of a
    path that does not start with one. *)
Definition slash_prefixed (p : cstring) : cstring :=
  match p with
  | [] => ["/"]
  | c :: _ => if Ascii.eqb c "/" then p else "/" :: p
  end.

(** Whether the path text needs the '/' put in front. *)
Definition slash_inserted (p : cstring) : bool :=
  match p with
  | [] => false
  | c :: _ => negb (Ascii.eqb c "/")
  end.

(** ** The port text *)

(** The text written for the port [v] is made of digits and is read back by
    [strtol] as [v], up to its end. *)
Definition port_text_ok (v : Z) : bool :=
  let t := snprintf_portbuf v in
  match t with
  | [] => false
  | _ =>
      forallb ISDIGIT t
      && (fst (strtol t) =? v)%Z
      && (snd (strtol t) =? length t)
  end.

(** The set of the bracketed literal. *)
Definition v6set : ascii -> bool := in_set (cs "0123456789abcdefABCDEF:.").

(** The host name does not read as a bracketed literal closed by ']'. *)
Definition no_bracket_match (hostname : cstring) : Prop :=
  match sscanf_bracket hostname with
  | Some (c, _) => c <> "]"
  | None => True
  end.

(** ** The round trip through the URL part *)

Definition scheme_byte : ascii -> bool := not_in_set [LF; "/"; ":"].
Definition host_byte : ascii -> bool := not_in_set [LF; "/"; "?"; "#"].
Definition line_byte : ascii -> bool := not_in_set [LF].

(** The query or the fragment as [parseurl] stores it: not when empty. *)
Definition stored (o : option cstring) : option cstring :=
  match o with
  | Some (_ :: _) => o
  | _ => None
  end.

(** The login as [parse_hostname_login] stores it. *)
Definition store_login (u : Curl_URL) (userp passwdp optionsp : option cstring)
  : Curl_URL :=
  let u := match userp with Some _ => set_user u userp | None => u end in
  let u := match passwdp with Some _ => set_password u passwdp | None => u end in
  match optionsp with Some _ => set_options u optionsp | None => u end.

(** The handle [parseurl] starts the common part with, once the scheme is
    stored. *)
Definition scheme_handle (s : cstring) : Curl_URL :=
  set_scheme (set_scratch zero_handle true) (Some s).

(** The login text "user[:password]" as the URL part writes it. *)
Definition login_text (u : Curl_URL) : cstring :=
  or_empty (user u) ++ if_set (password u) [":"] ++ or_empty (password u).

Definition has_login (u : Curl_URL) : bool :=
  match user u, password u with
  | None, None => false
  | _, _ => true
  end.

(** The Login Splitter splits the login text of the handle back into its
    user and password, and the text can stand in a host name; without a
    login, the host holds no '@' and the host name is not empty. *)
Definition login_resplits
    (login : cstring ->
             option (option cstring * option cstring * option cstring))
    (u : Curl_URL) : Prop :=
  if has_login u then
    forallb host_byte (login_text u) = true
    /\ strchr (login_text u) "@" = None
    /\ login (login_text u) = Some (user u, password u, None)
  else
    strchr (or_empty (host u)) "@" = None
    /\ (or_empty (host u) <> [] \/ port u <> None).

(** The stored path is a fixed point of the normalizer, starts with '/' and
    holds neither a '?' nor a line feed. *)
Definition path_stable (dedot : cstring -> cstring) (u : Curl_URL) : Prop :=
  match path u with
  | Some P =>
      dedot P = P /\ char_at P 0 = "/" /\ forallb line_byte P = true
      /\ strchr P "?" = None
  | None => False
  end.

(** The marks '?' and '#' read back as written: a query is stored, or the
    path holds no '#' and the fragment no '?'. *)
Definition query_marks_kept (u : Curl_URL) : Prop :=
  query u <> None
  \/ (strchr (or_empty (path u)) "#" = None
      /\ strchr (or_empty (fragment u)) "?" = None).

(** What the URL part writes behind the host and the port. *)
Definition path_and_marks (P : cstring) (Q F : option cstring) : cstring :=
  P ++ if_set Q ["?"] ++ or_empty Q ++ if_set F ["#"] ++ or_empty F.


Definition at_mark (us pw : option cstring) : cstring :=
  match us, pw with
  | None, None => []
  | _, _ => ["@"]
  end.

(** What the URL part writes between "://" and the path. *)
Definition host_written (us pw : option cstring) (H : cstring)
    (porto : option cstring) : cstring :=
  or_empty us ++ if_set pw [":"] ++ or_empty pw ++ at_mark us pw
  ++ H ++ if_set porto [":"] ++ or_empty porto.

(** The handle of "http://user:pw@host:8080/a/../b?q=1#frag". *)
Definition handle_full : Curl_URL :=
  mkURL (Some (cs "http")) (Some (cs "user")) (Some (cs "pw")) None
    (Some (cs "host")) (Some (cs "8080")) (Some (cs "/b"))
    (Some (cs "q=1")) (Some (cs "frag")) false 8080.

(** ** Shapes of strings *)

(** The string is empty or starts with '/'. *)
Definition slash_led_or_empty (l : cstring) : Prop :=
  match l with
  | [] => True
  | c :: _ => c = "/"
  end.

(** A scan stops in front of a byte that is not of the set, or at the end
    of the input. *)
Definition stops (p : ascii -> bool) (b : cstring) : Prop :=
  match b with
  | [] => True
  | c :: _ => p c = false
  end.


(** ** The copy of a handle *)

(** The DUP macro: a field that is set in the source handle is copied. *)
Definition DUP (dest : Curl_URL)
    (store : Curl_URL -> option cstring -> Curl_URL)
    (field : option cstring) : Curl_URL :=
  match field with
  | Some s => store dest (Some s)
  | None => dest
  end.

(** [curl_url_dup]: the nine strings and the number of the port go to a
    handle that [calloc] returned; the scratch area is not copied. *)
Definition curl_url_dup (inp : Curl_URL) : Curl_URL :=
  let u := zero_handle in
  let u := DUP u set_scheme (scheme inp) in
  let u := DUP u set_user (user inp) in
  let u := DUP u set_password (password inp) in
  let u := DUP u set_options (options inp) in
  let u := DUP u set_host (host inp) in
  let u := DUP u set_port (port inp) in
  let u := DUP u set_path (path inp) in
  let u := DUP u set_query (query inp) in
  let u := DUP u set_fragment (fragment inp) in
  set_portnum u (portnum inp).

(** ** Classes of bytes and shapes used in the statements *)

(** A byte that the escaper copies as it is wherever it stands. *)
Definition plain_byte (c : ascii) : bool :=
  negb (Ascii.eqb c " ") && negb (urlchar_needs_escaping c).

(** The bytes [hostname_check] accepts in a host name. *)
Definition name_byte : ascii -> bool :=
  in_set
    (cs "0123456789abcdefghijklimnopqrstuvwxyz-.ABCDEFGHIJKLIMNOPQRSTUVWXYZ").

(** The bytes [hostname_check] accepts behind a '['. *)
Definition literal_byte : ascii -> bool :=
  in_set (cs "0123456789abcdefABCDEF::.").

(** The bytes the scan of [Curl_is_absolute_url] takes for the scheme. *)
Definition prot_byte : ascii -> bool := not_in_set ["?"; "&"; "/"; ":"].

(** [clone] is the base cut somewhere at or behind offset [k]. *)
Definition cut_of (k : nat) (base clone : cstring) : Prop :=
  firstn k clone = firstn k base
  /\ k <= length clone /\ length clone <= length base.

(** ** What the parser hands out *)

(** The handle that [parseurl] gives to its common part: what [calloc]
    returned, with the scratch area allocated and the scheme, if one was
    scanned. *)
Definition fresh_handle (sch : option cstring) : Curl_URL :=
  mkURL sch None None None None None None None None true 0.

(** The port string and the port number of the handle go together: no
    string and the number 0, or a number from 1 to 65535 and the decimal
    text of it, which [strtol] reads back. *)
Definition port_in_step (u : Curl_URL) : Prop :=
  match port u with
  | None => portnum u = 0%Z
  | Some t =>
      (0 < portnum u <= 65535)%Z
      /\ t = snprintf_portbuf (portnum u)
      /\ strtol t = (portnum u, length t)
  end.

(** The URL is one that [parseurl] takes through its file: branch. *)
Definition is_file_url (url : cstring) : bool :=
  check_scheme 16 url && strncasecompare url (cs "file:") 5.

(** The text that the cuts of the query and of the fragment came from. *)
Definition marks_written (p : cstring) (q f : option cstring) : cstring :=
  p ++ match q with Some Q => "?" :: Q | None => [] end
    ++ match f with Some F => "#" :: F | None => [] end.

(** The two flag words agree on the four options the parser looks at. *)
Definition same_parse_options (f1 f2 : Z) : Prop :=
  has_flag f1 CURLURL_DEFAULT_SCHEME = has_flag f2 CURLURL_DEFAULT_SCHEME
  /\ has_flag f1 CURLURL_NON_SUPPORT_SCHEME
     = has_flag f2 CURLURL_NON_SUPPORT_SCHEME
  /\ has_flag f1 CURLURL_PATH_AS_IS = has_flag f2 CURLURL_PATH_AS_IS
  /\ has_flag f1 CURLURL_DISALLOW_USER = has_flag f2 CURLURL_DISALLOW_USER.

(** The parts that name one field of the handle. *)
Definition scalar_part (what : CURLUPart) : bool :=
  match what with
  | CURLUPART_URL | CURLUPART_other => false
  | _ => true
  end.

(** The port that [curl_url_get] hands out, if it hands one out. *)
Definition port_handed_out (dir : cstring -> option Z) (nul : cstring)
    (u : Curl_URL) (flags : Z) : option cstring :=
  match curl_url_get dir nul u CURLUPART_PORT flags with
  | inr p => Some p
  | inl _ => None
  end.

(** The codes that the parser can return. *)
Definition parser_code (e : CURLUcode) : bool :=
  match e with
  | CURLURLE_OK | CURLURLE_MALFORMED_INPUT | CURLURLE_BAD_PORT_NUMBER
  | CURLURLE_UNSUPPORTED_SCHEME | CURLURLE_USER_NOT_ALLOWED => true
  | _ => false
  end.


(** * Properties *)

(** ** C strings *)

Lemma strchr_bound s c i : strchr s c = Some i -> i < length s.
Proof.
  revert i; induction s as [|x s IH]; simpl; intros i H; [discriminate|].
  destruct (Ascii.eqb x c).
  - injection H as <-. lia.
  - destruct (strchr s c) as [j|]; simpl in H; [|discriminate].
    injection H as <-. specialize (IH j eq_refl). lia.
Qed.

Lemma strchr_nth s c i : strchr s c = Some i -> nth i s NUL = c.
Proof.
  revert i; induction s as [|x s IH]; simpl; intros i H; [discriminate|].
  destruct (Ascii.eqb_spec x c).
  - injection H as <-. assumption.
  - destruct (strchr s c) as [j|]; simpl in H; [|discriminate].
    injection H as <-. now apply IH.
Qed.

Lemma strchr_skipn_some s c q k :
  strchr s c = Some q -> k <= q -> strchr (skipn k s) c = Some (q - k).
Proof.
  revert q k; induction s as [|x s IH]; simpl; intros q k H Hk; [discriminate|].
  destruct k as [|k]; simpl.
  - rewrite H. f_equal. lia.
  - destruct (Ascii.eqb x c).
    + injection H as <-. lia.
    + destruct (strchr s c) as [j|]; simpl in H; [|discriminate].
      injection H as <-. simpl. apply IH; [reflexivity | lia].
Qed.

Lemma strchr_skipn_none s c k :
  strchr s c = None -> strchr (skipn k s) c = None.
Proof.
  revert k; induction s as [|x s IH]; simpl; intros k H.
  - now destruct k.
  - destruct k as [|k]; simpl.
    + assumption.
    + destruct (Ascii.eqb x c); [discriminate|].
      destruct (strchr s c); [discriminate|]. now apply IH.
Qed.

(** ** The escaping pair *)

Section EscapingPair.

Variable needs : ascii -> bool.

Lemma percent_encode_length c : length (percent_encode c) = 3.
Proof. reflexivity. Qed.

Lemma escaping_loops_agree s :
  forall host_sep pos left newlen out,
    newlen = length out ->
    strlen_url_loop needs host_sep pos left newlen s
    = length (strcpy_url_loop needs host_sep pos left out s).
Proof.
  induction s as [|c s IH]; intros host_sep pos left newlen out Hlen; simpl.
  - assumption.
  - destruct (pos <? host_sep).
    + apply IH. rewrite length_app. simpl. lia.
    + destruct (Ascii.eqb c "?"); [|destruct (Ascii.eqb c " ")].
      * apply IH. destruct (needs c); rewrite length_app; simpl; lia.
      * apply IH. destruct left; rewrite length_app; simpl; lia.
      * apply IH. destruct (needs c); rewrite length_app; simpl; lia.
Qed.

Lemma strlen_url_is_length url relative :
  Curl_strlen_url needs url relative
  = length (Curl_strcpy_url needs url relative).
Proof.
  unfold Curl_strlen_url, Curl_strcpy_url. now apply escaping_loops_agree.
Qed.

End EscapingPair.

(** C3.  For every NUL-free string and either value of the relative flag,
    the length computed by [Curl_strlen_url] is the length of the string
    written by [Curl_strcpy_url]; and the non-relative copy of
    "http://a/b c?d e" is "http://a/b%20c?d+e". *)
Theorem C3_escaping_pair_agreement :
  (forall (s : cstring) (r : bool),
      nul_free s ->
      Curl_strlen_url urlchar_needs_escaping s r
      = length (Curl_strcpy_url urlchar_needs_escaping s r))
  /\ Curl_strcpy_url urlchar_needs_escaping (cs "http://a/b c?d e") false
     = cs "http://a/b%20c?d+e".
Proof.
  split.
  - intros s r _. apply strlen_url_is_length.
  - reflexivity.
Qed.

Lemma C3_escaping_pair_agreement_witness :
  nul_free (cs "a b?c d")
  /\ Curl_strlen_url urlchar_needs_escaping (cs "a b?c d") true
     = length (Curl_strcpy_url urlchar_needs_escaping (cs "a b?c d") true).
Proof.
  split.
  - unfold nul_free. simpl. intros H.
    repeat (destruct H as [H|H]; [discriminate H|]). exact H.
  - apply (proj1 C3_escaping_pair_agreement).
    unfold nul_free. simpl. intros H.
    repeat (destruct H as [H|H]; [discriminate H|]). exact H.
Defined.

(** C7.  The three examples of relative resolution. *)
Theorem C7_concat_url_examples :
  Curl_concat_url urlchar_needs_escaping (cs "http://a/b/c") (cs "../d")
  = cs "http://a/d"
  /\ Curl_concat_url urlchar_needs_escaping (cs "http://a/b/c?q=1") (cs "e")
     = cs "http://a/b/e"
  /\ Curl_concat_url urlchar_needs_escaping (cs "http://a/b/c") (cs "//other/x")
     = cs "http://other/x".
Proof. repeat split; reflexivity. Qed.

(** ** The host boundary and the space rule *)

Lemma next_query_lower host_sep s :
  forall pos q, next_query host_sep pos s = Some q -> pos <= q.
Proof.
  induction s as [|c s IH]; simpl; intros pos q H; [discriminate|].
  destruct ((host_sep <=? pos) && Ascii.eqb c "?").
  - injection H as <-. lia.
  - apply IH in H. lia.
Qed.

Lemma strcpy_url_loop_pieces s :
  forall host_sep pos left out firstq,
    (left = true -> firstq = next_query host_sep pos s) ->
    (left = false -> exists q, firstq = Some q /\ q < pos) ->
    strcpy_url_loop urlchar_needs_escaping host_sep pos left out s
    = out ++ map_pieces (escape_piece host_sep firstq) pos s.
Proof.
  induction s as [|c s IH]; intros host_sep pos left out firstq Ht Hf; simpl.
  - now rewrite app_nil_r.
  - unfold escape_piece at 1.
    destruct (pos <? host_sep) eqn:Hpos.
    + rewrite (IH host_sep (S pos) left (out ++ [c]) firstq).
      * now rewrite <- app_assoc.
      * intros Hl. rewrite (Ht Hl). simpl.
        apply Nat.ltb_lt in Hpos.
        assert ((host_sep <=? pos) = false) as -> by (apply Nat.leb_gt; lia).
        reflexivity.
      * intros Hl. destruct (Hf Hl) as (q & -> & Hq). exists q. split; [reflexivity|lia].
    + apply Nat.ltb_ge in Hpos.
      destruct (Ascii.eqb_spec c "?") as [->|Hq].
      * simpl.
        rewrite (IH host_sep (S pos) false _ firstq).
        -- destruct (urlchar_needs_escaping "?"); now rewrite <- app_assoc.
        -- discriminate.
        -- intros _. destruct left.
           ++ rewrite (Ht eq_refl). simpl.
              assert ((host_sep <=? pos) = true) as -> by (apply Nat.leb_le; lia).
              simpl. exists pos. split; [reflexivity|lia].
           ++ destruct (Hf eq_refl) as (q & -> & Hlt). exists q. split; [reflexivity|lia].
      * assert (Hnext : left = true -> firstq = next_query host_sep (S pos) s).
        { intros Hl. rewrite (Ht Hl). simpl.
          destruct (Ascii.eqb_spec c "?") as [E|_]; [contradiction|].
          now rewrite andb_false_r. }
        assert (Hseen : left = false -> exists q, firstq = Some q /\ q < S pos).
        { intros Hl. destruct (Hf Hl) as (q & -> & Hlt). exists q. split; [reflexivity|lia]. }
        destruct (Ascii.eqb_spec c " ") as [->|Hsp].
        -- rewrite (IH host_sep (S pos) left _ firstq Hnext Hseen).
           destruct left.
           ++ rewrite (Hnext eq_refl).
              destruct (next_query host_sep (S pos) s) as [q|] eqn:Hn.
              ** apply next_query_lower in Hn.
                 assert ((q <=? pos) = false) as -> by (apply Nat.leb_gt; lia).
                 now rewrite <- app_assoc.
              ** now rewrite <- app_assoc.
           ++ destruct (Hf eq_refl) as (q & -> & Hlt).
              assert ((q <=? pos) = true) as -> by (apply Nat.leb_le; lia).
              now rewrite <- app_assoc.
        -- rewrite (IH host_sep (S pos) left _ firstq Hnext Hseen).
           destruct (urlchar_needs_escaping c); now rewrite <- app_assoc.
Qed.

Lemma next_query_skipn s :
  forall host_sep pos,
    pos <= host_sep ->
    next_query host_sep pos s
    = option_map (Nat.add host_sep) (strchr (skipn (host_sep - pos) s) "?").
Proof.
  induction s as [|c s IH]; intros host_sep pos Hle; simpl.
  - now destruct (host_sep - pos).
  - destruct (host_sep <=? pos) eqn:Hp.
    + apply Nat.leb_le in Hp. assert (host_sep = pos) as -> by lia.
      rewrite Nat.sub_diag. simpl.
      destruct (Ascii.eqb c "?"); simpl.
      * f_equal. lia.
      * (* the remaining bytes are all at or after the boundary *)
        clear IH Hle Hp. revert pos.
        induction s as [|d s IHs]; intros pos; simpl; [reflexivity|].
        assert ((pos <=? S pos) = true) as -> by (apply Nat.leb_le; lia).
        simpl. destruct (Ascii.eqb d "?"); simpl.
        -- f_equal. lia.
        -- specialize (IHs (S pos)).
           assert (Hgen : forall k p, p <= k ->
                     next_query p k s = option_map (Nat.add k) (strchr s "?")).
           { clear. induction s as [|e s IH]; intros k p Hkp; simpl; [reflexivity|].
             assert ((p <=? k) = true) as -> by (apply Nat.leb_le; lia). simpl.
             destruct (Ascii.eqb e "?"); simpl.
             - f_equal. lia.
             - rewrite (IH (S k) p) by lia.
               destruct (strchr s "?"); simpl; [f_equal; lia|reflexivity]. }
           rewrite (Hgen (S (S pos)) pos) by lia.
           destruct (strchr s "?"); simpl; [f_equal; lia|reflexivity].
    + apply Nat.leb_gt in Hp. simpl.
      rewrite (IH host_sep (S pos)) by lia.
      replace (host_sep - pos) with (S (host_sep - S pos)) by lia.
      reflexivity.
Qed.

Lemma find_host_sep_min url :
  find_host_sep url
  = Nat.min (or_end url (first_slash_from (host_start url) url))
            (or_end url (first_query_from (host_start url) url)).
Proof.
  unfold find_host_sep, first_slash_from, first_query_from, or_end.
  destruct (strchr (skipn (host_start url) url) "/") as [i|];
    destruct (strchr (skipn (host_start url) url) "?") as [q|]; simpl;
    match goal with
    | |- (if ?a <? ?b then _ else _) = _ =>
        destruct (Nat.ltb_spec a b); lia
    end.
Qed.

(** The first '?' the loop meets from the boundary on is the first '?' at
    or after the host start. *)
Lemma next_query_from_host_sep url :
  next_query (find_host_sep url) 0 url
  = first_query_from (host_start url) url.
Proof.
  rewrite next_query_skipn by lia. rewrite Nat.sub_0_r.
  unfold first_query_from.
  set (start := host_start url).
  destruct (strchr (skipn start url) "?") as [q|] eqn:Hq.
  - assert (Hb : start <= find_host_sep url <= start + q).
    { unfold find_host_sep. fold start. rewrite Hq.
      destruct (strchr (skipn start url) "/") as [i|] eqn:Hi.
      - destruct (Nat.ltb_spec (start + i) (start + q)); lia.
      - destruct (Nat.ltb_spec (length url) (start + q)); [|lia].
        apply strchr_bound in Hq. rewrite length_skipn in Hq. lia. }
    replace (skipn (find_host_sep url) url)
      with (skipn (find_host_sep url - start) (skipn start url))
      by (rewrite skipn_skipn; f_equal; lia).
    rewrite (strchr_skipn_some _ _ q) by (assumption || lia).
    simpl. f_equal. lia.
  - assert (Hb : start <= find_host_sep url \/ length url <= find_host_sep url).
    { unfold find_host_sep. fold start. rewrite Hq.
      destruct (strchr (skipn start url) "/") as [i|] eqn:Hi.
      - destruct (Nat.ltb_spec (start + i) (length url)); lia.
      - destruct (Nat.ltb_spec (length url) (length url)); lia. }
    destruct Hb as [Hb|Hb].
    + replace (skipn (find_host_sep url) url)
        with (skipn (find_host_sep url - start) (skipn start url))
        by (rewrite skipn_skipn; f_equal; lia).
      now rewrite strchr_skipn_none.
    + now rewrite skipn_all2.
Qed.

Lemma strcpy_url_is_escaped_copy url relative :
  Curl_strcpy_url urlchar_needs_escaping url relative = escaped_copy url relative.
Proof.
  unfold Curl_strcpy_url, escaped_copy. destruct relative.
  - rewrite (strcpy_url_loop_pieces url 0 0 true [] (first_query_from 0 url)).
    + reflexivity.
    + intros _. rewrite next_query_skipn by lia. unfold first_query_from.
      reflexivity.
    + discriminate.
  - rewrite <- find_host_sep_min.
    rewrite (strcpy_url_loop_pieces url (find_host_sep url) 0 true []
               (first_query_from (host_start url) url)).
    + reflexivity.
    + intros _. symmetry. apply next_query_from_host_sep.
    + discriminate.
Qed.

Lemma first_query_from_whole url k :
  (forall q, strchr url "?" = Some q -> k <= q) ->
  first_query_from k url = strchr url "?".
Proof.
  intros H. unfold first_query_from.
  destruct (strchr url "?") as [q|] eqn:Hq.
  - rewrite (strchr_skipn_some _ _ q) by auto. simpl. f_equal.
    specialize (H q eq_refl). lia.
  - now rewrite strchr_skipn_none.
Qed.

(** C8, as the code has it.  [Curl_strcpy_url] writes the input byte by
    byte: a byte in front of the host boundary is copied unchanged, and at
    or after the boundary a space becomes "%20" before the first '?' and
    '+' at or after it, where the boundary is the earlier of the first '/'
    and the first '?' found at or after the host start (just behind the
    first "//", or the start of the string), or the end of the string, and
    the first '?' is the first one at or after the host start; with the
    relative flag the boundary and the host start are the start of the
    string.  When no '?' stands in front of the host start this is the rule
    with the first '?' of the whole string. *)
Theorem C8_copy_boundary_and_space :
  (forall url relative,
      Curl_strcpy_url urlchar_needs_escaping url relative
      = escaped_copy url relative)
  /\ (forall url relative,
         (forall q, relative = false -> strchr url "?" = Some q ->
                    host_start url <= q) ->
         Curl_strcpy_url urlchar_needs_escaping url relative
         = claimed_copy url relative).
Proof.
  split.
  - apply strcpy_url_is_escaped_copy.
  - intros url relative H. rewrite strcpy_url_is_escaped_copy.
    unfold escaped_copy, claimed_copy. destruct relative.
    + rewrite first_query_from_whole; [reflexivity|lia].
    + rewrite first_query_from_whole; [reflexivity|]. intros q. now apply H.
Qed.

Lemma C8_copy_boundary_and_space_witness :
  (forall q, false = false -> strchr (cs "http://a b/c d?e f") "?" = Some q ->
             host_start (cs "http://a b/c d?e f") <= q)
  /\ Curl_strcpy_url urlchar_needs_escaping (cs "http://a b/c d?e f") false
     = claimed_copy (cs "http://a b/c d?e f") false.
Proof.
  assert (H : forall q, false = false ->
                strchr (cs "http://a b/c d?e f") "?" = Some q ->
                host_start (cs "http://a b/c d?e f") <= q).
  { intros q _ Hq. vm_compute in Hq. injection Hq as <-. vm_compute. lia. }
  split; [exact H|].
  exact (proj2 C8_copy_boundary_and_space (cs "http://a b/c d?e f") false H).
Defined.

(** C8 as stated fails: in "?//a/ b" the space stands behind the first '?'
    of the string and behind the host boundary, and it is written "%20",
    not '+'. *)
Lemma C8_counterexample :
  Curl_strcpy_url urlchar_needs_escaping (cs "?//a/ b") false = cs "?//a/%20b"
  /\ claimed_copy (cs "?//a/ b") false = cs "?//a/+b"
  /\ Curl_strcpy_url urlchar_needs_escaping (cs "?//a/ b") false
     <> claimed_copy (cs "?//a/ b") false.
Proof.
  split; [reflexivity|]. split; [reflexivity|].
  vm_compute. discriminate.
Qed.

(** ** Setting a scalar part *)

Section SetPart.

Variable Curl_builtin_scheme : cstring -> option Z.
Variable Curl_parse_login_details :
  cstring -> option (option cstring * option cstring * option cstring).
Variable Curl_dedotdotify : cstring -> cstring.
Variable WIN32 : bool.
Variable printf_null : cstring.
Variable uninit : cstring.

Let set := curl_url_set Curl_builtin_scheme Curl_parse_login_details
             Curl_dedotdotify WIN32 printf_null uninit.

Lemma store_part_empty u store port :
  store_part u store [] port = (CURLURLE_OUT_OF_MEMORY, u).
Proof. reflexivity. Qed.

Lemma set_empty_value u what flags :
  what <> CURLUPART_URL -> what <> CURLUPART_other ->
  set u what [] flags
  = Some (match what with
          | CURLUPART_PORT => CURLURLE_BAD_PORT_NUMBER
          | CURLUPART_SCHEME =>
              if negb (has_flag flags CURLURL_NON_SUPPORT_SCHEME)
                 && match Curl_builtin_scheme [] with
                    | None => true
                    | Some _ => false
                    end
              then CURLURLE_UNSUPPORTED_SCHEME
              else CURLURLE_OUT_OF_MEMORY
          | _ => CURLURLE_OUT_OF_MEMORY
          end, u).
Proof.
  intros Hurl Hother. unfold set, curl_url_set.
  destruct what; try contradiction; try reflexivity.
  destruct (negb (has_flag flags CURLURL_NON_SUPPORT_SCHEME)
            && match Curl_builtin_scheme [] with
               | None => true
               | Some _ => false
               end); reflexivity.
Qed.

Lemma set_port_trailing_garbage u flags :
  set u CURLUPART_PORT (cs "80abc") flags
  = Some (CURLURLE_OK, set_portnum (set_port u (Some (cs "80abc"))) 80).
Proof. reflexivity. Qed.

End SetPart.

(** C9.  Setting the port to "80abc" is accepted: the digits are followed
    by other bytes, and still the call returns OK, stores "80abc" as the
    port string and 80 as the number.  Only a value that [strtol] reads as
    at most 0 or more than 65535 is refused. *)
Theorem C9_set_port_accepts_trailing_garbage :
  forall dir login dedot win nul uninit u flags,
    curl_url_set dir login dedot win nul uninit u CURLUPART_PORT (cs "80abc") flags
    = Some (CURLURLE_OK, set_portnum (set_port u (Some (cs "80abc"))) 80).
Proof. intros. apply set_port_trailing_garbage. Qed.

(** C10, as the code has it.  Setting a scalar part to the empty string
    stores nothing and leaves the handle as it was; the call returns the
    out-of-memory error for user, password, options, host, path, query and
    fragment, the bad-port-number error for the port, and for the scheme
    the unsupported-scheme error unless unregistered schemes are accepted
    (or the directory knows the empty name), in which case it is the
    out-of-memory error again. *)
Theorem C10_set_empty_value :
  forall dir login dedot win nul uninit u what flags,
    what <> CURLUPART_URL -> what <> CURLUPART_other ->
    curl_url_set dir login dedot win nul uninit u what [] flags
    = Some (match what with
            | CURLUPART_PORT => CURLURLE_BAD_PORT_NUMBER
            | CURLUPART_SCHEME =>
                if negb (has_flag flags CURLURL_NON_SUPPORT_SCHEME)
                   && match dir [] with
                      | None => true
                      | Some _ => false
                      end
                then CURLURLE_UNSUPPORTED_SCHEME
                else CURLURLE_OUT_OF_MEMORY
            | _ => CURLURLE_OUT_OF_MEMORY
            end, u).
Proof. intros. now apply set_empty_value. Qed.

Lemma C10_set_empty_value_witness :
  CURLUPART_HOST <> CURLUPART_URL
  /\ CURLUPART_HOST <> CURLUPART_other
  /\ ref_curl_url_set [] zero_handle CURLUPART_HOST [] 0
     = Some (CURLURLE_OUT_OF_MEMORY, zero_handle).
Proof.
  split; [discriminate|]. split; [discriminate|].
  exact (C10_set_empty_value builtin_scheme parse_login_details dedotdotify
           false (cs "(nil)") [] zero_handle CURLUPART_HOST 0%Z
           ltac:(discriminate) ltac:(discriminate)).
Defined.

(** C10 as stated fails for the port (and for the scheme): with the empty
    string the call returns the bad-port-number error (the
    unsupported-scheme error), not the out-of-memory error. *)
Lemma C10_counterexample :
  ref_curl_url_set [] zero_handle CURLUPART_PORT [] 0
  = Some (CURLURLE_BAD_PORT_NUMBER, zero_handle)
  /\ ref_curl_url_set [] zero_handle CURLUPART_SCHEME [] 0
     = Some (CURLURLE_UNSUPPORTED_SCHEME, zero_handle)
  /\ ref_curl_url_set [] zero_handle CURLUPART_PORT [] 0
     <> Some (CURLURLE_OUT_OF_MEMORY, zero_handle).
Proof.
  split; [reflexivity|]. split; [reflexivity|]. discriminate.
Qed.

(** ** Parsing the port *)

Section ParsePort.

Variable Curl_builtin_scheme : cstring -> option Z.
Variable Curl_parse_login_details :
  cstring -> option (option cstring * option cstring * option cstring).
Variable Curl_dedotdotify : cstring -> cstring.
Variable WIN32 : bool.

Let parse := parseurl Curl_builtin_scheme Curl_parse_login_details
               Curl_dedotdotify WIN32.
Let create := curl_url Curl_builtin_scheme Curl_parse_login_details
                Curl_dedotdotify WIN32.

(** A colon with nothing that [strtol] converts behind it: the value is 0,
    and the range test comes first. *)
Lemma strtol_nothing s : snd (strtol s) = 0 -> fst (strtol s) = 0%Z.
Proof.
  unfold strtol.
  match goal with
  | |- context [let '(neg, sign_len) := ?m in _] => destruct m as [neg sl]
  end.
  destruct (scan_digits 0 _) as [v n].
  destruct (n =? 0) eqn:E; simpl; [reflexivity|].
  apply Nat.eqb_neq in E. lia.
Qed.

Lemma parse_port_at_no_digits u hostname p :
  snd (strtol (skipn (S p) hostname)) = 0 ->
  parse_port_at u hostname (Some p) = (CURLURLE_BAD_PORT_NUMBER, u, hostname).
Proof.
  intros H. pose proof (strtol_nothing _ H) as Hz. unfold parse_port_at.
  destruct (strtol (skipn (S p) hostname)) as [v n]. simpl in Hz. subst v.
  reflexivity.
Qed.

Lemma create_fails_of_parse uninit url flags :
  fst (parse uninit url zero_handle flags) <> CURLURLE_OK ->
  fst (create uninit url flags) <> CURLURLE_OK.
Proof.
  unfold create, curl_url, parse.
  destruct (parseurl _ _ _ _ _ _ _ _) as [result u]. simpl.
  destruct (failed result || has_flag flags CURLURL_VERIFY_ONLY); simpl; congruence.
Qed.

End ParsePort.

(** ** Two URLs the parser refuses *)

Section Refused.

Variable Curl_builtin_scheme : cstring -> option Z.
Variable Curl_parse_login_details :
  cstring -> option (option cstring * option cstring * option cstring).
Variable Curl_dedotdotify : cstring -> cstring.
Variable WIN32 : bool.

Let parse := parseurl Curl_builtin_scheme Curl_parse_login_details
               Curl_dedotdotify WIN32.
Let rest := parse_rest Curl_parse_login_details Curl_dedotdotify.

(** When the login is absent and [parse_port] fails, so does the whole
    parse, with the same code. *)
Lemma parse_rest_port_failure u hostname path0 flags e :
  strchr hostname "@" = None ->
  failed e = true ->
  (forall u', fst (fst (parse_port u' hostname)) = e) ->
  fst (rest u hostname path0 flags) = e.
Proof.
  intros Hat He Hport. unfold rest, parse_rest.
  destruct (split_query_fragment path0) as [[p q] f].
  destruct (fix_path Curl_dedotdotify p q f flags) as [[p' q'] f'].
  unfold parse_hostname_login. rewrite Hat. simpl.
  specialize (Hport (set_path u (Some p'))).
  destruct (parse_port _ hostname) as [[result u'] h']. simpl in Hport.
  subst result. now rewrite He.
Qed.

Lemma parse_generic_known url flags schemep hostname path0 :
  sscanf_url url = (4%Z, schemep, hostname, path0) ->
  parse_generic Curl_builtin_scheme url flags
  = inl CURLURLE_UNSUPPORTED_SCHEME
  \/ parse_generic Curl_builtin_scheme url flags
     = inr (schemep, hostname, path0).
Proof.
  intros Hscan. unfold parse_generic. rewrite Hscan. simpl.
  destruct (Curl_builtin_scheme schemep); [now right|].
  destruct (negb (has_flag flags CURLURL_NON_SUPPORT_SCHEME)); [now left|now right].
Qed.

Lemma parse_refused_port uninit url flags schemep hostname path0 e :
  Ascii.eqb (char_at url 0) ":" = false ->
  check_scheme 16 url && strncasecompare url (cs "file:") 5 = false ->
  sscanf_url url = (4%Z, schemep, hostname, path0) ->
  strchr hostname "@" = None ->
  failed e = true ->
  (forall u', fst (fst (parse_port u' hostname)) = e) ->
  fst (parse uninit url zero_handle flags) <> CURLURLE_OK.
Proof.
  intros Hcolon Hfile Hscan Hat He Hport. unfold parse, parseurl.
  rewrite Hcolon, Hfile.
  destruct (parse_generic_known url flags _ _ _ Hscan) as [-> | ->].
  - simpl. discriminate.
  - fold rest. rewrite (parse_rest_port_failure _ _ _ _ e Hat He Hport).
    intros ->. discriminate.
Qed.

Lemma refused_empty_port uninit flags :
  fst (parse uninit (cs "http://host:/path") zero_handle flags) <> CURLURLE_OK
  /\ fst (parse uninit (cs "http://host:") zero_handle flags) <> CURLURLE_OK.
Proof.
  split.
  - apply (parse_refused_port uninit _ flags (cs "http") (cs "host:") (cs "/path")
             CURLURLE_BAD_PORT_NUMBER); reflexivity.
  - unfold parse, parseurl.
    change (Ascii.eqb (char_at (cs "http://host:") 0) ":") with false.
    change (check_scheme 16 (cs "http://host:")
            && strncasecompare (cs "http://host:") (cs "file:") 5) with false.
    cbv iota. unfold parse_generic.
    change (sscanf_url (cs "http://host:")) with (3%Z, cs "http", cs "host:", @nil ascii).
    cbv iota beta. change (3 =? 2)%Z with false. change (3 <? 3)%Z with false.
    cbv iota.
    assert (R : forall u, fst (rest u (cs "host:") [] flags) = CURLURLE_BAD_PORT_NUMBER).
    { intros u. apply parse_rest_port_failure; reflexivity. }
    destruct (Curl_builtin_scheme (cs "http")).
    + fold rest. rewrite R. discriminate.
    + destruct (negb (has_flag flags CURLURL_NON_SUPPORT_SCHEME)).
      * simpl. discriminate.
      * fold rest. rewrite R. discriminate.
Qed.

Lemma refused_ipv6_without_port uninit flags :
  fst (parse uninit (cs "http://[::1]/") zero_handle flags) <> CURLURLE_OK.
Proof.
  apply (parse_refused_port uninit _ flags (cs "http") (cs "[::1]") (cs "/")
           CURLURLE_MALFORMED_INPUT); reflexivity.
Qed.

End Refused.

(** C4.  A colon with no digits behind it is not tolerated: whatever the
    collaborators and the options, the parse of "http://host:/path" and of
    "http://host:" never succeeds, and with the reference collaborators
    and no options both end in the bad-port-number error.  In
    [parse_port] the range test on the value 0 comes before the branch
    that would drop the colon. *)
Theorem C4_colon_without_digits_refused :
  (forall dir login dedot win uninit flags,
      fst (parseurl dir login dedot win uninit (cs "http://host:/path")
             zero_handle flags) <> CURLURLE_OK
      /\ fst (parseurl dir login dedot win uninit (cs "http://host:")
                zero_handle flags) <> CURLURLE_OK)
  /\ ref_curl_url [] (cs "http://host:/path") 0 = (CURLURLE_BAD_PORT_NUMBER, None)
  /\ ref_curl_url [] (cs "http://host:") 0 = (CURLURLE_BAD_PORT_NUMBER, None).
Proof.
  split; [|split; reflexivity].
  intros. apply refused_empty_port.
Qed.

(** C5.  "http://[::1]:8080/" is parsed, with host "[::1]" and port
    "8080"; "http://[::1]/", the same URL without a port, is refused:
    whatever the collaborators and the options the parse never succeeds,
    and with the reference collaborators and no options it ends in the
    malformed-input error. *)
Theorem C5_bracketed_ipv6_needs_port :
  (exists h, ref_curl_url [] (cs "http://[::1]:8080/") 0 = (CURLURLE_OK, Some h)
             /\ host h = Some (cs "[::1]") /\ port h = Some (cs "8080"))
  /\ (forall dir login dedot win uninit flags,
         fst (parseurl dir login dedot win uninit (cs "http://[::1]/")
                zero_handle flags) <> CURLURLE_OK)
  /\ ref_curl_url [] (cs "http://[::1]/") 0 = (CURLURLE_MALFORMED_INPUT, None).
Proof.
  split; [|split].
  - eexists. split; [reflexivity|]. split; reflexivity.
  - intros. apply refused_ipv6_without_port.
  - reflexivity.
Qed.

(** ** Setting the URL part *)

Section SetUrl.

Variable Curl_builtin_scheme : cstring -> option Z.
Variable Curl_parse_login_details :
  cstring -> option (option cstring * option cstring * option cstring).
Variable Curl_dedotdotify : cstring -> cstring.
Variable WIN32 : bool.
Variable printf_null : cstring.
Variable uninit : cstring.

Let create := curl_url Curl_builtin_scheme Curl_parse_login_details
                Curl_dedotdotify WIN32 uninit.
Let set := curl_url_set Curl_builtin_scheme Curl_parse_login_details
             Curl_dedotdotify WIN32 printf_null uninit.
Let source := url_to_parse Curl_builtin_scheme printf_null.

Lemma set_url_unfold u part flags :
  set u CURLUPART_URL part flags
  = match source u part flags with
    | inl e => Some (e, u)
    | inr src => replace_handle u (create src flags)
    end.
Proof.
  unfold set, curl_url_set, source, url_to_parse.
  destruct (Curl_is_absolute_url part); [reflexivity|].
  destruct (curl_url_get _ _ u CURLUPART_URL flags); reflexivity.
Qed.

(** [curl_url] hands out a handle exactly when the parse succeeded and the
    call was not one for verification only. *)
Lemma create_handle src flags :
  match create src flags with
  | (result, Some _) =>
      failed result = false /\ has_flag flags CURLURL_VERIFY_ONLY = false
  | (result, None) =>
      failed result = true \/ has_flag flags CURLURL_VERIFY_ONLY = true
  end.
Proof.
  unfold create, curl_url.
  destruct (parseurl _ _ _ _ _ _ _ _) as [result h].
  destruct (failed result) eqn:Hr; simpl.
  - rewrite Hr. now left.
  - destruct (has_flag flags CURLURL_VERIFY_ONLY); simpl; [now right|].
    rewrite Hr. now split.
Qed.

(** The result of extracting the old URL is an error code when it fails. *)
Lemma get_url_error u flags e :
  curl_url_get Curl_builtin_scheme printf_null u CURLUPART_URL flags = inl e ->
  failed e = true.
Proof.
  unfold curl_url_get. destruct (host u); [|now intros [= <-]].
  destruct (scheme u).
  - discriminate.
  - destruct (has_flag flags CURLURL_DEFAULT_SCHEME); [discriminate|].
    now intros [= <-].
Qed.

Lemma set_url_failure u part flags e u' :
  set u CURLUPART_URL part flags = Some (e, u') ->
  failed e = true -> u' = u.
Proof.
  rewrite set_url_unfold.
  destruct (source u part flags) as [e0|src].
  - now intros [= _ <-].
  - unfold replace_handle. destruct (create src flags) as [result h2].
    destruct (failed result) eqn:Hr.
    + now intros [= _ <-].
    + destruct h2; [|discriminate]. intros [= <- <-] He. congruence.
Qed.

Lemma set_url_success u part flags e u' :
  set u CURLUPART_URL part flags = Some (e, u') ->
  failed e = false ->
  exists src, source u part flags = inr src
              /\ create src flags = (CURLURLE_OK, Some u').
Proof.
  rewrite set_url_unfold.
  destruct (source u part flags) as [e0|src] eqn:Hsrc.
  - intros [= <- <-] He.
    unfold source, url_to_parse in Hsrc.
    destruct (Curl_is_absolute_url part); [discriminate|].
    destruct (curl_url_get _ _ u CURLUPART_URL flags) eqn:Hg; [|discriminate].
    injection Hsrc as <-. apply get_url_error in Hg. congruence.
  - unfold replace_handle. destruct (create src flags) as [result h2] eqn:Hc.
    destruct (failed result) eqn:Hr.
    + intros [= <- <-] He. congruence.
    + destruct h2; [|discriminate]. intros [= <- <-] _.
      exists src. split; [reflexivity|].
      destruct result; try discriminate. exact Hc.
Qed.

Lemma set_url_returns u part flags :
  has_flag flags CURLURL_VERIFY_ONLY = false ->
  set u CURLUPART_URL part flags <> None.
Proof.
  intros Hv. rewrite set_url_unfold.
  destruct (source u part flags) as [e0|src]; [discriminate|].
  unfold replace_handle.
  pose proof (create_handle src flags) as H.
  destruct (create src flags) as [result [h2|]].
  - destruct (failed result); discriminate.
  - destruct H as [-> | H]; [discriminate|congruence].
Qed.

(** The call has no result exactly when the verify-only option is passed
    along and the string handed to the parser parses. *)
Lemma set_url_no_result u part flags :
  set u CURLUPART_URL part flags = None
  <-> has_flag flags CURLURL_VERIFY_ONLY = true
      /\ exists src,
           source u part flags = inr src
           /\ fst (create src flags) = CURLURLE_OK.
Proof.
  rewrite set_url_unfold.
  destruct (source u part flags) as [e0|src].
  { split; [discriminate|]. intros (_ & src & H & _). discriminate. }
  pose proof (create_handle src flags) as Hh.
  assert (Hv : has_flag flags CURLURL_VERIFY_ONLY = true ->
               snd (create src flags) = None).
  { unfold create, curl_url.
    destruct (parseurl _ _ _ _ uninit src zero_handle flags) as [r0 h0].
    intros ->. now rewrite orb_true_r. }
  destruct (create src flags) as [result h2] eqn:Hc.
  unfold replace_handle. split.
  - destruct (failed result) eqn:Hr; [discriminate|].
    destruct h2 as [h2|]; [discriminate|]. intros _.
    destruct Hh as [Hh|Hh]; [congruence|]. split; [exact Hh|].
    exists src. split; [reflexivity|]. rewrite Hc. simpl.
    destruct result; try discriminate. reflexivity.
  - intros (HV & s0 & E0 & E). injection E0 as <-.
    rewrite Hc in E. simpl in E. subst result.
    specialize (Hv HV). simpl in Hv. subst h2. reflexivity.
Qed.

End SetUrl.

(** C2, as the code behaves.  Setting the URL part passes its flags on to
    [curl_url].  With the verify-only option among them, [curl_url] returns
    OK for a string that parses and hands out no handle; the set then
    releases the fields of its handle and copies from the NULL pointer, so
    that the call has no result: it neither fails with the handle untouched
    nor succeeds with the handle replaced.  This is the only way to no
    result.  Whenever the call does return, an error leaves the handle as
    it was, every field untouched, and OK leaves the handle freshly parsed
    from the value (or from the value resolved against the URL of the old
    handle). *)
Theorem C2_set_url_lost_under_verify_only :
  forall dir login dedot win nul uninit u v flags,
    (curl_url_set dir login dedot win nul uninit u CURLUPART_URL v flags
     = None
     <-> has_flag flags CURLURL_VERIFY_ONLY = true
         /\ exists src,
              url_to_parse dir nul u v flags = inr src
              /\ fst (curl_url dir login dedot win uninit src flags)
                 = CURLURLE_OK)
    /\ (forall e u',
           curl_url_set dir login dedot win nul uninit u CURLUPART_URL v flags
           = Some (e, u') ->
           failed e = true -> u' = u)
    /\ (forall e u',
           curl_url_set dir login dedot win nul uninit u CURLUPART_URL v flags
           = Some (e, u') ->
           failed e = false ->
           exists src,
             url_to_parse dir nul u v flags = inr src
             /\ curl_url dir login dedot win uninit src flags
                = (CURLURLE_OK, Some u')).
Proof.
  intros. split; [|split].
  - apply set_url_no_result.
  - intros e u'. apply set_url_failure.
  - intros e u'. apply set_url_success.
Qed.

(** The failing call: the handle of "http://a/b/c", the value "http://a/d"
    and the verify-only option. *)
Lemma C2_set_url_lost_under_verify_only_witness :
  has_flag CURLURL_VERIFY_ONLY CURLURL_VERIFY_ONLY = true
  /\ url_to_parse builtin_scheme (cs "(nil)") handle_abc (cs "http://a/d")
       CURLURL_VERIFY_ONLY = inr (cs "http://a/d")
  /\ fst (ref_curl_url [] (cs "http://a/d") CURLURL_VERIFY_ONLY)
     = CURLURLE_OK
  /\ ref_curl_url_set [] handle_abc CURLUPART_URL (cs "http://a/d")
       CURLURL_VERIFY_ONLY = None.
Proof.
  split; [reflexivity|]. split; [reflexivity|]. split; [reflexivity|].
  apply (proj2 (proj1 (C2_set_url_lost_under_verify_only builtin_scheme
                         parse_login_details dedotdotify false (cs "(nil)")
                         [] handle_abc (cs "http://a/d")
                         CURLURL_VERIFY_ONLY))).
  split; [reflexivity|]. exists (cs "http://a/d"). split; reflexivity.
Defined.

(** Without the verify-only option the set returns: an error with the
    handle untouched, or OK with the handle replaced. *)
Lemma set_url_examples :
  ref_curl_url_set [] handle_abc CURLUPART_URL (cs "http://[::1]/") 0
  = Some (CURLURLE_MALFORMED_INPUT, handle_abc)
  /\ ref_curl_url_set [] handle_abc CURLUPART_URL (cs "../d") 0
     = Some (CURLURLE_OK, handle_ad).
Proof. split; reflexivity. Qed.

(** With the verify-only option passed along to [curl_url], a value that
    parses leaves no handle to copy from: the call has no result. *)
Lemma set_url_verify_only_has_no_result :
  ref_curl_url_set [] handle_abc CURLUPART_URL (cs "http://a/d")
    CURLURL_VERIFY_ONLY = None.
Proof. reflexivity. Qed.

(** ** The reference normalizer keeps the leading slash *)

Lemma has_prefix_true p :
  forall s, has_prefix p s = true -> s = p ++ skipn (length p) s.
Proof.
  induction p as [|a p IH]; intros s H; simpl in *.
  - reflexivity.
  - destruct s as [|b s]; [discriminate|].
    apply andb_prop in H as [Hab Hp].
    apply Ascii.eqb_eq in Hab. subst b. simpl. f_equal. now apply IH.
Qed.

Lemma has_prefix_app p s : has_prefix p (p ++ s) = true.
Proof.
  induction p as [|a p IH]; simpl; [reflexivity|].
  now rewrite Ascii.eqb_refl, IH.
Qed.

Lemma cstring_eqb_eq a : forall b, cstring_eqb a b = true -> a = b.
Proof.
  induction a as [|x a IH]; intros [|y b] H; simpl in H; try discriminate.
  - reflexivity.
  - apply andb_prop in H as [Hxy Hab]. apply Ascii.eqb_eq in Hxy.
    subst y. f_equal. now apply IH.
Qed.

Lemma slash_led_prefix a b :
  slash_led_or_empty (a ++ b) -> slash_led_or_empty a.
Proof. destruct a; simpl; auto. Qed.

Lemma slash_led_app a b :
  slash_led_or_empty a -> slash_led_or_empty b -> slash_led_or_empty (a ++ b).
Proof. destruct a; simpl; auto. Qed.

Lemma drop_last_segment_prefix rev_out :
  exists t, rev rev_out = rev (drop_last_segment rev_out) ++ t.
Proof.
  induction rev_out as [|c r IH]; simpl.
  - now exists [].
  - destruct (Ascii.eqb c "/").
    + now exists [c].
    + destruct IH as [t Ht]. exists (t ++ [c]).
      rewrite Ht. now rewrite app_assoc.
Qed.

Lemma move_segment_spec input :
  forall rev_out rev_out' rest,
    move_segment false rev_out input = (rev_out', rest) ->
    (exists seg, rev_out' = seg ++ rev_out)
    /\ slash_led_or_empty rest
    /\ length rest <= length input.
Proof.
  induction input as [|c r IH]; intros rev_out rev_out' rest H; simpl in H.
  - injection H as <- <-. split; [now exists []|]. split; simpl; auto.
  - destruct (Ascii.eqb_spec c "/") as [->|Hc]; simpl in H.
    + injection H as <- <-. split; [now exists []|]. split; simpl; auto.
    + apply IH in H as ((seg & ->) & Hs & Hl).
      split; [exists (seg ++ [c]); now rewrite <- app_assoc|].
      split; [assumption|]. simpl. lia.
Qed.

Lemma remove_dot_segments_nil fuel rev_out :
  remove_dot_segments fuel rev_out [] = rev rev_out.
Proof. now destruct fuel. Qed.

Lemma remove_dot_segments_keeps_slash fuel :
  forall rev_out r,
    length ("/" :: r) < fuel ->
    slash_led_or_empty (rev rev_out) ->
    char_at (remove_dot_segments fuel rev_out ("/" :: r)) 0 = "/".
Proof.
  induction fuel as [|fuel IH]; intros rev_out r Hfuel Hout; [simpl in Hfuel; lia|].
  cbn [remove_dot_segments].
  change (has_prefix (cs "../") ("/" :: r)) with false.
  change (has_prefix (cs "./") ("/" :: r)) with false.
  cbv iota.
  destruct (has_prefix (cs "/./") ("/" :: r)) eqn:H1.
  { apply has_prefix_true in H1. simpl in H1. injection H1 as H1.
    rewrite H1. simpl (skipn 2 _).
    destruct r as [|x [|y r']]; try discriminate.
    simpl. simpl in H1. injection H1 as -> ->.
    apply IH; [simpl in *; lia | assumption]. }
  destruct (cstring_eqb ("/" :: r) (cs "/.")) eqn:H2.
  { apply cstring_eqb_eq in H2. injection H2 as ->.
    apply IH; [simpl in *; lia | assumption]. }
  destruct (has_prefix (cs "/../") ("/" :: r)) eqn:H3.
  { apply has_prefix_true in H3. simpl in H3. injection H3 as H3.
    destruct r as [|x [|y [|z r']]]; try discriminate.
    simpl in H3. injection H3 as -> -> ->. simpl (skipn 3 _).
    apply IH; [simpl in *; lia |].
    destruct (drop_last_segment_prefix rev_out) as [t Ht].
    rewrite Ht in Hout. now apply slash_led_prefix in Hout. }
  destruct (cstring_eqb ("/" :: r) (cs "/..")) eqn:H4.
  { apply cstring_eqb_eq in H4. injection H4 as ->.
    apply IH; [simpl in *; lia |].
    destruct (drop_last_segment_prefix rev_out) as [t Ht].
    rewrite Ht in Hout. now apply slash_led_prefix in Hout. }
  change (cstring_eqb ("/" :: r) (cs ".") || cstring_eqb ("/" :: r) (cs ".."))
    with false.
  cbv iota.
  cbn [move_segment]. change (Ascii.eqb "/" "/" && negb true) with false.
  cbv iota.
  destruct (move_segment false ("/" :: rev_out) r) as [rev_out' rest] eqn:Hm.
  apply move_segment_spec in Hm as ((seg & ->) & Hs & Hl).
  assert (Hled : slash_led_or_empty (rev (seg ++ "/" :: rev_out))
                 /\ rev (seg ++ "/" :: rev_out) <> []).
  { rewrite rev_app_distr. simpl. rewrite <- app_assoc. split.
    - apply slash_led_app; [assumption|reflexivity].
    - destruct (rev rev_out); discriminate. }
  destruct rest as [|c rest].
  - rewrite remove_dot_segments_nil.
    destruct Hled as [Hled Hne].
    destruct (rev (seg ++ "/" :: rev_out)); [contradiction|exact Hled].
  - simpl in Hs. subst c.
    apply IH; [simpl in *; lia | apply Hled].
Qed.

Lemma dedotdotify_keeps_slash p :
  char_at p 0 = "/" -> char_at (dedotdotify p) 0 = "/".
Proof.
  destruct p as [|c r]; [discriminate|]. unfold char_at at 1. simpl.
  intros ->. apply remove_dot_segments_keeps_slash; simpl; auto.
Qed.

(** ** What a successful parse stores *)

Section ParseRest.

Variable Curl_builtin_scheme : cstring -> option Z.
Variable Curl_parse_login_details :
  cstring -> option (option cstring * option cstring * option cstring).
Variable Curl_dedotdotify : cstring -> cstring.
Variable WIN32 : bool.

Let parse := parseurl Curl_builtin_scheme Curl_parse_login_details
               Curl_dedotdotify WIN32.
Let rest := parse_rest Curl_parse_login_details Curl_dedotdotify.
Let login := parse_hostname_login Curl_parse_login_details.

Lemma failed_false result : failed result = false -> result = CURLURLE_OK.
Proof. destruct result; simpl; congruence. Qed.

(** The handle a successful [parse_rest] returns, stage by stage. *)
Lemma parse_rest_ok u hostname path0 flags h :
  rest u hostname path0 flags = (CURLURLE_OK, h) ->
  exists p q f p' q' f' u1 hn1 u2 hn2,
    split_query_fragment path0 = (p, q, f)
    /\ fix_path Curl_dedotdotify p q f flags = (p', q', f')
    /\ login (set_path u (Some p')) hostname flags = (CURLURLE_OK, u1, hn1)
    /\ parse_port u1 hn1 = (CURLURLE_OK, u2, hn2)
    /\ hostname_check hn2 flags = CURLURLE_OK
    /\ h = set_scratch
             (let u3 := set_host u2 (Some hn2) in
              let u4 := match q' with
                        | Some (_ :: _) => set_query u3 q'
                        | _ => u3
                        end in
              match f' with
              | Some (_ :: _) => set_fragment u4 f'
              | _ => u4
              end) false.
Proof.
  unfold rest, parse_rest, login.
  destruct (split_query_fragment path0) as [[p q] f].
  destruct (fix_path Curl_dedotdotify p q f flags) as [[p' q'] f'] eqn:Hfix.
  destruct (parse_hostname_login _ _ hostname flags) as [[r1 u1] hn1] eqn:Hlogin.
  destruct (failed r1) eqn:F1.
  { intros [= -> _]. discriminate. }
  destruct (parse_port u1 hn1) as [[r2 u2] hn2] eqn:Hport.
  destruct (failed r2) eqn:F2.
  { intros [= -> _]. discriminate. }
  destruct (failed (hostname_check hn2 flags)) eqn:F3.
  { intros [= E _]. rewrite E in F3. discriminate. }
  intros [= <-].
  apply failed_false in F1, F2, F3. subst r1 r2.
  exists p, q, f, p', q', f', u1, hn1, u2, hn2. repeat split; auto.
Qed.

Lemma login_keeps_path u hostname flags r u' hn :
  login u hostname flags = (r, u', hn) -> path u' = path u.
Proof.
  unfold login, parse_hostname_login.
  destruct (strchr hostname "@"); [|now intros [= _ <- _]].
  destruct (Curl_parse_login_details _) as [[[us pw] op]|]; [|now intros [= _ <- _]].
  destruct us; [destruct (has_flag flags CURLURL_DISALLOW_USER)|];
    destruct pw; destruct op; now intros [= _ <- _].
Qed.

Lemma parse_port_at_keeps_path u hostname p r u' hn :
  parse_port_at u hostname p = (r, u', hn) -> path u' = path u.
Proof.
  unfold parse_port_at. destruct p as [p|]; [|now intros [= _ <- _]].
  destruct (strtol _) as [v n].
  destruct ((v <=? 0)%Z || (v >? 65535)%Z); [now intros [= _ <- _]|].
  destruct (negb (Ascii.eqb _ NUL)); [now intros [= _ <- _]|].
  destruct (negb (n =? 0)); now intros [= _ <- _].
Qed.

Lemma parse_port_keeps_path u hostname r u' hn :
  parse_port u hostname = (r, u', hn) -> path u' = path u.
Proof.
  unfold parse_port.
  destruct (sscanf_bracket hostname) as [[c len]|].
  - destruct (Ascii.eqb c "]").
    + destruct (negb (Ascii.eqb _ ":")); [now intros [= _ <- _]|].
      apply parse_port_at_keeps_path.
    + apply parse_port_at_keeps_path.
  - apply parse_port_at_keeps_path.
Qed.

Lemma parse_rest_path u hostname path0 flags h :
  rest u hostname path0 flags = (CURLURLE_OK, h) ->
  path h
  = Some (fst (fst (let '(p, q, f) := split_query_fragment path0 in
                    fix_path Curl_dedotdotify p q f flags))).
Proof.
  intros H. apply parse_rest_ok in H
    as (p & q & f & p' & q' & f' & u1 & hn1 & u2 & hn2 & Hs & Hf & Hl & Hp & _ & ->).
  rewrite Hs, Hf. simpl.
  apply login_keeps_path in Hl. apply parse_port_keeps_path in Hp.
  transitivity (path u2).
  - destruct q' as [[|]|]; destruct f' as [[|]|]; reflexivity.
  - now rewrite Hp, Hl.
Qed.

Lemma fix_path_path p q f flags :
  has_flag flags CURLURL_PATH_AS_IS = false ->
  fst (fst (fix_path Curl_dedotdotify p q f flags))
  = if slash_inserted p then "/" :: p
    else Curl_dedotdotify (slash_prefixed p).
Proof.
  intros Hf. unfold fix_path, slash_inserted, slash_prefixed. rewrite Hf.
  destruct p as [|c p]; [reflexivity|].
  destruct (Ascii.eqb c "/"); simpl; [reflexivity|].
  destruct q; [reflexivity|]. destruct f; reflexivity.
Qed.

Lemma parse_file_error url e :
  parse_file WIN32 url = inl e -> e = CURLURLE_MALFORMED_INPUT.
Proof.
  clear parse rest login. unfold parse_file. destruct (sscanf_file url) as [p|]; [|now intros [= <-]].
  destruct (Ascii.eqb (char_at p 0) "/" && Ascii.eqb (char_at p 1) "/").
  - destruct (negb (Ascii.eqb (char_at (skipn 2 p) 0) "/")
              && negb (STARTS_WITH_URL_DRIVE_PREFIX (skipn 2 p))).
    + destruct (negb (checkprefix (cs "localhost/") (skipn 2 p))
                && negb (checkprefix (cs "127.0.0.1/") (skipn 2 p)));
        [now intros [= <-]|].
      destruct WIN32.
      * destruct (Ascii.eqb _ "/" && _); discriminate.
      * destruct (_ || _); [now intros [= <-]|discriminate].
    + destruct WIN32.
      * destruct (Ascii.eqb _ "/" && _); discriminate.
      * destruct (_ || _); [now intros [= <-]|discriminate].
  - destruct WIN32.
    + destruct (Ascii.eqb _ "/" && _); discriminate.
    + destruct (_ || _); [now intros [= <-]|discriminate].
Qed.

Lemma parse_generic_error url flags e :
  parse_generic Curl_builtin_scheme url flags = inl e ->
  e = CURLURLE_MALFORMED_INPUT \/ e = CURLURLE_UNSUPPORTED_SCHEME.
Proof.
  unfold parse_generic. destruct (sscanf_url url) as [[[rc sb] hn] p].
  destruct (rc =? 2)%Z; [intros [= <-]; now left|].
  destruct (rc <? 3)%Z.
  - destruct (negb (has_flag flags CURLURL_DEFAULT_SCHEME));
      [intros [= <-]; now left|].
    destruct (sscanf_noscheme url) as [[rc2 hn2] p2].
    destruct (rc2 <? 1)%Z; [intros [= <-]; now left|].
    destruct (Curl_builtin_scheme DEFAULT_SCHEME); [discriminate|].
    destruct (negb (has_flag flags CURLURL_NON_SUPPORT_SCHEME));
      [intros [= <-]; now right|discriminate].
  - destruct (Curl_builtin_scheme sb); [discriminate|].
    destruct (negb (has_flag flags CURLURL_NON_SUPPORT_SCHEME));
      [intros [= <-]; now right|discriminate].
Qed.

Lemma parse_path uninit url u flags h :
  has_flag flags CURLURL_PATH_AS_IS = false ->
  parse uninit url u flags = (CURLURLE_OK, h) ->
  exists p0,
    url_path_text Curl_builtin_scheme WIN32 url flags = Some p0
    /\ path h = Some (if slash_inserted p0 then "/" :: p0
                      else Curl_dedotdotify (slash_prefixed p0)).
Proof.
  intros Hf. unfold parse, parseurl, url_path_text.
  destruct (Ascii.eqb (char_at url 0) ":"); [discriminate|].
  destruct (check_scheme 16 url && strncasecompare url (cs "file:") 5).
  - destruct (parse_file WIN32 url) as [e|p] eqn:Hpf.
    { apply parse_file_error in Hpf. subst e. discriminate. }
    intros H. apply parse_rest_path in H.
    exists (fst (fst (split_query_fragment p))). split; [reflexivity|].
    rewrite H. destruct (split_query_fragment p) as [[p1 q1] f1]. simpl.
    now rewrite fix_path_path.
  - destruct (parse_generic _ url flags) as [e|[[s hn] p]] eqn:Hpg.
    { apply parse_generic_error in Hpg. destruct Hpg; subst e; discriminate. }
    intros H. apply parse_rest_path in H.
    exists (fst (fst (split_query_fragment p))). split; [reflexivity|].
    rewrite H. destruct (split_query_fragment p) as [[p1 q1] f1]. simpl.
    now rewrite fix_path_path.
Qed.

End ParseRest.

(** C6, as the code behaves.  The dot segments are removed only in the
    branch that does not insert the '/': a path text that does not start
    with '/' gets the '/' and is stored with its dot segments.  The comment
    in front of that branch takes a '?' or a '#' to be the only bytes other
    than '/' that can start a path.  Two URLs show it.  In
    "http://h#a/../c?b" the '?' is cut first, which leaves the path text
    "#a/../c"; it is stored as "/#a/../c", where the normalization of
    "/#a/../c" is "/c", and the byte that ends the moved path falls on the
    first byte of the query, which is lost with it.  In "file:a/../b", the
    example of the claim, the path text "a/../b" is stored as "/a/../b",
    where the normalization of "/a/../b" is "/b"; the host name area of the
    scratch buffer, which the file: branch never writes, is taken empty,
    and whatever it holds a parse that succeeds stores "/a/../b".  In
    general, after a successful parse without the keep-path-as-is option,
    the stored path is the path text with a '/' put in front when the text
    does not start with '/', and the normalization of the path text (of
    "/" for the empty one) when it does. *)
Theorem C6_inserted_slash_skips_normalization :
  (forall uninit,
      ref_parseurl uninit (cs "http://h#a/../c?b") zero_handle 0
      = (CURLURLE_OK,
         mkURL (Some (cs "http")) None None None (Some (cs "h")) None
           (Some (cs "/#a/../c")) None None false 0))
  /\ dedotdotify (slash_prefixed (cs "#a/../c")) = cs "/c"
  /\ ref_parseurl [] (cs "file:a/../b") zero_handle 0
     = (CURLURLE_OK,
        mkURL None None None None (Some []) None (Some (cs "/a/../b"))
          None None false 0)
  /\ dedotdotify (slash_prefixed (cs "a/../b")) = cs "/b"
  /\ (forall uninit h,
         ref_parseurl uninit (cs "file:a/../b") zero_handle 0
         = (CURLURLE_OK, h) ->
         path h = Some (cs "/a/../b"))
  /\ (forall dir login dedot win uninit url u flags h,
         has_flag flags CURLURL_PATH_AS_IS = false ->
         parseurl dir login dedot win uninit url u flags = (CURLURLE_OK, h) ->
         exists p0,
           url_path_text dir win url flags = Some p0
           /\ path h = Some (if slash_inserted p0 then "/" :: p0
                             else dedot (slash_prefixed p0))).
Proof.
  split; [intros uninit; reflexivity|]. split; [reflexivity|].
  split; [reflexivity|]. split; [reflexivity|]. split.
  - intros uninit h H.
    destruct (parse_path builtin_scheme parse_login_details dedotdotify false
                uninit _ _ 0%Z h eq_refl H) as (p0 & Ht & Hp).
    change (url_path_text builtin_scheme false (cs "file:a/../b") 0)
      with (Some (cs "a/../b")) in Ht.
    injection Ht as <-. exact Hp.
  - intros dir login dedot win uninit url u flags h. apply parse_path.
Qed.

(** The general part at the first of the two URLs. *)
Lemma C6_inserted_slash_skips_normalization_witness :
  has_flag 0 CURLURL_PATH_AS_IS = false
  /\ ref_parseurl [] (cs "http://h#a/../c?b") zero_handle 0
     = (CURLURLE_OK,
        mkURL (Some (cs "http")) None None None (Some (cs "h")) None
          (Some (cs "/#a/../c")) None None false 0)
  /\ exists p0,
       url_path_text builtin_scheme false (cs "http://h#a/../c?b") 0
       = Some p0
       /\ Some (cs "/#a/../c")
          = Some (if slash_inserted p0 then "/" :: p0
                  else dedotdotify (slash_prefixed p0)).
Proof.
  split; [reflexivity|]. split; [reflexivity|].
  exact (proj2 (proj2 (proj2 (proj2 (proj2
           C6_inserted_slash_skips_normalization))))
           builtin_scheme parse_login_details dedotdotify false []
           (cs "http://h#a/../c?b") zero_handle 0%Z _ eq_refl eq_refl).
Defined.

(** A path text that starts with '/' is normalized. *)
Lemma stored_path_example :
  ref_parseurl [] (cs "http://h/a/../b?q") zero_handle 0
  = (CURLURLE_OK,
     mkURL (Some (cs "http")) None None None (Some (cs "h")) None
       (Some (cs "/b")) (Some (cs "q")) None false 0).
Proof. reflexivity. Qed.

(** ** Scanning and searching composed strings *)

Lemma digit_char_digit d :
  (0 <= d < 10)%Z ->
  ISDIGIT (digit_char d) = true /\ digit_value (digit_char d) = d.
Proof.
  intros Hd.
  assert (C : (d = 0 \/ d = 1 \/ d = 2 \/ d = 3 \/ d = 4 \/ d = 5 \/ d = 6
               \/ d = 7 \/ d = 8 \/ d = 9)%Z) by lia.
  repeat (destruct C as [-> | C]; [split; reflexivity|]).
  subst d. split; reflexivity.
Qed.

Lemma digit_not_sign c :
  ISDIGIT c = true ->
  ISSPACE c = false /\ Ascii.eqb c "-" = false /\ Ascii.eqb c "+" = false.
Proof. destruct c as [[] [] [] [] [] [] [] []]; vm_compute; intuition congruence. Qed.

Lemma scan_digits_cons c a rest :
  ISDIGIT c = true ->
  scan_digits a (c :: rest)
  = let '(v, n) := scan_digits (a * 10 + digit_value c) rest in (v, S n).
Proof. intros H. simpl. now rewrite H. Qed.

(** The digits written for [z] are read back as [z]. *)
Lemma print_digits_spec fuel :
  forall k z acc,
    0 < k <= fuel -> (0 <= z < 10 ^ Z.of_nat k)%Z ->
    exists ds,
      print_digits fuel z acc = ds ++ acc
      /\ ds <> [] /\ forallb ISDIGIT ds = true /\ length ds <= k
      /\ forall a rest,
           scan_digits a (ds ++ rest)
           = let '(v, n) :=
               scan_digits (a * 10 ^ Z.of_nat (length ds) + z) rest in
             (v, length ds + n).
Proof.
  induction fuel as [|fuel IH]; intros k z acc Hk Hz; [lia|].
  cbn [print_digits].
  assert (Hd : (0 <= z mod 10 < 10)%Z) by (apply Z.mod_pos_bound; lia).
  destruct (digit_char_digit _ Hd) as [Hdig Hval].
  destruct (z / 10 =? 0)%Z eqn:Hq.
  - apply Z.eqb_eq in Hq.
    assert (Hzd : z = (z mod 10)%Z)
      by (rewrite (Z.div_mod z 10) at 1 by lia; lia).
    exists [digit_char (z mod 10)]. split; [reflexivity|].
    split; [discriminate|]. split; [cbn [forallb]; now rewrite Hdig|].
    split; [simpl; lia|]. intros a rest.
    cbn [app length]. rewrite (scan_digits_cons _ _ _ Hdig), Hval.
    replace (a * 10 ^ Z.of_nat 1 + z)%Z with (a * 10 + z mod 10)%Z
      by (change (10 ^ Z.of_nat 1)%Z with 10%Z; lia).
    reflexivity.
  - apply Z.eqb_neq in Hq.
    assert (Hk1 : 0 < k - 1 <= fuel).
    { destruct k as [|[|k]]; [lia| |lia].
      exfalso. apply Hq. apply Z.div_small.
      change (10 ^ Z.of_nat 1)%Z with 10%Z in Hz. lia. }
    assert (Hz1 : (0 <= z / 10 < 10 ^ Z.of_nat (k - 1))%Z).
    { split; [apply Z.div_pos; lia|].
      apply Z.div_lt_upper_bound; [lia|].
      replace (10 * 10 ^ Z.of_nat (k - 1))%Z with (10 ^ Z.of_nat k)%Z; [lia|].
      replace (Z.of_nat k) with (Z.succ (Z.of_nat (k - 1))) by lia.
      rewrite Z.pow_succ_r by lia. reflexivity. }
    destruct (IH (k - 1) (z / 10)%Z (digit_char (z mod 10) :: acc) Hk1 Hz1)
      as (ds & Hp & Hne & Hall & Hlen & Hscan).
    exists (ds ++ [digit_char (z mod 10)]). split.
    { rewrite Hp. now rewrite <- app_assoc. }
    split; [destruct ds; discriminate|].
    split; [rewrite forallb_app, Hall; cbn [forallb]; now rewrite Hdig|].
    split; [rewrite length_app; simpl; lia|].
    intros a rest. rewrite <- app_assoc. cbn [app].
    rewrite Hscan. rewrite (scan_digits_cons _ _ _ Hdig), Hval.
    rewrite length_app. cbn [length].
    replace ((a * 10 ^ Z.of_nat (length ds) + z / 10) * 10 + z mod 10)%Z
      with (a * 10 ^ Z.of_nat (length ds + 1) + z)%Z.
    + destruct (scan_digits _ rest) as [v n]. f_equal. lia.
    + replace (Z.of_nat (length ds + 1)) with (Z.succ (Z.of_nat (length ds)))
        by lia.
      rewrite Z.pow_succ_r by lia.
      rewrite (Z.div_mod z 10) at 1 by lia. ring.
Qed.

Lemma port_text_ok_range v :
  (0 < v <= 65535)%Z -> port_text_ok v = true.
Proof.
  intros Hv. unfold port_text_ok, snprintf_portbuf, print_ld.
  assert ((v <? 0)%Z = false) as -> by (apply Z.ltb_ge; lia).
  destruct (print_digits_spec 19 5 v [])
    as (ds & Hp & Hne & Hall & Hlen & Hscan); [lia|simpl; lia|].
  rewrite Hp, app_nil_r. rewrite firstn_all2 by lia.
  destruct ds as [|c ds']; [contradiction|].
  assert (Hc : ISDIGIT c = true).
  { change (forallb ISDIGIT (c :: ds'))
      with (ISDIGIT c && forallb ISDIGIT ds') in Hall.
    exact (proj1 (andb_prop _ _ Hall)). }
  set (ds := c :: ds') in *.
  destruct (digit_not_sign c Hc) as (Hsp & Hminus & Hplus).
  assert (Hstr : strtol ds = (v, length ds)).
  { unfold strtol.
    assert (count_space ds = 0) as -> by (unfold ds; simpl; now rewrite Hsp).
    cbn [skipn]. unfold ds at 1 2. unfold char_at. cbn [nth].
    rewrite Hminus, Hplus. cbn [skipn]. fold ds.
    specialize (Hscan 0%Z []). rewrite app_nil_r in Hscan. rewrite Hscan.
    cbn [scan_digits].
    assert (E : (length ds =? 0) = false) by (unfold ds; reflexivity).
    replace (length ds + 0 =? 0) with false
      by (rewrite Nat.add_0_r; now rewrite E).
    f_equal; [|lia].
    unfold LONG_MIN, LONG_MAX. lia. }
  rewrite Hall, Hstr. cbn [fst snd].
  now rewrite Z.eqb_refl, Nat.eqb_refl.
Qed.

Lemma scan_set_spec p :
  forall w s a b,
    scan_set p w s = (a, b) ->
    s = a ++ b /\ forallb p a = true /\ length a <= w.
Proof.
  induction w as [|w IH]; intros s a b H; simpl in H.
  - injection H as <- <-. simpl. auto.
  - destruct s as [|c r].
    + injection H as <- <-. simpl. auto with arith.
    + destruct (p c) eqn:Hc.
      * destruct (scan_set p w r) as [a' b'] eqn:Hs.
        injection H as <- <-. apply IH in Hs as (-> & Hall & Hlen).
        simpl. rewrite Hc, Hall. repeat split; auto. lia.
      * injection H as <- <-. simpl. auto with arith.
Qed.

Lemma scan_set_app p a :
  forall w b,
    forallb p a = true -> length a <= w -> stops p b ->
    scan_set p w (a ++ b) = (a, b).
Proof.
  induction a as [|c a IH]; intros w b Hall Hlen Hstop; simpl in *.
  - destruct w; [reflexivity|]. destruct b as [|d b]; [reflexivity|].
    simpl in Hstop. simpl. now rewrite Hstop.
  - apply andb_prop in Hall as [Hc Hall].
    destruct w as [|w]; [lia|]. simpl. rewrite Hc.
    rewrite IH; auto. lia.
Qed.

Lemma scan_all_app p a b :
  forallb p a = true -> stops p b -> scan_all p (a ++ b) = (a, b).
Proof.
  intros Hall Hstop. unfold scan_all. apply scan_set_app; auto.
  rewrite length_app. lia.
Qed.

Lemma scan_all_spec p s a b :
  scan_all p s = (a, b) -> s = a ++ b /\ forallb p a = true.
Proof.
  unfold scan_all. intros H. apply scan_set_spec in H. tauto.
Qed.

Lemma forallb_firstn (p : ascii -> bool) n s :
  forallb p s = true -> forallb p (firstn n s) = true.
Proof.
  revert n; induction s as [|c s IH]; intros [|n] H; simpl in *; auto.
  apply andb_prop in H as [Hc H]. rewrite Hc. simpl. now apply IH.
Qed.

Lemma forallb_skipn (p : ascii -> bool) n s :
  forallb p s = true -> forallb p (skipn n s) = true.
Proof.
  revert n; induction s as [|c s IH]; intros [|n] H; simpl in *; auto.
  apply andb_prop in H as [Hc H]. now apply IH.
Qed.

(** A byte the set refuses does not occur in a string of the set. *)
Lemma strchr_none_of_forallb (p : ascii -> bool) c s :
  forallb p s = true -> p c = false -> strchr s c = None.
Proof.
  intros Hall Hc. induction s as [|x s IH]; simpl in *; [reflexivity|].
  apply andb_prop in Hall as [Hx Hall].
  destruct (Ascii.eqb_spec x c) as [->|_]; [congruence|].
  now rewrite IH.
Qed.

Lemma strchr_app_here a c b :
  strchr a c = None -> strchr (a ++ c :: b) c = Some (length a).
Proof.
  induction a as [|x a IH]; simpl; intros H.
  - now rewrite Ascii.eqb_refl.
  - destruct (Ascii.eqb x c); [discriminate|].
    destruct (strchr a c); [discriminate|]. now rewrite IH.
Qed.

Lemma strchr_app_none a b c :
  strchr a c = None -> strchr b c = None -> strchr (a ++ b) c = None.
Proof.
  induction a as [|x a IH]; simpl; intros Ha Hb; [assumption|].
  destruct (Ascii.eqb x c); [discriminate|].
  destruct (strchr a c); [discriminate|]. now rewrite IH.
Qed.

Lemma strchr_split s c i :
  strchr s c = Some i ->
  s = firstn i s ++ c :: skipn (S i) s /\ strchr (firstn i s) c = None.
Proof.
  revert i; induction s as [|x s IH]; simpl; intros i H; [discriminate|].
  destruct (Ascii.eqb_spec x c) as [->|Hx].
  - injection H as <-. simpl. auto.
  - destruct (strchr s c) as [j|]; simpl in H; [|discriminate].
    injection H as <-. destruct (IH j eq_refl) as [Hs Hn]. simpl.
    split; [now f_equal|].
    destruct (Ascii.eqb_spec x c); [contradiction|]. now rewrite Hn.
Qed.

Lemma firstn_app_exact (a b : cstring) : firstn (length a) (a ++ b) = a.
Proof.
  rewrite firstn_app, Nat.sub_diag, firstn_all. simpl. apply app_nil_r.
Qed.

Lemma skipn_app_exact (a b : cstring) : skipn (length a) (a ++ b) = b.
Proof.
  rewrite skipn_app, Nat.sub_diag, skipn_all. reflexivity.
Qed.

Lemma skipn_app_cons (a : cstring) c b : skipn (S (length a)) (a ++ c :: b) = b.
Proof.
  replace (a ++ c :: b) with ((a ++ [c]) ++ b) by now rewrite <- app_assoc.
  replace (S (length a)) with (length (a ++ [c]))
    by (rewrite length_app; simpl; lia).
  apply skipn_app_exact.
Qed.

Lemma char_at_app_here (a : cstring) c b : char_at (a ++ c :: b) (length a) = c.
Proof. unfold char_at. rewrite app_nth2, Nat.sub_diag; auto. Qed.

Lemma char_at_end (s : cstring) : char_at s (length s) = NUL.
Proof. unfold char_at. apply nth_overflow. lia. Qed.

Lemma forallb_same (f g : ascii -> bool) s :
  (forall x, f x = g x) -> forallb f s = forallb g s.
Proof.
  intros H. induction s as [|c s IH]; simpl; [reflexivity|].
  now rewrite H, IH.
Qed.

(** ** Parsing the port again *)

Lemma parse_port_at_ok u hn p u' H :
  parse_port_at u hn (Some p) = (CURLURLE_OK, u', H) ->
  exists v,
    (0 < v <= 65535)%Z
    /\ u' = set_port (set_portnum u v) (Some (snprintf_portbuf v))
    /\ H = firstn p hn.
Proof.
  unfold parse_port_at.
  pose proof (strtol_nothing (skipn (S p) hn)) as Hz.
  destruct (strtol (skipn (S p) hn)) as [v n]. simpl in Hz.
  destruct ((v <=? 0)%Z || (v >? 65535)%Z) eqn:Hr; [discriminate|].
  apply orb_false_elim in Hr as [Hlo Hhi].
  apply Z.leb_gt in Hlo. rewrite Z.gtb_ltb in Hhi. apply Z.ltb_ge in Hhi.
  destruct (negb (Ascii.eqb _ NUL)); [discriminate|].
  destruct (n =? 0) eqn:Hn; simpl.
  - apply Nat.eqb_eq in Hn. specialize (Hz Hn). lia.
  - intros [= <- <-]. exists v. repeat split; auto; lia.
Qed.

Lemma parse_port_at_again u0 H v :
  (0 < v <= 65535)%Z ->
  parse_port_at u0 (H ++ ":" :: snprintf_portbuf v) (Some (length H))
  = (CURLURLE_OK, set_port (set_portnum u0 v) (Some (snprintf_portbuf v)), H).
Proof.
  intros Hv. unfold parse_port_at. rewrite skipn_app_cons.
  pose proof (port_text_ok_range v Hv) as Hok. unfold port_text_ok in Hok.
  destruct (snprintf_portbuf v) as [|c t] eqn:Ht; [discriminate|].
  apply andb_prop in Hok as [Hok Hlen]. apply andb_prop in Hok as [_ Hval].
  apply Z.eqb_eq in Hval. apply Nat.eqb_eq in Hlen.
  destruct (strtol (c :: t)) as [v' n]. simpl in Hval, Hlen. subst v' n.
  assert (((v <=? 0)%Z || (v >? 65535)%Z) = false) as ->.
  { apply orb_false_iff. split; [apply Z.leb_gt; lia|].
    rewrite Z.gtb_ltb. apply Z.ltb_ge. lia. }
  rewrite char_at_end, Ascii.eqb_refl.
  cbn [negb length Nat.eqb].
  now rewrite firstn_app_exact, Ht.
Qed.

Lemma scan_set_cut p X :
  forall w b,
    forallb p X = true -> stops p b ->
    scan_set p w (X ++ b) = (firstn w X, skipn w X ++ b).
Proof.
  induction X as [|c X IH]; intros w b Hall Hstop; simpl in *.
  - destruct w; simpl; [reflexivity|]. destruct b as [|d b]; [reflexivity|].
    simpl in Hstop. now rewrite Hstop.
  - apply andb_prop in Hall as [Hc Hall].
    destruct w as [|w]; [reflexivity|]. simpl. rewrite Hc.
    now rewrite IH.
Qed.

Lemma sscanf_bracket_local X c t :
  forallb v6set X = true -> v6set c = false ->
  sscanf_bracket ("[" :: X ++ c :: t)
  = match firstn 45 X with
    | [] => None
    | lit => Some (hd c (skipn 45 X), 1 + length lit + 1)
    end.
Proof.
  intros HX Hc. unfold sscanf_bracket.
  change (negb (Ascii.eqb "[" "[")) with false. cbv iota.
  fold v6set. rewrite (scan_set_cut v6set X 45 (c :: t) HX Hc).
  destruct (firstn 45 X) as [|a lit]; [reflexivity|].
  destruct (skipn 45 X); reflexivity.
Qed.

Lemma sscanf_bracket_some hn c len :
  sscanf_bracket hn = Some (c, len) ->
  exists lit r,
    hn = "[" :: lit ++ c :: r
    /\ lit <> [] /\ forallb v6set lit = true /\ length lit <= 45
    /\ len = length ("[" :: lit ++ [c]).
Proof.
  unfold sscanf_bracket. destruct hn as [|c0 r0]; [discriminate|].
  destruct (Ascii.eqb_spec c0 "[") as [->|]; cbn [negb]; [|discriminate].
  fold v6set. destruct (scan_set v6set 45 r0) as [lit r1] eqn:Hs.
  apply scan_set_spec in Hs as (-> & Hall & Hlen).
  destruct lit as [|a lit]; [discriminate|].
  destruct r1 as [|c1 r1]; [discriminate|].
  intros [= <- <-]. exists (a :: lit), r1. repeat split; auto.
  - discriminate.
  - simpl. rewrite length_app. simpl. lia.
Qed.

Lemma sscanf_bracket_build lit c r :
  lit <> [] -> forallb v6set lit = true -> length lit <= 45 ->
  v6set c = false ->
  sscanf_bracket ("[" :: lit ++ c :: r)
  = Some (c, length ("[" :: lit ++ [c])).
Proof.
  intros Hne Hall Hlen Hc. rewrite sscanf_bracket_local by assumption.
  rewrite firstn_all2 by assumption. rewrite skipn_all2 by assumption.
  destruct lit; [contradiction|]. simpl. rewrite length_app. simpl.
  repeat f_equal; lia.
Qed.

Lemma v6set_same c :
  in_set (cs "0123456789abcdefABCDEF::.") c = v6set c.
Proof. destruct c as [[] [] [] [] [] [] [] []]; reflexivity. Qed.

Lemma strspn_spec l s :
  forallb (in_set l) (firstn (strspn s l) s) = true
  /\ stops (in_set l) (skipn (strspn s l) s)
  /\ strspn s l <= length s.
Proof.
  induction s as [|x s IH]; simpl; [auto|].
  fold (in_set l x). destruct (in_set l x) eqn:Hx; simpl.
  - rewrite Hx. destruct IH as (H1 & H2 & H3). repeat split; auto. lia.
  - repeat split; auto. lia.
Qed.

Lemma hostname_check_bracket H' flags :
  hostname_check ("[" :: H') flags = CURLURLE_OK ->
  exists X c rest,
    H' = X ++ c :: rest /\ forallb v6set X = true /\ v6set c = false.
Proof.
  unfold hostname_check.
  change (Ascii.eqb (char_at ("[" :: H') 0) "[") with true. cbv iota.
  change (skipn 1 ("[" :: H')) with H'.
  set (l := cs "0123456789abcdefABCDEF::.").
  destruct (size_t_wrap (Z.of_nat (length ("[" :: H')) - 2)
            =? Z.of_nat (strspn H' l))%Z eqn:He; [|discriminate].
  intros _. apply Z.eqb_eq in He.
  destruct (strspn_spec l H') as (Hall & Hstop & Hle).
  assert (Hlt : strspn H' l < length H').
  { unfold size_t_wrap, SIZE_WIDTH in He. simpl length in He.
    destruct H' as [|a H'].
    - simpl in He. discriminate.
    - assert (Hm : (0 <= Z.of_nat (S (length (a :: H'))) - 2)%Z)
        by (simpl length; lia).
      pose proof (Z.mod_le _ (2 ^ 64)%Z Hm ltac:(lia)) as Hmod.
      simpl length in *. lia. }
  exists (firstn (strspn H' l) H').
  destruct (skipn (strspn H' l) H') as [|c rest] eqn:Hsk.
  - apply (f_equal (@length ascii)) in Hsk. rewrite length_skipn in Hsk.
    simpl in Hsk. lia.
  - exists c, rest. split.
    + rewrite <- Hsk. symmetry. apply firstn_skipn.
    + subst l. unfold stops in Hstop. rewrite v6set_same in Hstop.
      split; [|assumption].
      etransitivity; [|exact Hall]. apply forallb_same. intros x.
      symmetry. apply v6set_same.
Qed.

Lemma sscanf_bracket_tail H flags t1 t2 :
  hostname_check H flags = CURLURLE_OK ->
  sscanf_bracket (H ++ ":" :: t1) = sscanf_bracket (H ++ ":" :: t2).
Proof.
  intros Hc. destruct H as [|c0 H']; [reflexivity|].
  destruct (Ascii.eqb_spec c0 "[") as [->|Hne].
  - apply hostname_check_bracket in Hc as (X & c & rest & -> & HX & Hcs).
    replace (("[" :: X ++ c :: rest) ++ ":" :: t1)
      with ("[" :: X ++ c :: (rest ++ ":" :: t1))
      by (simpl; now rewrite <- app_assoc).
    replace (("[" :: X ++ c :: rest) ++ ":" :: t2)
      with ("[" :: X ++ c :: (rest ++ ":" :: t2))
      by (simpl; now rewrite <- app_assoc).
    now rewrite !sscanf_bracket_local.
  - rewrite <- !app_comm_cons. unfold sscanf_bracket.
    destruct (Ascii.eqb_spec c0 "["); [contradiction|reflexivity].
Qed.

Lemma parse_port_generic u hn :
  no_bracket_match hn ->
  parse_port u hn = parse_port_at u hn (strchr hn ":").
Proof.
  unfold no_bracket_match, parse_port.
  destruct (sscanf_bracket hn) as [[c len]|]; [|reflexivity].
  intros Hc. destruct (Ascii.eqb_spec c "]"); [contradiction|reflexivity].
Qed.

(** What a successful [parse_port] did, and that it does the same again on
    the host followed by the port text it stored. *)
Lemma parse_port_replay u hn u' H flags :
  parse_port u hn = (CURLURLE_OK, u', H) ->
  hostname_check H flags = CURLURLE_OK ->
  (u' = u /\ H = hn /\ strchr hn ":" = None
   /\ forall u0, parse_port u0 H = (CURLURLE_OK, u0, H))
  \/ (exists v d,
         (0 < v <= 65535)%Z
         /\ hn = H ++ ":" :: d
         /\ u' = set_port (set_portnum u v) (Some (snprintf_portbuf v))
         /\ forall u0,
              parse_port u0 (H ++ ":" :: snprintf_portbuf v)
              = (CURLURLE_OK,
                 set_port (set_portnum u0 v) (Some (snprintf_portbuf v)), H)).
Proof.
  intros Hp Hcheck.
  assert (Hgen : no_bracket_match hn ->
                 parse_port_at u hn (strchr hn ":") = (CURLURLE_OK, u', H) ->
                 (u' = u /\ H = hn /\ strchr hn ":" = None
                  /\ forall u0, parse_port u0 H = (CURLURLE_OK, u0, H))
                 \/ (exists v d,
                        (0 < v <= 65535)%Z
                        /\ hn = H ++ ":" :: d
                        /\ u' = set_port (set_portnum u v)
                                  (Some (snprintf_portbuf v))
                        /\ forall u0,
                             parse_port u0 (H ++ ":" :: snprintf_portbuf v)
                             = (CURLURLE_OK,
                                set_port (set_portnum u0 v)
                                  (Some (snprintf_portbuf v)), H))).
  { intros Hnb Hat. destruct (strchr hn ":") as [p|] eqn:Hs.
    - right. apply parse_port_at_ok in Hat as (v & Hv & -> & ->).
      destruct (strchr_split _ _ _ Hs) as [Hsplit Hnone].
      exists v, (skipn (S p) hn). split; [assumption|].
      split; [assumption|]. split; [reflexivity|]. intros u0.
      set (H := firstn p hn) in *.
      assert (Hnb' : no_bracket_match (H ++ ":" :: snprintf_portbuf v)).
      { unfold no_bracket_match in *.
        rewrite (sscanf_bracket_tail H flags _ (skipn (S p) hn) Hcheck).
        now rewrite <- Hsplit. }
      rewrite (parse_port_generic _ _ Hnb').
      rewrite (strchr_app_here _ _ _ Hnone).
      now apply parse_port_at_again.
    - left. simpl in Hat. injection Hat as <- <-.
      repeat split; auto. intros u0.
      rewrite (parse_port_generic _ _ Hnb). now rewrite Hs. }
  unfold parse_port in Hp.
  destruct (sscanf_bracket hn) as [[c len]|] eqn:Hb.
  - destruct (Ascii.eqb_spec c "]") as [->|Hne].
    + destruct (negb (Ascii.eqb (char_at hn len) ":")) eqn:Hcolon;
        [discriminate|].
      apply negb_false_iff, Ascii.eqb_eq in Hcolon.
      apply parse_port_at_ok in Hp as (v & Hv & -> & ->).
      apply sscanf_bracket_some in Hb as (lit & r & -> & Hne & Hall & Hlen & ->).
      replace ("[" :: lit ++ "]" :: r) with (("[" :: lit ++ ["]"]) ++ r) in *
        by (simpl; now rewrite <- app_assoc).
      set (H := "[" :: lit ++ ["]"]) in *.
      destruct r as [|c d].
      { rewrite app_nil_r in Hcolon. rewrite char_at_end in Hcolon.
        discriminate. }
      rewrite char_at_app_here in Hcolon. subst c.
      rewrite firstn_app_exact.
      right. exists v, d. split; [assumption|]. split; [reflexivity|].
      split; [reflexivity|]. intros u0. unfold parse_port.
      assert (Hb' : sscanf_bracket (H ++ ":" :: snprintf_portbuf v)
                    = Some ("]", length H)).
      { unfold H.
        replace (("[" :: lit ++ ["]"]) ++ ":" :: snprintf_portbuf v)
          with ("[" :: lit ++ "]" :: ":" :: snprintf_portbuf v)
          by (simpl; now rewrite <- app_assoc).
        rewrite sscanf_bracket_build; auto. }
      rewrite Hb'. rewrite Ascii.eqb_refl.
      rewrite char_at_app_here. rewrite Ascii.eqb_refl. simpl negb. cbv iota.
      now apply parse_port_at_again.
    + apply Hgen; [|assumption]. unfold no_bracket_match. now rewrite Hb.
  - apply Hgen; [|assumption]. unfold no_bracket_match. now rewrite Hb.
Qed.

(** ** The shape of a parsed handle *)

Section Shape.

Variable Curl_builtin_scheme : cstring -> option Z.
Variable Curl_parse_login_details :
  cstring -> option (option cstring * option cstring * option cstring).
Variable Curl_dedotdotify : cstring -> cstring.
Variable WIN32 : bool.

Let parse := parseurl Curl_builtin_scheme Curl_parse_login_details
               Curl_dedotdotify WIN32.
Let rest := parse_rest Curl_parse_login_details Curl_dedotdotify.
Let login := parse_hostname_login Curl_parse_login_details.

Lemma login_ok u hn u1 hn1 :
  login u hn 0 = (CURLURLE_OK, u1, hn1) ->
  (strchr hn "@" = None /\ u1 = u /\ hn1 = hn)
  \/ (exists i us pw op,
         strchr hn "@" = Some i
         /\ Curl_parse_login_details (firstn i hn) = Some (us, pw, op)
         /\ hn1 = skipn (S i) hn
         /\ u1 = store_login u us pw op).
Proof.
  unfold login, parse_hostname_login.
  destruct (strchr hn "@") as [i|]; [|intros [= <- <-]; now left].
  destruct (Curl_parse_login_details (firstn i hn)) as [[[us pw] op]|] eqn:Hl;
    [|discriminate].
  change (has_flag 0 CURLURL_DISALLOW_USER) with false.
  intros H. right. exists i, us, pw, op. split; [reflexivity|].
  split; [exact Hl|].
  unfold store_login.
  destruct us; cbv iota in H; injection H as <- <-; auto.
Qed.

Lemma login_again u t hn us pw :
  strchr t "@" = None ->
  Curl_parse_login_details t = Some (us, pw, None) ->
  login u (t ++ "@" :: hn) 0 = (CURLURLE_OK, store_login u us pw None, hn).
Proof.
  intros Hat Hl. unfold login, parse_hostname_login.
  rewrite (strchr_app_here _ _ _ Hat).
  rewrite firstn_app_exact, skipn_app_cons, Hl.
  change (has_flag 0 CURLURL_DISALLOW_USER) with false.
  unfold store_login. destruct us; reflexivity.
Qed.

Lemma login_absent u hn :
  strchr hn "@" = None -> login u hn 0 = (CURLURLE_OK, u, hn).
Proof.
  intros Hat. unfold login, parse_hostname_login. now rewrite Hat.
Qed.

(** The handle of a successful parse behind a scheme, field by field. *)
Lemma parse_rest_shape s hn p0 h :
  rest (scheme_handle s) hn p0 0 = (CURLURLE_OK, h) ->
  exists p q f P q' f' us pw op hn1 H porto pn,
    split_query_fragment p0 = (p, q, f)
    /\ fix_path Curl_dedotdotify p q f 0 = (P, q', f')
    /\ h = mkURL (Some s) us pw op (Some H) porto (Some P)
             (stored q') (stored f') false pn
    /\ ((strchr hn "@" = None /\ us = None /\ pw = None /\ op = None
         /\ hn1 = hn)
        \/ (exists i,
               strchr hn "@" = Some i
               /\ Curl_parse_login_details (firstn i hn) = Some (us, pw, op)
               /\ hn1 = skipn (S i) hn))
    /\ ((porto = None /\ pn = 0%Z /\ H = hn1
         /\ forall u0, parse_port u0 H = (CURLURLE_OK, u0, H))
        \/ (exists v d,
               (0 < v <= 65535)%Z
               /\ hn1 = H ++ ":" :: d
               /\ porto = Some (snprintf_portbuf v) /\ pn = v
               /\ forall u0,
                    parse_port u0 (H ++ ":" :: snprintf_portbuf v)
                    = (CURLURLE_OK,
                       set_port (set_portnum u0 v)
                         (Some (snprintf_portbuf v)), H)))
    /\ hostname_check H 0 = CURLURLE_OK.
Proof.
  intros Hr. apply parse_rest_ok in Hr
    as (p & q & f & P & q' & f' & u1 & hn1 & u2 & H
        & Hs & Hf & Hl & Hp & Hc & ->).
  apply login_ok in Hl.
  destruct (parse_port_replay _ _ _ _ _ Hp Hc)
    as [(-> & -> & Hnone & Hagain) | (v & d & Hv & Hhn & -> & Hagain)].
  - destruct Hl as [(Hat & -> & ->) | (i & us & pw & op & Hat & Hlog & -> & ->)].
    + exists p, q, f, P, q', f', None, None, None, hn, hn, None, 0%Z.
      split; [assumption|]. split; [assumption|]. split.
      { destruct q' as [[|]|]; destruct f' as [[|]|]; reflexivity. }
      split; [left; auto|]. split; [left; auto|]. assumption.
    + exists p, q, f, P, q', f', us, pw, op, (skipn (S i) hn),
        (skipn (S i) hn), None, 0%Z.
      split; [assumption|]. split; [assumption|]. split.
      { destruct us; destruct pw; destruct op;
          destruct q' as [[|]|]; destruct f' as [[|]|]; reflexivity. }
      split; [right; exists i; auto|]. split; [left; auto|]. assumption.
  - destruct Hl as [(Hat & -> & ->) | (i & us & pw & op & Hat & Hlog & -> & ->)].
    + exists p, q, f, P, q', f', None, None, None, hn, H,
        (Some (snprintf_portbuf v)), v.
      split; [assumption|]. split; [assumption|]. split.
      { destruct q' as [[|]|]; destruct f' as [[|]|]; reflexivity. }
      split; [left; auto|]. split; [right; exists v, d; auto|]. assumption.
    + exists p, q, f, P, q', f', us, pw, op, (skipn (S i) hn), H,
        (Some (snprintf_portbuf v)), v.
      split; [assumption|]. split; [assumption|]. split.
      { destruct us; destruct pw; destruct op;
          destruct q' as [[|]|]; destruct f' as [[|]|]; reflexivity. }
      split; [right; exists i; auto|]. split; [right; exists v, d; auto|].
      assumption.
Qed.

End Shape.

(** ** What the scan of the first parse tells *)

Lemma forallb_app_split (p : ascii -> bool) a b :
  forallb p (a ++ b) = true -> forallb p a = true /\ forallb p b = true.
Proof. rewrite forallb_app. apply andb_prop. Qed.

Lemma forallb_app_join (p : ascii -> bool) a b :
  forallb p a = true -> forallb p b = true -> forallb p (a ++ b) = true.
Proof. intros Ha Hb. rewrite forallb_app. now rewrite Ha, Hb. Qed.

(** What [sscanf_url] hands out when it returns 3 or 4. *)
Lemma sscanf_url_fields url rc s hn p0 :
  sscanf_url url = (rc, s, hn, p0) ->
  (3 <= rc)%Z ->
  s <> [] /\ forallb scheme_byte s = true /\ length s <= 15
  /\ hn <> [] /\ forallb host_byte hn = true
  /\ forallb line_byte p0 = true
  /\ exists t, url = s ++ ":" :: t.
Proof.
  unfold sscanf_url. destruct url as [|c0 url0]; [intros [= <- _ _ _]; unfold EOF; lia|].
  fold scheme_byte host_byte line_byte.
  destruct (scan_set scheme_byte 15 (c0 :: url0)) as [sb r1] eqn:H1.
  apply scan_set_spec in H1 as (Hurl & Hsb & Hlen).
  destruct sb as [|a sb]; [intros [= <- _ _ _]; lia|].
  destruct r1 as [|c r2]; [intros [= <- _ _ _]; lia|].
  destruct (Ascii.eqb_spec c ":") as [->|_]; cbn [negb];
    [|intros [= <- _ _ _]; lia].
  destruct (scan_set (in_set ["/"]) 3 r2) as [sl r3].
  destruct sl as [|b sl]; [intros [= <- _ _ _]; lia|].
  destruct (scan_all host_byte r3) as [h r4] eqn:H3.
  apply scan_all_spec in H3 as (_ & Hh).
  destruct h as [|d h]; [intros [= <- _ _ _]; lia|].
  destruct (scan_all line_byte r4) as [pa r5] eqn:H4.
  apply scan_all_spec in H4 as (_ & Hp).
  destruct pa as [|e pa]; intros [= <- <- <- <-] _.
  - repeat split; auto; try discriminate. now exists r2.
  - repeat split; auto; try discriminate. now exists r2.
Qed.

Section FirstScan.

Variable Curl_builtin_scheme : cstring -> option Z.

(** Without options, the generic branch needs the full pattern and a
    registered scheme. *)
Lemma parse_generic_fields url s hn p0 :
  parse_generic Curl_builtin_scheme url 0 = inr (s, hn, p0) ->
  s <> [] /\ forallb scheme_byte s = true /\ length s <= 15
  /\ hn <> [] /\ forallb host_byte hn = true
  /\ forallb line_byte p0 = true
  /\ (exists t, url = s ++ ":" :: t)
  /\ Curl_builtin_scheme s <> None.
Proof.
  unfold parse_generic.
  destruct (sscanf_url url) as [[[rc sb] h] pa] eqn:Hs.
  destruct (rc =? 2)%Z; [discriminate|].
  destruct (rc <? 3)%Z eqn:Hrc.
  { change (has_flag 0 CURLURL_DEFAULT_SCHEME) with false. discriminate. }
  apply Z.ltb_ge in Hrc.
  pose proof (sscanf_url_fields _ _ _ _ _ Hs Hrc) as F.
  destruct (Curl_builtin_scheme sb) eqn:Hdir.
  - intros [= <- <- <-]. rewrite Hdir.
    destruct F as (F1 & F2 & F3 & F4 & F5 & F6 & F7).
    repeat split; auto. discriminate.
  - change (has_flag 0 CURLURL_NON_SUPPORT_SCHEME) with false. discriminate.
Qed.

End FirstScan.

(** ** The file: test depends on the scheme only *)

Lemma check_scheme_of_scheme s :
  forall n t,
    forallb scheme_byte s = true -> length s < n ->
    check_scheme n (s ++ ":" :: t) = true.
Proof.
  induction s as [|c s IH]; intros n t Hall Hlen; simpl in *.
  - destruct n; [lia|reflexivity].
  - destruct n; [lia|]. apply andb_prop in Hall as [Hc Hall]. simpl.
    unfold scheme_byte, not_in_set, in_set in Hc. simpl in Hc.
    destruct (Ascii.eqb c "/"); [rewrite !orb_true_r in Hc; discriminate|].
    destruct (Ascii.eqb c ":"); [rewrite !orb_true_r in Hc; discriminate|].
    apply IH; [assumption|lia].
Qed.

Lemma strncasecompare_cons a x b y n :
  strncasecompare (a :: x) (b :: y) (S n)
  = if Ascii.eqb (raw_toupper a) (raw_toupper b)
    then strncasecompare x y n else false.
Proof. reflexivity. Qed.

Lemma strncasecompare_0 x y : strncasecompare x y 0 = true.
Proof. destruct x; reflexivity. Qed.

Lemma file_prefix_of_scheme s t t' :
  s <> [] ->
  strncasecompare (s ++ ":" :: t) (cs "file:") 5
  = strncasecompare (s ++ ":" :: t') (cs "file:") 5.
Proof.
  intros Hne. change (cs "file:") with ["f"; "i"; "l"; "e"; ":"].
  destruct s as [|a [|b [|c [|d [|e s]]]]]; [contradiction| | | | |];
    rewrite <- !app_comm_cons; rewrite ?app_nil_l;
    rewrite !strncasecompare_cons;
    try (progress change (Ascii.eqb (raw_toupper ":") (raw_toupper "i")) with false);
    try (progress change (Ascii.eqb (raw_toupper ":") (raw_toupper "l")) with false);
    try (progress change (Ascii.eqb (raw_toupper ":") (raw_toupper "e")) with false);
    try (progress change (Ascii.eqb (raw_toupper ":") (raw_toupper ":")) with true);
    cbv iota;
    repeat match goal with
           | |- (if ?x then _ else _) = (if ?x then _ else _) =>
               destruct x; [|reflexivity]
           end;
    rewrite ?strncasecompare_0; reflexivity.
Qed.

Lemma file_test_of_scheme s t t' :
  s <> [] -> forallb scheme_byte s = true -> length s <= 15 ->
  check_scheme 16 (s ++ ":" :: t) && strncasecompare (s ++ ":" :: t) (cs "file:") 5
  = check_scheme 16 (s ++ ":" :: t') && strncasecompare (s ++ ":" :: t') (cs "file:") 5.
Proof.
  intros Hne Hall Hlen.
  rewrite !check_scheme_of_scheme by (assumption || lia).
  now rewrite (file_prefix_of_scheme s t t').
Qed.

(** ** The path, the query and the fragment, cut and written back *)

Lemma stored_some o Q : stored o = Some Q -> o = Some Q /\ Q <> [].
Proof.
  destruct o as [[|c q]|]; simpl; try discriminate.
  intros [= <-]. split; [reflexivity|discriminate].
Qed.

Lemma stored_of_stored o : stored (stored o) = stored o.
Proof. now destruct o as [[|c q]|]. Qed.

Lemma split_query_fragment_facts p0 p q f :
  split_query_fragment p0 = (p, q, f) ->
  forallb line_byte p0 = true ->
  (forall Q, q = Some Q ->
             forallb line_byte Q = true /\ strchr Q "#" = None)
  /\ (forall F, f = Some F -> forallb line_byte F = true).
Proof.
  unfold split_query_fragment. intros H Hall.
  destruct (strchr p0 "?") as [i|] eqn:Hq.
  - pose proof (forallb_skipn line_byte (S i) p0 Hall) as Hrest.
    destruct (strchr (skipn (S i) p0) "#") as [j|] eqn:Hf.
    + injection H as <- <- <-. split.
      * intros Q [= <-]. split.
        -- exact (forallb_firstn line_byte j (skipn (S i) p0) Hrest).
        -- exact (proj2 (strchr_split _ _ _ Hf)).
      * intros F [= <-].
        exact (forallb_skipn line_byte (S j) (skipn (S i) p0) Hrest).
    + injection H as <- <- <-. split.
      * intros Q [= <-]. split; [exact Hrest|exact Hf].
      * discriminate.
  - destruct (strchr p0 "#") as [j|] eqn:Hf.
    + injection H as <- <- <-. split; [discriminate|].
      intros F [= <-]. exact (forallb_skipn line_byte (S j) p0 Hall).
    + injection H as <- <- <-. split; discriminate.
Qed.

Section PathAgain.

Variable Curl_dedotdotify : cstring -> cstring.

Lemma fix_path_stored p q f flags P q' f' :
  fix_path Curl_dedotdotify p q f flags = (P, q', f') ->
  (forall Q, stored q' = Some Q -> q = Some Q)
  /\ (forall F, stored f' = Some F -> f = Some F).
Proof.
  unfold fix_path. destruct p as [|c p].
  - destruct (negb (has_flag flags CURLURL_PATH_AS_IS));
      intros [= _ <- <-]; split; intros ? Hs; now apply stored_some in Hs.
  - destruct (negb (Ascii.eqb c "/")).
    + destruct q; [|destruct f]; intros [= _ <- <-]; split; intros ? Hs;
        try discriminate; now apply stored_some in Hs.
    + destruct (negb (has_flag flags CURLURL_PATH_AS_IS));
        intros [= _ <- <-]; split; intros ? Hs; now apply stored_some in Hs.
Qed.

Lemma fix_path_stable P q f :
  char_at P 0 = "/" -> Curl_dedotdotify P = P ->
  fix_path Curl_dedotdotify P q f 0 = (P, q, f).
Proof.
  intros Hs Hd. unfold fix_path. destruct P as [|c P']; [discriminate|].
  unfold char_at in Hs. simpl in Hs. subst c.
  change (negb (Ascii.eqb "/" "/")) with false.
  change (negb (has_flag 0 CURLURL_PATH_AS_IS)) with true.
  cbv iota. now rewrite Hd.
Qed.

End PathAgain.

Lemma split_query_fragment_again P Q F :
  strchr P "?" = None ->
  (forall Qs, Q = Some Qs -> strchr Qs "#" = None) ->
  (Q = None ->
   strchr P "#" = None /\ strchr (or_empty F) "?" = None) ->
  split_query_fragment (path_and_marks P Q F) = (P, Q, F).
Proof.
  intros HP HQ Hkept. unfold split_query_fragment, path_and_marks.
  destruct Q as [Qs|]; simpl if_set; simpl or_empty.
  - change (P ++ ["?"] ++ Qs ++ if_set F ["#"] ++ or_empty F)
      with (P ++ "?" :: (Qs ++ if_set F ["#"] ++ or_empty F)).
    rewrite (strchr_app_here _ _ _ HP).
    rewrite firstn_app_exact, skipn_app_cons.
    specialize (HQ Qs eq_refl).
    destruct F as [Fs|]; simpl if_set; simpl or_empty.
    + change (Qs ++ ["#"] ++ Fs) with (Qs ++ "#" :: Fs).
      rewrite (strchr_app_here _ _ _ HQ).
      now rewrite firstn_app_exact, skipn_app_cons.
    + rewrite app_nil_r. now rewrite HQ.
  - destruct (Hkept eq_refl) as [Hhash Hmark].
    destruct F as [Fs|]; simpl if_set; simpl or_empty.
    + change (P ++ [] ++ [] ++ ["#"] ++ Fs) with (P ++ "#" :: Fs).
      simpl in Hmark.
      rewrite (strchr_app_none P ("#" :: Fs) "?" HP)
        by (simpl; now rewrite Hmark).
      rewrite (strchr_app_here _ _ _ Hhash).
      now rewrite firstn_app_exact, skipn_app_cons.
    + change (P ++ [] ++ [] ++ [] ++ []) with (P ++ []).
      rewrite app_nil_r. now rewrite HP, Hhash.
Qed.

(** ** The scan of a written URL *)

Lemma host_byte_not_slash c : host_byte c = true -> in_set ["/"] c = false.
Proof. destruct c as [[] [] [] [] [] [] [] []]; vm_compute; congruence. Qed.

Lemma sscanf_url_written s hs tail :
  s <> [] -> forallb scheme_byte s = true -> length s <= 15 ->
  hs <> [] -> forallb host_byte hs = true ->
  char_at tail 0 = "/" -> forallb line_byte tail = true ->
  sscanf_url (s ++ ":" :: "/" :: "/" :: hs ++ tail) = (4%Z, s, hs, tail).
Proof.
  intros Hs Hsb Hsl Hh Hhb Ht Htb. unfold sscanf_url.
  destruct (s ++ ":" :: "/" :: "/" :: hs ++ tail) as [|c0 w] eqn:Hw.
  { destruct s; discriminate. }
  rewrite <- Hw. clear c0 w Hw.
  fold scheme_byte host_byte line_byte.
  rewrite (scan_set_app scheme_byte s 15) by (auto; reflexivity).
  destruct s as [|a s']; [contradiction|].
  change (negb (Ascii.eqb ":" ":")) with false. cbv iota.
  change ("/" :: "/" :: hs ++ tail) with (["/"; "/"] ++ (hs ++ tail)).
  rewrite (scan_set_app (in_set ["/"]) ["/"; "/"] 3).
  2: reflexivity. 2: simpl; lia.
  2: { destruct hs as [|d hs']; [contradiction|]. simpl.
       simpl in Hhb. apply andb_prop in Hhb as [Hd _].
       now apply host_byte_not_slash. }
  cbv iota.
  assert (Hstop : stops host_byte tail).
  { destruct tail as [|e tail']; [exact I|].
    unfold char_at in Ht. simpl in Ht. subst e. reflexivity. }
  rewrite (scan_all_app host_byte hs tail Hhb Hstop).
  destruct hs as [|d hs']; [contradiction|].
  replace tail with (tail ++ []) at 1 by apply app_nil_r.
  rewrite (scan_all_app line_byte tail [] Htb I).
  destruct tail as [|e tail']; [discriminate|]. reflexivity.
Qed.

Section ScanAgain.

Variable Curl_builtin_scheme : cstring -> option Z.

Lemma parse_generic_written s hs tail :
  s <> [] -> forallb scheme_byte s = true -> length s <= 15 ->
  hs <> [] -> forallb host_byte hs = true ->
  char_at tail 0 = "/" -> forallb line_byte tail = true ->
  Curl_builtin_scheme s <> None ->
  parse_generic Curl_builtin_scheme (s ++ ":" :: "/" :: "/" :: hs ++ tail) 0
  = inr (s, hs, tail).
Proof.
  intros Hs Hsb Hsl Hh Hhb Ht Htb Hdir. unfold parse_generic.
  rewrite sscanf_url_written by assumption.
  change (4 =? 2)%Z with false. change (4 <? 3)%Z with false. cbv iota.
  destruct (Curl_builtin_scheme s); [reflexivity|contradiction].
Qed.

End ScanAgain.

(** ** Parsing what the URL part wrote *)

Lemma forallb_impl (p q : ascii -> bool) t :
  (forall c, p c = true -> q c = true) ->
  forallb p t = true -> forallb q t = true.
Proof.
  intros Hpq. induction t as [|c t IH]; simpl; [reflexivity|].
  intros H. apply andb_prop in H as [Hc Ht]. now rewrite (Hpq c Hc), IH.
Qed.

Lemma digit_is_host_byte c : ISDIGIT c = true -> host_byte c = true.
Proof. destruct c as [[] [] [] [] [] [] [] []]; vm_compute; congruence. Qed.

Lemma port_text_bytes v :
  (0 < v <= 65535)%Z ->
  forallb host_byte (snprintf_portbuf v) = true
  /\ strchr (snprintf_portbuf v) "@" = None
  /\ snprintf_portbuf v <> [].
Proof.
  intros Hv. pose proof (port_text_ok_range v Hv) as Hok.
  unfold port_text_ok in Hok.
  destruct (snprintf_portbuf v) as [|c t]; [discriminate|].
  apply andb_prop in Hok as [Hok _]. apply andb_prop in Hok as [Hd _].
  split; [|split].
  - exact (forallb_impl _ _ _ digit_is_host_byte Hd).
  - apply (strchr_none_of_forallb ISDIGIT); [assumption|reflexivity].
  - discriminate.
Qed.

Lemma scheme_byte_not_colon s t :
  s <> [] -> forallb scheme_byte s = true ->
  Ascii.eqb (char_at (s ++ t) 0) ":" = false.
Proof.
  destruct s as [|a s]; [contradiction|]. intros _ H. simpl in H.
  apply andb_prop in H as [Ha _]. unfold char_at. simpl.
  destruct (Ascii.eqb_spec a ":") as [->|]; [discriminate|reflexivity].
Qed.

Lemma format_url_written nul s us pw op H porto P Q F pn :
  format_url nul (mkURL (Some s) us pw op (Some H) porto (Some P) Q F false pn)
    s H porto
  = s ++ ":" :: "/" :: "/" :: host_written us pw H porto ++ path_and_marks P Q F.
Proof.
  unfold format_url, host_written, path_and_marks, at_mark.
  cbn [user password path query fragment].
  change (cs "://") with [":"; "/"; "/"].
  repeat rewrite <- app_assoc. reflexivity.
Qed.

Section Written.

Variable Curl_builtin_scheme : cstring -> option Z.
Variable Curl_parse_login_details :
  cstring -> option (option cstring * option cstring * option cstring).
Variable Curl_dedotdotify : cstring -> cstring.
Variable WIN32 : bool.
Variable printf_null : cstring.

Let parse := parseurl Curl_builtin_scheme Curl_parse_login_details
               Curl_dedotdotify WIN32.
Let rest := parse_rest Curl_parse_login_details Curl_dedotdotify.
Let login := parse_hostname_login Curl_parse_login_details.

(** The common part of the parser reads the fields back. *)
Lemma parse_rest_written s us pw H porto pn P Q F :
  (* the login *)
  (match us, pw with
   | None, None => strchr H "@" = None
   | _, _ =>
       strchr (or_empty us ++ if_set pw [":"] ++ or_empty pw) "@" = None
       /\ Curl_parse_login_details
            (or_empty us ++ if_set pw [":"] ++ or_empty pw)
          = Some (us, pw, None)
   end) ->
  (* the port *)
  ((porto = None /\ pn = 0%Z
    /\ forall u0, parse_port u0 H = (CURLURLE_OK, u0, H))
   \/ (exists v,
          (0 < v <= 65535)%Z
          /\ porto = Some (snprintf_portbuf v) /\ pn = v
          /\ forall u0,
               parse_port u0 (H ++ ":" :: snprintf_portbuf v)
               = (CURLURLE_OK,
                  set_port (set_portnum u0 v) (Some (snprintf_portbuf v)),
                  H))) ->
  hostname_check H 0 = CURLURLE_OK ->
  (* the path, the query and the fragment *)
  Curl_dedotdotify P = P -> char_at P 0 = "/" -> strchr P "?" = None ->
  stored Q = Q -> stored F = F ->
  (forall Qs, Q = Some Qs -> strchr Qs "#" = None) ->
  (Q = None -> strchr P "#" = None /\ strchr (or_empty F) "?" = None) ->
  rest (scheme_handle s) (host_written us pw H porto) (path_and_marks P Q F) 0
  = (CURLURLE_OK,
     mkURL (Some s) us pw None (Some H) porto (Some P) Q F false pn).
Proof.
  intros Hlogin Hport Hcheck Hd Hslash Hmark HQ HF HQhash Hkept.
  unfold rest, parse_rest.
  rewrite (split_query_fragment_again P Q F Hmark HQhash Hkept).
  rewrite (fix_path_stable Curl_dedotdotify P Q F Hslash Hd).
  set (u0 := set_path (scheme_handle s) (Some P)).
  set (pp := if_set porto [":"] ++ or_empty porto).
  assert (Hpp : strchr pp "@" = None).
  { unfold pp. destruct Hport as [(-> & _) | (v & Hv & -> & _)]; [reflexivity|].
    simpl. now destruct (port_text_bytes v Hv) as (_ & -> & _). }
  assert (Hl : parse_hostname_login Curl_parse_login_details u0
                 (host_written us pw H porto) 0
               = (CURLURLE_OK, store_login u0 us pw None, H ++ pp)).
  { unfold host_written. fold pp.
    destruct us as [usr|]; [|destruct pw as [pwd|]].
    - destruct Hlogin as [Hat Hsplit].
      replace (or_empty (Some usr) ++ if_set pw [":"] ++ or_empty pw
               ++ at_mark (Some usr) pw ++ H ++ pp)
        with ((or_empty (Some usr) ++ if_set pw [":"] ++ or_empty pw)
              ++ "@" :: (H ++ pp))
        by (destruct pw; simpl; repeat rewrite <- app_assoc; reflexivity).
      now apply login_again.
    - destruct Hlogin as [Hat Hsplit].
      replace (or_empty None ++ if_set (Some pwd) [":"] ++ or_empty (Some pwd)
               ++ at_mark None (Some pwd) ++ H ++ pp)
        with ((or_empty None ++ if_set (Some pwd) [":"] ++ or_empty (Some pwd))
              ++ "@" :: (H ++ pp))
        by (simpl; repeat rewrite <- app_assoc; reflexivity).
      now apply login_again.
    - simpl. apply login_absent. now apply strchr_app_none. }
  rewrite Hl. cbn [failed].
  assert (Hp : parse_port (store_login u0 us pw None) (H ++ pp)
               = (CURLURLE_OK,
                  match porto with
                  | Some _ => set_port (set_portnum (store_login u0 us pw None) pn) porto
                  | None => store_login u0 us pw None
                  end, H)).
  { unfold pp. destruct Hport as [(-> & -> & Hagain) | (v & Hv & -> & -> & Hagain)].
    - simpl. rewrite app_nil_r. apply Hagain.
    - simpl. apply Hagain. }
  rewrite Hp. cbn [failed]. rewrite Hcheck. cbn [failed].
  f_equal.
  unfold u0, scheme_handle, store_login.
  destruct Hport as [(-> & -> & _) | (v & _ & -> & -> & _)];
    destruct Q as [[|]|]; try discriminate HQ;
    destruct F as [[|]|]; try discriminate HF;
    destruct us; destruct pw; reflexivity.
Qed.

End Written.

(** ** The round trip *)

Section RoundTrip.

Variable Curl_builtin_scheme : cstring -> option Z.
Variable Curl_parse_login_details :
  cstring -> option (option cstring * option cstring * option cstring).
Variable Curl_dedotdotify : cstring -> cstring.
Variable WIN32 : bool.
Variable printf_null : cstring.

Let parse := parseurl Curl_builtin_scheme Curl_parse_login_details
               Curl_dedotdotify WIN32.
Let create := curl_url Curl_builtin_scheme Curl_parse_login_details
                Curl_dedotdotify WIN32.
Let rest := parse_rest Curl_parse_login_details Curl_dedotdotify.
Let get := curl_url_get Curl_builtin_scheme printf_null.

Lemma store_login_scheme u us pw op :
  scheme (store_login u us pw op) = scheme u.
Proof. unfold store_login. destruct us; destruct pw; destruct op; reflexivity. Qed.

Lemma parse_rest_keeps_scheme u hn p0 h :
  rest u hn p0 0 = (CURLURLE_OK, h) -> scheme h = scheme u.
Proof.
  intros Hr. apply parse_rest_ok in Hr
    as (p & q & f & P & q' & f' & u1 & hn1 & u2 & H
        & Hs & Hf & Hl & Hp & Hc & ->).
  apply login_ok in Hl.
  assert (H1 : scheme u1 = scheme u).
  { destruct Hl as [(_ & -> & _) | (i & us & pw & op & _ & _ & _ & ->)];
      [reflexivity|]. now rewrite store_login_scheme. }
  assert (H2 : scheme u2 = scheme u1).
  { destruct (parse_port_replay _ _ _ _ _ Hp Hc)
      as [(-> & _) | (v & d & _ & _ & -> & _)]; reflexivity. }
  rewrite <- H1, <- H2.
  destruct q' as [[|]|]; destruct f' as [[|]|]; reflexivity.
Qed.

Lemma create_parse uninit U h :
  create uninit U 0 = (CURLURLE_OK, Some h) ->
  parse uninit U zero_handle 0 = (CURLURLE_OK, h).
Proof.
  unfold create, curl_url, parse.
  destruct (parseurl _ _ _ _ uninit U zero_handle 0) as [result u].
  destruct (failed result || has_flag 0 CURLURL_VERIFY_ONLY);
    [discriminate|]. now intros [= -> ->].
Qed.

Lemma parse_create uninit U h :
  parse uninit U zero_handle 0 = (CURLURLE_OK, h) ->
  create uninit U 0 = (CURLURLE_OK, Some h).
Proof.
  unfold create, curl_url, parse. now intros ->.
Qed.

(** A handle with a scheme comes from the generic branch. *)
Lemma parse_with_scheme uninit U h s :
  parse uninit U zero_handle 0 = (CURLURLE_OK, h) ->
  scheme h = Some s ->
  exists hn p0,
    parse_generic Curl_builtin_scheme U 0 = inr (s, hn, p0)
    /\ rest (scheme_handle s) hn p0 0 = (CURLURLE_OK, h)
    /\ check_scheme 16 U && strncasecompare U (cs "file:") 5 = false.
Proof.
  unfold parse, parseurl.
  destruct (Ascii.eqb (char_at U 0) ":"); [discriminate|].
  destruct (check_scheme 16 U && strncasecompare U (cs "file:") 5).
  - destruct (parse_file WIN32 U) as [e|p] eqn:Hpf.
    { apply parse_file_error in Hpf. subst e. discriminate. }
    intros Hr Hs. apply parse_rest_keeps_scheme in Hr.
    rewrite Hs in Hr. discriminate.
  - destruct (parse_generic _ U 0) as [e|[[s' hn] p0]] eqn:Hpg.
    { apply parse_generic_error in Hpg. destruct Hpg; subst e; discriminate. }
    intros Hr Hs. pose proof (parse_rest_keeps_scheme _ _ _ _ Hr) as Hk.
    rewrite Hs in Hk. injection Hk as ->.
    exists hn, p0. auto.
Qed.

Lemma host_written_bytes us pw H porto :
  (match us, pw with
   | None, None => H <> [] \/ porto <> None
   | _, _ =>
       forallb host_byte (or_empty us ++ if_set pw [":"] ++ or_empty pw) = true
   end) ->
  forallb host_byte H = true ->
  (porto = None
   \/ exists v, (0 < v <= 65535)%Z /\ porto = Some (snprintf_portbuf v)) ->
  host_written us pw H porto <> []
  /\ forallb host_byte (host_written us pw H porto) = true.
Proof.
  intros Hl HH Hp. unfold host_written.
  assert (Hpp : forallb host_byte (if_set porto [":"] ++ or_empty porto) = true
                /\ (porto <> None ->
                    if_set porto [":"] ++ or_empty porto <> [])).
  { destruct Hp as [-> | (v & Hv & ->)]; simpl.
    - split; [reflexivity|congruence].
    - destruct (port_text_bytes v Hv) as (Hb & _).
      split; [now rewrite Hb|discriminate]. }
  destruct Hpp as [Hpb Hpn].
  destruct us as [usr|]; [|destruct pw as [pwd|]].
  - split.
    + destruct pw; simpl; intros E;
        repeat (apply app_eq_nil in E as [_ E]); discriminate.
    + replace (or_empty (Some usr) ++ if_set pw [":"] ++ or_empty pw
               ++ at_mark (Some usr) pw ++ H
               ++ if_set porto [":"] ++ or_empty porto)
        with ((or_empty (Some usr) ++ if_set pw [":"] ++ or_empty pw)
              ++ ["@"] ++ H ++ if_set porto [":"] ++ or_empty porto)
        by (destruct pw; simpl; repeat rewrite <- app_assoc; reflexivity).
      apply forallb_app_join; [exact Hl|].
      apply forallb_app_join; [reflexivity|].
      apply forallb_app_join; [exact HH|exact Hpb].
  - split.
    + simpl. discriminate.
    + replace (or_empty None ++ if_set (Some pwd) [":"] ++ or_empty (Some pwd)
               ++ at_mark None (Some pwd) ++ H
               ++ if_set porto [":"] ++ or_empty porto)
        with ((or_empty None ++ if_set (Some pwd) [":"] ++ or_empty (Some pwd))
              ++ ["@"] ++ H ++ if_set porto [":"] ++ or_empty porto)
        by (simpl; repeat rewrite <- app_assoc; reflexivity).
      apply forallb_app_join; [exact Hl|].
      apply forallb_app_join; [reflexivity|].
      apply forallb_app_join; [exact HH|exact Hpb].
  - simpl. split.
    + intros E. apply app_eq_nil in E as [E1 E2].
      destruct Hl as [Hl|Hl]; [contradiction|]. now apply Hpn.
    + now apply forallb_app_join.
Qed.

Lemma path_and_marks_bytes P Q F :
  char_at P 0 = "/" -> forallb line_byte P = true ->
  (forall Qs, Q = Some Qs -> forallb line_byte Qs = true) ->
  (forall Fs, F = Some Fs -> forallb line_byte Fs = true) ->
  char_at (path_and_marks P Q F) 0 = "/"
  /\ forallb line_byte (path_and_marks P Q F) = true.
Proof.
  intros Hs HP HQ HF. unfold path_and_marks. split.
  - destruct P as [|c P']; [discriminate|]. exact Hs.
  - repeat apply forallb_app_join; auto.
    + now destruct Q.
    + destruct Q as [Qs|]; [now apply HQ|reflexivity].
    + now destruct F.
    + destruct F as [Fs|]; [now apply HF|reflexivity].
Qed.

Lemma get_url_of_parsed s us pw op H porto P Q F pn :
  get (mkURL (Some s) us pw op (Some H) porto (Some P) Q F false pn)
    CURLUPART_URL 0
  = inr (s ++ ":" :: "/" :: "/" :: host_written us pw H porto
           ++ path_and_marks P Q F).
Proof.
  unfold get, curl_url_get. cbn [host scheme port portnum].
  rewrite <- (format_url_written printf_null s us pw op H porto P Q F pn).
  change (has_flag 0 CURLURL_DEFAULT_PORT) with false.
  change (has_flag 0 CURLURL_NO_DEFAULT_PORT) with false.
  destruct porto as [p|]; [|reflexivity].
  destruct (Curl_builtin_scheme s) as [defport|]; [|reflexivity].
  now rewrite andb_false_r.
Qed.

(** The URL of a parsed handle with a scheme is written, and under the
    four conditions it is parsed into the same handle. *)
Lemma round_trip uninit1 uninit2 U h s :
  create uninit1 U 0 = (CURLURLE_OK, Some h) ->
  scheme h = Some s ->
  exists out,
    get h CURLUPART_URL 0 = inr out
    /\ (options h = None ->
        login_resplits Curl_parse_login_details h ->
        path_stable Curl_dedotdotify h ->
        query_marks_kept h ->
        create uninit2 out 0 = (CURLURLE_OK, Some h)).
Proof.
  intros Hc Hs. apply create_parse in Hc.
  destruct (parse_with_scheme _ _ _ _ Hc Hs) as (hn & p0 & Hgen & Hrest & Hfile).
  destruct (parse_generic_fields _ _ _ _ _ Hgen)
    as (Hsne & Hsb & Hsl & Hhne & Hhb & Hpb & (t & HU) & Hdir).
  destruct (parse_rest_shape _ _ _ _ _ _ Hrest)
    as (p & q & f & P & q' & f' & us & pw & op & hn1 & H & porto & pn
        & Hsplit & Hfix & -> & Hlog & Hport & Hcheck).
  eexists. split; [apply get_url_of_parsed|].
  cbn [options]. intros ->.
  unfold login_resplits, path_stable, query_marks_kept, has_login, login_text.
  cbn [user password host port path query fragment or_empty].
  intros Hre (Hd & Hslash & HPb & HPq) Hkept.
  (* what the first scan tells about the query and the fragment *)
  destruct (split_query_fragment_facts _ _ _ _ Hsplit Hpb) as [Fq Ff].
  destruct (fix_path_stored _ _ _ _ _ _ _ _ Hfix) as [Sq Sf].
  (* the host is made of host bytes *)
  assert (Hhn1 : forallb host_byte hn1 = true).
  { destruct Hlog as [(_ & _ & _ & _ & ->) | (i & _ & _ & ->)];
      [assumption|now apply forallb_skipn]. }
  assert (HHb : forallb host_byte H = true).
  { destruct Hport as [(_ & _ & -> & _) | (v & d & _ & E & _)];
      [assumption|]. rewrite E in Hhn1. now apply forallb_app_split in Hhn1. }
  assert (Hports : porto = None
                   \/ exists v, (0 < v <= 65535)%Z
                                /\ porto = Some (snprintf_portbuf v)).
  { destruct Hport as [(-> & _) | (v & d & Hv & _ & -> & _)];
      [now left|right; now exists v]. }
  assert (Hlb : match us, pw with
                | None, None => H <> [] \/ porto <> None
                | _, _ =>
                    forallb host_byte
                      (or_empty us ++ if_set pw [":"] ++ or_empty pw) = true
                end).
  { destruct us; [exact (proj1 Hre)|].
    destruct pw; [exact (proj1 Hre)|exact (proj2 Hre)]. }
  destruct (host_written_bytes us pw H porto Hlb HHb Hports) as [Hwne Hwb].
  assert (HQb : forall Qs, stored q' = Some Qs ->
                           forallb line_byte Qs = true /\ strchr Qs "#" = None).
  { intros Qs E. apply Sq in E. now apply Fq in E. }
  assert (HFb : forall Fs, stored f' = Some Fs -> forallb line_byte Fs = true).
  { intros Fs E. apply Sf in E. now apply Ff in E. }
  destruct (path_and_marks_bytes P (stored q') (stored f') Hslash HPb
              (fun Qs E => proj1 (HQb Qs E)) HFb) as [Htl Htb].
  (* the parse of the written URL *)
  apply parse_create. unfold parse, parseurl.
  replace (s ++ ":" :: "/" :: "/" :: host_written us pw H porto
             ++ path_and_marks P (stored q') (stored f'))
    with (s ++ ":" :: ("/" :: "/" :: host_written us pw H porto
                         ++ path_and_marks P (stored q') (stored f')))
    by reflexivity.
  rewrite (scheme_byte_not_colon s _ Hsne Hsb).
  rewrite (file_test_of_scheme s _ t Hsne Hsb Hsl), <- HU, Hfile.
  rewrite (parse_generic_written Curl_builtin_scheme s _ _
             Hsne Hsb Hsl Hwne Hwb Htl Htb Hdir).
  fold (scheme_handle s).
  apply parse_rest_written; auto.
  - destruct us; [exact (proj2 Hre)|].
    destruct pw; [exact (proj2 Hre)|exact (proj1 Hre)].
  - destruct Hport as [(-> & -> & _ & Ha) | (v & d & Hv & _ & -> & -> & Ha)].
    + left. auto.
    + right. exists v. auto.
  - apply stored_of_stored.
  - apply stored_of_stored.
  - intros Qs E. now apply HQb.
  - intros E. destruct Hkept as [Hk|Hk]; [contradiction|exact Hk].
Qed.

End RoundTrip.

(** C1, as the code has it.  For every URL that [curl_url] accepts with no
    options and whose handle has a scheme (any URL but a file: one), the
    URL part is delivered with no options; and parsing the delivered string
    with no options gives the same handle, all fields equal, provided that
    no login options are stored, that the written login "user[:password]"
    holds no '@', no '/', no '?', no '#' and no line feed and is split by
    the Login Splitter back into the stored user and password with no
    options (without a login: the host holds no '@' and host and port are
    not both empty), that the stored path is left as it is by the
    normalizer, starts with '/' and holds neither '?' nor a line feed, and
    that a query is stored or else the path holds no '#' and the fragment
    no '?'. *)
Theorem C1_round_trip :
  forall dir login dedot win nul uninit1 uninit2 U h s,
    curl_url dir login dedot win uninit1 U 0 = (CURLURLE_OK, Some h) ->
    scheme h = Some s ->
    exists out,
      curl_url_get dir nul h CURLUPART_URL 0 = inr out
      /\ (options h = None ->
          login_resplits login h ->
          path_stable dedot h ->
          query_marks_kept h ->
          curl_url dir login dedot win uninit2 out 0 = (CURLURLE_OK, Some h)).
Proof.
  intros dir login dedot win nul uninit1 uninit2 U h s.
  apply round_trip.
Qed.

Lemma C1_round_trip_witness :
  ref_curl_url [] (cs "http://user:pw@host:8080/a/../b?q=1#frag") 0
  = (CURLURLE_OK, Some handle_full)
  /\ scheme handle_full = Some (cs "http")
  /\ options handle_full = None
  /\ login_resplits parse_login_details handle_full
  /\ path_stable dedotdotify handle_full
  /\ query_marks_kept handle_full
  /\ exists out,
       ref_curl_url_get handle_full CURLUPART_URL 0 = inr out
       /\ ref_curl_url [] out 0 = (CURLURLE_OK, Some handle_full).
Proof.
  assert (Hl : login_resplits parse_login_details handle_full).
  { unfold login_resplits. simpl has_login. cbv iota.
    split; [reflexivity|]. split; reflexivity. }
  assert (Hp : path_stable dedotdotify handle_full).
  { unfold path_stable. simpl path. cbv iota.
    split; [reflexivity|]. split; [reflexivity|]. split; reflexivity. }
  assert (Hq : query_marks_kept handle_full).
  { left. discriminate. }
  split; [reflexivity|]. split; [reflexivity|]. split; [reflexivity|].
  split; [exact Hl|]. split; [exact Hp|]. split; [exact Hq|].
  destruct (C1_round_trip builtin_scheme parse_login_details dedotdotify false
              (cs "(nil)") [] []
              (cs "http://user:pw@host:8080/a/../b?q=1#frag")
              handle_full (cs "http") eq_refl eq_refl)
    as (out & Hget & Hback).
  exists out. split; [exact Hget|]. exact (Hback eq_refl Hl Hp Hq).
Defined.

(** C1 as stated fails: "http://h/p#a?" is accepted, its '?' cuts an empty
    query off the path "/p#a", the URL part is "http://h/p#a", and parsing
    that gives the path "/p" and the fragment "a". *)
Lemma C1_counterexample :
  exists h1 h2,
    ref_curl_url [] (cs "http://h/p#a?") 0 = (CURLURLE_OK, Some h1)
    /\ ref_curl_url_get h1 CURLUPART_URL 0 = inr (cs "http://h/p#a")
    /\ ref_curl_url [] (cs "http://h/p#a") 0 = (CURLURLE_OK, Some h2)
    /\ path h1 = Some (cs "/p#a") /\ fragment h1 = None
    /\ path h2 = Some (cs "/p") /\ fragment h2 = Some (cs "a")
    /\ path h1 <> path h2.
Proof.
  eexists. eexists. split; [reflexivity|]. split; [reflexivity|].
  split; [reflexivity|]. split; [reflexivity|]. split; [reflexivity|].
  split; [reflexivity|]. split; [reflexivity|]. discriminate.
Qed.

(** Two more ways the round trip breaks: the handle of a file: URL has no
    scheme, so that its URL part is refused; and the login options are not
    written. *)
Lemma round_trip_file_and_options :
  (exists h,
      ref_curl_url [] (cs "file:///etc/passwd") 0 = (CURLURLE_OK, Some h)
      /\ scheme h = None
      /\ ref_curl_url_get h CURLUPART_URL 0 = inl CURLURLE_NO_SCHEME)
  /\ (exists h1 h2,
         ref_curl_url [] (cs "imap://user;auth=x@host/") 0
         = (CURLURLE_OK, Some h1)
         /\ options h1 = Some (cs "auth=x")
         /\ ref_curl_url_get h1 CURLUPART_URL 0 = inr (cs "imap://user@host/")
         /\ ref_curl_url [] (cs "imap://user@host/") 0 = (CURLURLE_OK, Some h2)
         /\ options h2 = None).
Proof.
  split.
  - eexists. split; [reflexivity|]. split; reflexivity.
  - eexists. eexists. split; [reflexivity|]. split; [reflexivity|].
    split; [reflexivity|]. split; reflexivity.
Qed.

(** ** The two refusals, for every URL of their shape *)

Section RefusedShapes.

Variable Curl_builtin_scheme : cstring -> option Z.
Variable Curl_parse_login_details :
  cstring -> option (option cstring * option cstring * option cstring).
Variable Curl_dedotdotify : cstring -> cstring.
Variable WIN32 : bool.

Let parse := parseurl Curl_builtin_scheme Curl_parse_login_details
               Curl_dedotdotify WIN32.

(** A URL "scheme://host/path" without login whose host [parse_port]
    refuses is refused with the code of [parse_port]. *)
Lemma parse_written_port_failure uninit s hs tail e :
  s <> [] -> forallb scheme_byte s = true -> length s <= 15 ->
  check_scheme 16 (s ++ [":"]) && strncasecompare (s ++ [":"]) (cs "file:") 5
  = false ->
  Curl_builtin_scheme s <> None ->
  hs <> [] -> forallb host_byte hs = true ->
  char_at tail 0 = "/" -> forallb line_byte tail = true ->
  strchr hs "@" = None ->
  failed e = true ->
  (forall u, fst (fst (parse_port u hs)) = e) ->
  fst (parse uninit (s ++ ":" :: "/" :: "/" :: hs ++ tail) zero_handle 0) = e.
Proof.
  intros Hs Hsb Hsl Hfile Hdir Hh Hhb Ht Htb Hat He Hport.
  unfold parse, parseurl.
  rewrite (scheme_byte_not_colon s _ Hs Hsb).
  rewrite (file_test_of_scheme s _ [] Hs Hsb Hsl), Hfile.
  rewrite (parse_generic_written Curl_builtin_scheme s hs tail
             Hs Hsb Hsl Hh Hhb Ht Htb Hdir).
  cbv beta iota. apply parse_rest_port_failure; assumption.
Qed.

Lemma parse_port_colon_alone u name :
  Ascii.eqb (char_at name 0) "[" = false ->
  strchr name ":" = None ->
  fst (fst (parse_port u (name ++ [":"]))) = CURLURLE_BAD_PORT_NUMBER.
Proof.
  intros Hb Hc.
  assert (Hnb : no_bracket_match (name ++ [":"])).
  { unfold no_bracket_match, sscanf_bracket.
    destruct name as [|c0 name']; [exact I|].
    unfold char_at in Hb. simpl in Hb. simpl. now rewrite Hb. }
  rewrite (parse_port_generic _ _ Hnb).
  rewrite (strchr_app_here _ _ _ Hc).
  rewrite parse_port_at_no_digits; [reflexivity|].
  now rewrite skipn_app_cons.
Qed.

Lemma v6_is_host_byte c : v6set c = true -> host_byte c = true.
Proof. destruct c as [[] [] [] [] [] [] [] []]; vm_compute; congruence. Qed.

Lemma parse_port_bracket_alone u lit :
  lit <> [] -> forallb v6set lit = true -> length lit <= 45 ->
  fst (fst (parse_port u ("[" :: lit ++ ["]"]))) = CURLURLE_MALFORMED_INPUT.
Proof.
  intros Hne Hall Hlen. unfold parse_port.
  rewrite (sscanf_bracket_build lit "]" [] Hne Hall Hlen eq_refl).
  rewrite Ascii.eqb_refl. rewrite char_at_end. reflexivity.
Qed.

(** Every URL "scheme://name:/path" with a registered scheme and a plain
    host name ends in the bad-port-number error. *)
Lemma colon_without_digits_refused uninit s name tail :
  s <> [] -> forallb scheme_byte s = true -> length s <= 15 ->
  check_scheme 16 (s ++ [":"]) && strncasecompare (s ++ [":"]) (cs "file:") 5
  = false ->
  Curl_builtin_scheme s <> None ->
  forallb host_byte name = true ->
  Ascii.eqb (char_at name 0) "[" = false ->
  strchr name ":" = None -> strchr name "@" = None ->
  char_at tail 0 = "/" -> forallb line_byte tail = true ->
  fst (parse uninit (s ++ ":" :: "/" :: "/" :: (name ++ [":"]) ++ tail)
         zero_handle 0)
  = CURLURLE_BAD_PORT_NUMBER.
Proof.
  intros Hs Hsb Hsl Hfile Hdir Hnb Hbr Hc Hat Ht Htb.
  apply parse_written_port_failure; auto.
  - destruct name; discriminate.
  - now apply forallb_app_join.
  - now apply strchr_app_none.
  - intros u. now apply parse_port_colon_alone.
Qed.

(** Every URL "scheme://[literal]/path" with a registered scheme and no
    port ends in the malformed-input error. *)
Lemma ipv6_without_port_refused uninit s lit tail :
  s <> [] -> forallb scheme_byte s = true -> length s <= 15 ->
  check_scheme 16 (s ++ [":"]) && strncasecompare (s ++ [":"]) (cs "file:") 5
  = false ->
  Curl_builtin_scheme s <> None ->
  lit <> [] -> forallb v6set lit = true -> length lit <= 45 ->
  char_at tail 0 = "/" -> forallb line_byte tail = true ->
  fst (parse uninit (s ++ ":" :: "/" :: "/" :: ("[" :: lit ++ ["]"]) ++ tail)
         zero_handle 0)
  = CURLURLE_MALFORMED_INPUT.
Proof.
  intros Hs Hsb Hsl Hfile Hdir Hne Hall Hlen Ht Htb.
  assert (Hlb : forallb host_byte lit = true)
    by exact (forallb_impl _ _ _ v6_is_host_byte Hall).
  apply parse_written_port_failure; auto.
  - discriminate.
  - change ("[" :: lit ++ ["]"]) with (["["] ++ lit ++ ["]"]).
    apply forallb_app_join; [reflexivity|].
    now apply forallb_app_join.
  - change ("[" :: lit ++ ["]"]) with (["["] ++ lit ++ ["]"]).
    apply strchr_app_none; [reflexivity|].
    apply strchr_app_none; [|reflexivity].
    apply (strchr_none_of_forallb v6set); [assumption|reflexivity].
  - intros u. now apply parse_port_bracket_alone.
Qed.

End RefusedShapes.

(** The two lemmas at "http://example.com:/index.html" and at
    "http://[2001:db8::1]/index.html". *)
Lemma refused_shapes_examples :
  fst (ref_parseurl [] (cs "http://example.com:/index.html") zero_handle 0)
  = CURLURLE_BAD_PORT_NUMBER
  /\ fst (ref_parseurl [] (cs "http://[2001:db8::1]/index.html") zero_handle 0)
     = CURLURLE_MALFORMED_INPUT.
Proof.
  split.
  - apply (colon_without_digits_refused builtin_scheme parse_login_details
             dedotdotify false [] (cs "http") (cs "example.com")
             (cs "/index.html"));
      first [reflexivity | discriminate | (simpl; lia)].
  - apply (ipv6_without_port_refused builtin_scheme parse_login_details
             dedotdotify false [] (cs "http") (cs "2001:db8::1")
             (cs "/index.html"));
      first [reflexivity | discriminate | (simpl; lia)].
Qed.

(** * Further properties of the escaper *)

Lemma has_prefix_length p s : has_prefix p s = true -> length p <= length s.
Proof.
  revert s; induction p as [|a p IH]; intros [|b s]; simpl;
    try lia; try discriminate.
  intro H. apply andb_prop in H. specialize (IH s (proj2 H)). lia.
Qed.

Lemma strstr_bound pat s :
  forall i, strstr s pat = Some i -> i + length pat <= length s.
Proof.
  induction s as [|c s IH]; intros i; simpl.
  - destruct (has_prefix pat []) eqn:E; [|discriminate].
    intros [= <-]. apply has_prefix_length in E. simpl in *; lia.
  - destruct (has_prefix pat (c :: s)) eqn:E.
    + intros [= <-]. apply has_prefix_length in E. simpl in *. lia.
    + destruct (strstr s pat) as [k|] eqn:E2; simpl; [|discriminate].
      intros [= <-]. specialize (IH _ eq_refl). lia.
Qed.

Lemma host_start_bound url : host_start url <= length url.
Proof.
  unfold host_start. destruct (strstr url (cs "//")) as [i|] eqn:E; [|lia].
  apply strstr_bound in E. simpl in E. lia.
Qed.

Lemma strchr_before s c :
  forall i j, strchr s c = Some i -> j < i -> char_at s j <> c.
Proof.
  unfold char_at.
  induction s as [|x s IH]; intros i j; simpl; [discriminate|].
  destruct (Ascii.eqb_spec x c) as [->|Hx].
  - intros [= <-]. lia.
  - destruct (strchr s c) as [k|] eqn:E; simpl; [|discriminate].
    intros [= <-] Hj. destruct j as [|j]; [assumption|].
    apply (IH k); [reflexivity|lia].
Qed.

Lemma strchr_none_nth s c :
  forall j, strchr s c = None -> j < length s -> char_at s j <> c.
Proof.
  unfold char_at.
  induction s as [|x s IH]; intros j; simpl; [lia|].
  destruct (Ascii.eqb_spec x c) as [->|Hx]; [discriminate|].
  destruct (strchr s c) as [k|] eqn:E; simpl; [discriminate|].
  intros _ Hj. destruct j as [|j]; [assumption|].
  apply IH; [reflexivity|lia].
Qed.

Lemma char_at_skipn s k j : char_at (skipn k s) j = char_at s (k + j).
Proof.
  unfold char_at. revert s; induction k as [|k IH]; intros s; [reflexivity|].
  destruct s as [|x s]; simpl; [now destruct j|]. apply IH.
Qed.

(** The first [c] at or after offset [k]: where it is, and that there is
    none before it. *)
Lemma strchr_from s c k :
  match strchr (skipn k s) c with
  | Some i =>
      k + i < length s /\ char_at s (k + i) = c
      /\ forall j, k <= j < k + i -> char_at s j <> c
  | None => forall j, k <= j < length s -> char_at s j <> c
  end.
Proof.
  destruct (strchr (skipn k s) c) as [i|] eqn:E.
  - split; [|split].
    + apply strchr_bound in E. rewrite length_skipn in E. lia.
    + rewrite <- char_at_skipn. exact (strchr_nth _ _ _ E).
    + intros j Hj. replace j with (k + (j - k)) by lia.
      rewrite <- char_at_skipn. apply (strchr_before _ _ i); [assumption|lia].
  - intros j Hj. replace j with (k + (j - k)) by lia.
    rewrite <- char_at_skipn. apply strchr_none_nth; [assumption|].
    rewrite length_skipn. lia.
Qed.

Lemma find_host_sep_spec (url : cstring) :
  host_start url <= find_host_sep url <= length url
  /\ (find_host_sep url < length url ->
      char_at url (find_host_sep url) = "/"
      \/ char_at url (find_host_sep url) = "?")
  /\ (forall i, host_start url <= i < find_host_sep url ->
      char_at url i <> "/" /\ char_at url i <> "?").
Proof.
  pose proof (host_start_bound url) as Hs.
  pose proof (strchr_from url "/" (host_start url)) as Hsl.
  pose proof (strchr_from url "?" (host_start url)) as Hq.
  unfold find_host_sep.
  destruct (strchr (skipn (host_start url) url) "/") as [i|];
    destruct (strchr (skipn (host_start url) url) "?") as [q|].
  - destruct Hsl as (Hi1 & Hi2 & Hi3), Hq as (Hq1 & Hq2 & Hq3).
    destruct (Nat.ltb_spec (host_start url + i) (host_start url + q)).
    + split; [lia|]. split; [now left|].
      intros j Hj. split; [apply Hi3|apply Hq3]; lia.
    + split; [lia|]. split; [now right|].
      intros j Hj. split; [apply Hi3|apply Hq3]; lia.
  - destruct Hsl as (Hi1 & Hi2 & Hi3).
    destruct (Nat.ltb_spec (host_start url + i) (length url)); [|lia].
    split; [lia|]. split; [now left|].
    intros j Hj. split; [apply Hi3|apply Hq]; lia.
  - destruct Hq as (Hq1 & Hq2 & Hq3).
    destruct (Nat.ltb_spec (length url) (host_start url + q)); [lia|].
    split; [lia|]. split; [now right|].
    intros j Hj. split; [apply Hsl|apply Hq3]; lia.
  - destruct (Nat.ltb_spec (length url) (length url));
      (split; [lia|]; split; [lia|]);
      intros j Hj; (split; [apply Hsl|apply Hq]; lia).
Qed.

(** X1. The pointer that find_host_sep returns lies in the string, at or
    behind the start of the host name; it points at the terminator, at a
    '/' or at a '?', and no '/' and no '?' stands between the start of the
    host name and it. *)
Theorem find_host_sep_points (url : cstring) :
  host_start url <= find_host_sep url <= length url
  /\ (find_host_sep url < length url ->
      char_at url (find_host_sep url) = "/"
      \/ char_at url (find_host_sep url) = "?")
  /\ (forall i, host_start url <= i < find_host_sep url ->
      char_at url i <> "/" /\ char_at url i <> "?").
Proof. apply find_host_sep_spec. Qed.

Section EscaperBounds.

Variable needs : ascii -> bool.

Lemma strlen_url_loop_bounds s :
  forall host_sep pos left n,
    n + length s <= strlen_url_loop needs host_sep pos left n s
    /\ strlen_url_loop needs host_sep pos left n s <= n + 3 * length s.
Proof.
  induction s as [|c s IH]; intros host_sep pos left n; simpl; [lia|].
  destruct (pos <? host_sep).
  - specialize (IH host_sep (S pos) left (S n)). lia.
  - destruct (Ascii.eqb c "?").
    + destruct (needs c).
      * specialize (IH host_sep (S pos) false (S (n + 2))). lia.
      * specialize (IH host_sep (S pos) false (S n)). lia.
    + destruct (Ascii.eqb c " ").
      * destruct left.
        -- specialize (IH host_sep (S pos) true (n + 3)). lia.
        -- specialize (IH host_sep (S pos) false (S n)). lia.
      * destruct (needs c).
        -- specialize (IH host_sep (S pos) left (S (n + 2))). lia.
        -- specialize (IH host_sep (S pos) left (S n)). lia.
Qed.

(** The loop copies a run of plain bytes as it is. *)
Lemma strcpy_url_loop_plain s :
  forall host_sep pos left out,
    forallb (fun c => negb (Ascii.eqb c " ") && negb (needs c)) s = true ->
    strcpy_url_loop needs host_sep pos left out s = out ++ s.
Proof.
  induction s as [|c s IH]; intros host_sep pos left out H; simpl.
  - now rewrite app_nil_r.
  - simpl in H. apply andb_prop in H. destruct H as [Hc Hs].
    apply andb_prop in Hc. destruct Hc as [Hsp Hn].
    apply negb_true_iff in Hsp. apply negb_true_iff in Hn.
    rewrite Hsp, Hn.
    replace (out ++ c :: s) with ((out ++ [c]) ++ s)
      by (now rewrite <- app_assoc).
    destruct (pos <? host_sep); [now apply IH|].
    destruct (Ascii.eqb c "?"); now apply IH.
Qed.

Lemma strlen_url_le url relative :
  length url <= Curl_strlen_url needs url relative
  /\ Curl_strlen_url needs url relative <= 3 * length url.
Proof.
  unfold Curl_strlen_url.
  pose proof (strlen_url_loop_bounds url
                (if relative then 0 else find_host_sep url) 0 true 0).
  lia.
Qed.

End EscaperBounds.

(** X2. The length that Curl_strlen_url computes is at least the length
    of the URL and at most three times that length. *)
Theorem strlen_url_bounds (url : cstring) (relative : bool) :
  length url <= Curl_strlen_url urlchar_needs_escaping url relative
  /\ Curl_strlen_url urlchar_needs_escaping url relative <= 3 * length url.
Proof. apply strlen_url_le. Qed.

(** X3. Curl_strcpy_url copies a URL that holds no space and no byte that
    needs escaping as it is, with either value of the relative flag. *)
Theorem strcpy_url_plain (url : cstring) (relative : bool) :
  forallb plain_byte url = true ->
  Curl_strcpy_url urlchar_needs_escaping url relative = url.
Proof.
  intro H. unfold Curl_strcpy_url.
  now rewrite strcpy_url_loop_plain.
Qed.

Lemma strcpy_url_plain_witness :
  forallb plain_byte (cs "http://example.com/a%20b?c=d") = true
  /\ Curl_strcpy_url urlchar_needs_escaping
       (cs "http://example.com/a%20b?c=d") false
     = cs "http://example.com/a%20b?c=d".
Proof.
  split; [reflexivity|].
  apply (strcpy_url_plain (cs "http://example.com/a%20b?c=d") false).
  reflexivity.
Defined.

(** * The test for an absolute URL *)

(** X5. Curl_is_absolute_url accepts exactly the strings made of one to
    fifteen bytes other than '?', '&', '/' and ':', then "://", then at
    least one more byte. *)
Theorem is_absolute_url_shape (url : cstring) :
  Curl_is_absolute_url url = true
  <-> exists prot c rest,
        url = prot ++ cs "://" ++ c :: rest
        /\ prot <> [] /\ length prot <= 15
        /\ forallb prot_byte prot = true.
Proof.
  unfold Curl_is_absolute_url. split.
  - destruct (scan_set (not_in_set ["?"; "&"; "/"; ":"]) 15 url)
      as [prot r1] eqn:E.
    destruct (scan_set_spec _ _ _ _ _ E) as (S1 & S2 & S3).
    destruct prot as [|p0 prot]; [discriminate|].
    destruct r1 as [|c1 [|c2 [|c3 [|c r]]]]; try discriminate.
    intro H. apply andb_prop in H. destruct H as [H H3].
    apply andb_prop in H. destruct H as [H1 H2].
    apply Ascii.eqb_eq in H1, H2, H3. subst c1 c2 c3.
    exists (p0 :: prot), c, r.
    split; [exact S1|]. split; [discriminate|]. split; [exact S3|exact S2].
  - intros (prot & c & rest & -> & Hne & Hlen & Hall).
    rewrite (scan_set_app (not_in_set ["?"; "&"; "/"; ":"]) prot 15
               (cs "://" ++ c :: rest)); [|exact Hall|exact Hlen|reflexivity].
    destruct prot; [contradiction|]. reflexivity.
Qed.

(** * Further properties of the resolver *)

Lemma skip_dotdot_eq level s :
  skip_dotdot level s
  = if has_prefix (cs "../") s then skip_dotdot (S level) (skipn 3 s)
    else (level, s).
Proof.
  destruct s as [|a [|b [|c r]]]; [reflexivity| | |].
  - destruct a as [[] [] [] [] [] [] [] []]; reflexivity.
  - destruct a as [[] [] [] [] [] [] [] []]; try reflexivity;
      destruct b as [[] [] [] [] [] [] [] []]; reflexivity.
  - destruct a as [[] [] [] [] [] [] [] []]; try reflexivity;
      destruct b as [[] [] [] [] [] [] [] []]; try reflexivity;
      destruct c as [[] [] [] [] [] [] [] []]; reflexivity.
Qed.

Lemma skip_dotdot_length n :
  forall s level,
    length s <= n -> length (snd (skip_dotdot level s)) <= length s.
Proof.
  induction n as [|n IH]; intros s level Hn; rewrite skip_dotdot_eq;
    destruct (has_prefix (cs "../") s) eqn:E; try (simpl; lia);
    pose proof (has_prefix_length _ _ E) as Hl; simpl in Hl; [lia|].
  assert (Hk : length (skipn 3 s) <= n) by (rewrite length_skipn; lia).
  specialize (IH _ (S level) Hk). rewrite length_skipn in *. lia.
Qed.

Lemma cut_of_refl k base : k <= length base -> cut_of k base base.
Proof. unfold cut_of. auto. Qed.

Lemma cut_of_firstn k base clone m :
  cut_of k base clone -> k <= m -> cut_of k base (firstn m clone).
Proof.
  intros (H1 & H2 & H3) Hm. unfold cut_of.
  rewrite firstn_firstn, length_firstn.
  replace (Nat.min k m) with k by lia. split; [exact H1|lia].
Qed.

Lemma cut_of_levels k base level :
  forall p clone,
    cut_of k base clone -> k <= p -> cut_of k base (cut_levels level p clone).
Proof.
  induction level as [|level IH]; intros p clone H Hp; simpl; [exact H|].
  destruct (strrchr (skipn p clone) "/") as [i|].
  - apply IH; [|exact Hp]. apply cut_of_firstn; [exact H|lia].
  - apply cut_of_firstn; [exact H|exact Hp].
Qed.

Lemma slash_or_not (b : bool) (clone tail : cstring) :
  exists slash,
    (if b then clone else clone ++ ["/"]) ++ tail = clone ++ slash ++ tail
    /\ length slash <= 1.
Proof.
  destruct b.
  - exists []. split; [reflexivity|simpl; lia].
  - exists ["/"]. split; [now rewrite <- app_assoc|simpl; lia].
Qed.

Section Resolver.

Variable needs : ascii -> bool.

(** What the resolver returns is the base cut at or behind the start of
    its host name, then at most one '/', then the escaped copy of a tail
    of the reference. *)
Lemma concat_url_form base relurl :
  exists clone slash useurl b,
    Curl_concat_url needs base relurl
    = clone ++ slash ++ Curl_strcpy_url needs useurl b
    /\ cut_of (host_start base) base clone
    /\ length slash <= 1
    /\ length useurl <= length relurl.
Proof.
  pose proof (cut_of_refl _ _ (host_start_bound base)) as K.
  unfold Curl_concat_url.
  destruct (negb (Ascii.eqb (char_at relurl 0) "/")).
  - set (c1 := match strchr (skipn (host_start base) base) "?" with
               | Some i => firstn (host_start base + i) base
               | None => base
               end).
    assert (K1 : cut_of (host_start base) base c1).
    { unfold c1. destruct (strchr _ "?");
        [apply cut_of_firstn; [exact K|lia]|exact K]. }
    set (c2 := if negb (Ascii.eqb (char_at relurl 0) "?")
               then match strrchr (skipn (host_start base) c1) "/" with
                    | Some i => firstn (host_start base + i) c1
                    | None => c1
                    end
               else c1).
    assert (K2 : cut_of (host_start base) base c2).
    { unfold c2. destruct (negb _); [|exact K1].
      destruct (strrchr _ "/");
        [apply cut_of_firstn; [exact K1|lia]|exact K1]. }
    set (u0 := if Ascii.eqb (char_at relurl 0) "."
                  && Ascii.eqb (char_at relurl 1) "/"
               then skipn 2 relurl else relurl).
    assert (Hu0 : length u0 <= length relurl).
    { unfold u0. destruct (_ && _); [rewrite length_skipn|]; lia. }
    pose proof (skip_dotdot_length (length u0) u0 0 (le_n _)) as Hu.
    destruct (skip_dotdot 0 u0) as [level useurl]. simpl in Hu.
    cbv beta match zeta.
    set (c3 := match strchr (skipn (host_start base) c2) "/" with
               | Some i => cut_levels level (host_start base + i + 1) c2
               | None => c2
               end).
    assert (K3 : cut_of (host_start base) base c3).
    { unfold c3. destruct (strchr _ "/");
        [apply cut_of_levels; [exact K2|lia]|exact K2]. }
    match goal with
    | |- exists _ _ _ _, (if ?b then _ else _) ++ ?t = _ /\ _ =>
        destruct (slash_or_not b c3 t) as (slash & E & Hs)
    end.
    exists c3, slash, useurl, (negb false).
    split; [|split; [exact K3|split; [exact Hs|lia]]].
    etransitivity; [|exact E]. unfold c3. destruct (strchr _ "/"); reflexivity.
  - destruct (Ascii.eqb (char_at relurl 0) "/"
              && Ascii.eqb (char_at relurl 1) "/").
    + cbv beta match zeta.
      match goal with
      | |- exists _ _ _ _, (if ?b then ?c else _) ++ ?t = _ /\ _ =>
          destruct (slash_or_not b c t) as (slash & E & Hs)
      end.
      exists (firstn (host_start base) base), slash, (skipn 2 relurl),
        (negb true).
      split; [exact E|]. split; [apply cut_of_firstn; [exact K|lia]|].
      split; [exact Hs|rewrite length_skipn; lia].
    + cbv beta match zeta.
      match goal with
      | |- exists _ _ _ _, (if ?b then ?c else _) ++ ?t = _ /\ _ =>
          destruct (slash_or_not b c t) as (slash & E & Hs);
          exists c, slash, relurl, (negb false)
      end.
      split; [exact E|]. split; [|split; [exact Hs|lia]].
      destruct (strchr (skipn (host_start base) base) "/") as [i|];
        destruct (strchr (skipn (host_start base) base) "?") as [q|];
        try (destruct (q <? i));
        try (apply cut_of_firstn; [exact K|lia]); exact K.
Qed.

End Resolver.

(** X6. Curl_concat_url never changes what the base has in front of its
    host name: the result starts with the bytes of the base up to and with
    the first "//". *)
Theorem concat_url_keeps_scheme (base relurl : cstring) :
  firstn (host_start base)
    (Curl_concat_url urlchar_needs_escaping base relurl)
  = firstn (host_start base) base.
Proof.
  destruct (concat_url_form urlchar_needs_escaping base relurl)
    as (clone & slash & useurl & b & -> & (K1 & K2 & K3) & _).
  rewrite firstn_app.
  replace (host_start base - length clone) with 0 by lia.
  simpl. rewrite app_nil_r. exact K1.
Qed.

(** X7. The URL that Curl_concat_url returns is never longer than the
    base, one '/' and three times the reference together. *)
Theorem concat_url_length (base relurl : cstring) :
  length (Curl_concat_url urlchar_needs_escaping base relurl)
  <= length base + 1 + 3 * length relurl.
Proof.
  destruct (concat_url_form urlchar_needs_escaping base relurl)
    as (clone & slash & useurl & b & -> & (K1 & K2 & K3) & Hs & Hu).
  rewrite !length_app.
  rewrite <- (strlen_url_is_length urlchar_needs_escaping useurl b).
  pose proof (strlen_url_le urlchar_needs_escaping useurl b). lia.
Qed.

Lemma char_at_firstn_end (s : cstring) k : char_at (firstn k s) k = NUL.
Proof.
  unfold char_at. apply nth_overflow. rewrite length_firstn. lia.
Qed.

(** X8. A reference that starts with "//" replaces all of the base from
    its host name on: the result is the base up to and with its first
    "//" (nothing of it when it has none), then the rest of the reference
    escaped as a full URL. *)
Theorem concat_url_network_path (base r : cstring) :
  Curl_concat_url urlchar_needs_escaping base ("/" :: "/" :: r)
  = firstn (host_start base) base
    ++ Curl_strcpy_url urlchar_needs_escaping r false.
Proof.
  unfold Curl_concat_url.
  change (char_at ("/" :: "/" :: r) 0) with "/"%char.
  change (char_at ("/" :: "/" :: r) 1) with "/"%char.
  rewrite Ascii.eqb_refl. cbv beta match zeta. cbn [negb andb].
  cbv beta match zeta.
  rewrite char_at_firstn_end, (Ascii.eqb_refl NUL), orb_true_r.
  reflexivity.
Qed.

(** X9. A reference that starts with one '/' replaces all of the base from
    the end of its host name on, the end that find_host_sep finds: the
    result is the base up to there, then the escaped reference. *)
Theorem concat_url_absolute_path (base p : cstring) :
  char_at p 0 <> "/" ->
  Curl_concat_url urlchar_needs_escaping base ("/" :: p)
  = firstn (find_host_sep base) base
    ++ Curl_strcpy_url urlchar_needs_escaping ("/" :: p) true.
Proof.
  intro Hp. unfold Curl_concat_url.
  change (char_at ("/" :: p) 0) with "/"%char.
  change (char_at ("/" :: p) 1) with (char_at p 0).
  rewrite Ascii.eqb_refl.
  destruct (Ascii.eqb_spec (char_at p 0) "/") as [E|_]; [contradiction|].
  cbn [negb andb]. cbv beta match zeta. cbn [orb negb].
  f_equal. unfold find_host_sep.
  pose proof (strchr_from base "/" (host_start base)) as Hsl.
  pose proof (strchr_from base "?" (host_start base)) as Hq.
  destruct (strchr (skipn (host_start base) base) "/") as [i|];
    destruct (strchr (skipn (host_start base) base) "?") as [q|].
  - destruct (Nat.ltb_spec q i);
      destruct (Nat.ltb_spec (host_start base + i) (host_start base + q));
      try reflexivity; try lia.
    replace q with i by lia. reflexivity.
  - destruct (Nat.ltb_spec (host_start base + i) (length base));
      [reflexivity|]. destruct Hsl. lia.
  - destruct (Nat.ltb_spec (length base) (host_start base + q));
      [|reflexivity]. destruct Hq. lia.
  - rewrite Nat.ltb_irrefl. now rewrite firstn_all.
Qed.

Lemma concat_url_absolute_path_witness :
  char_at (cs "x y") 0 <> "/"
  /\ Curl_concat_url urlchar_needs_escaping (cs "http://a.b/c/d?e")
       ("/" :: cs "x y")
     = cs "http://a.b/x%20y".
Proof.
  split; [discriminate|].
  rewrite (concat_url_absolute_path (cs "http://a.b/c/d?e") (cs "x y"));
    [reflexivity|discriminate].
Defined.

(** * Further properties of the host name check and of the port *)

Lemma strspn_full l s :
  strspn s l = length s <-> forallb (in_set l) s = true.
Proof.
  induction s as [|x s IH]; simpl; [tauto|].
  fold (in_set l x). destruct (in_set l x); simpl.
  - rewrite <- IH. split; [now intros [= ->]|now intros ->].
  - split; discriminate.
Qed.

Lemma strspn_app_stop l X c r :
  forallb (in_set l) X = true -> in_set l c = false ->
  strspn (X ++ c :: r) l = length X.
Proof.
  intros HX Hc. induction X as [|x X IH]; simpl.
  - fold (in_set l c). now rewrite Hc.
  - simpl in HX. apply andb_prop in HX as [Hx HX].
    fold (in_set l x). rewrite Hx. now rewrite IH.
Qed.

Lemma hostname_check_names (hostname : cstring) (flags : Z) :
  char_at hostname 0 <> "[" ->
  (hostname_check hostname flags = CURLURLE_OK
   <-> forallb name_byte hostname = true).
Proof.
  intro Hb. unfold hostname_check.
  destruct (Ascii.eqb_spec (char_at hostname 0) "[") as [E|_]; [contradiction|].
  cbv beta match zeta. unfold name_byte.
  set (l := cs "0123456789abcdefghijklimnopqrstuvwxyz-.ABCDEFGHIJKLIMNOPQRSTUVWXYZ").
  rewrite <- strspn_full.
  destruct (Z.eqb_spec (Z.of_nat (length hostname))
              (Z.of_nat (strspn hostname l))) as [E|E]; simpl.
  - split; [intros _; lia|reflexivity].
  - split; [discriminate|intros E'; rewrite E' in E; contradiction].
Qed.

(** X10. A host name that does not start with '[' passes hostname_check
    exactly when each of its bytes is a digit, a letter, '-' or '.'. *)
Theorem hostname_check_plain (hostname : cstring) (flags : Z) :
  char_at hostname 0 <> "[" ->
  (hostname_check hostname flags = CURLURLE_OK
   <-> forallb name_byte hostname = true).
Proof. apply hostname_check_names. Qed.

Lemma hostname_check_plain_witness :
  char_at (cs "www.example.com") 0 <> "["
  /\ hostname_check (cs "www.example.com") 0 = CURLURLE_OK.
Proof.
  split; [discriminate|].
  apply (hostname_check_plain (cs "www.example.com") 0);
    [discriminate|reflexivity].
Defined.

(** X11. A host name that starts with '[' passes hostname_check exactly
    when what follows the '[' is a run of hexadecimal digits, ':' and '.'
    and then one single byte that is none of these: the check does not
    ask for that byte to be a ']'. *)
Theorem hostname_check_bracketed (literal : cstring) (flags : Z) :
  (Z.of_nat (length literal) < 2 ^ SIZE_WIDTH)%Z ->
  (hostname_check ("[" :: literal) flags = CURLURLE_OK
   <-> exists X c,
         literal = X ++ [c]
         /\ forallb literal_byte X = true /\ literal_byte c = false).
Proof.
  intro Hlen. unfold hostname_check.
  change (Ascii.eqb (char_at ("[" :: literal) 0) "[") with true. cbv iota.
  change (skipn 1 ("[" :: literal)) with literal. unfold literal_byte.
  set (l := cs "0123456789abcdefABCDEF::.").
  cbv beta zeta. unfold size_t_wrap. cbn [length].
  destruct (strspn_spec l literal) as (Hall & Hstop & Hle).
  split.
  - destruct (Z.eqb_spec
                ((Z.of_nat (S (length literal)) - 2) mod 2 ^ SIZE_WIDTH)
                (Z.of_nat (strspn literal l))) as [E|E]; [|discriminate].
    intros _.
    assert (Hn : S (strspn literal l) = length literal).
    { destruct literal as [|a t].
      - simpl in E. unfold SIZE_WIDTH in E. simpl in E. discriminate.
      - rewrite Z.mod_small in E by (cbn [length] in *; lia).
        cbn [length] in *. lia. }
    exists (firstn (strspn literal l) literal).
    destruct (skipn (strspn literal l) literal) as [|c rest] eqn:Hsk.
    + apply (f_equal (@length ascii)) in Hsk. rewrite length_skipn in Hsk.
      simpl in Hsk. lia.
    + assert (rest = []) as ->.
      { apply (f_equal (@length ascii)) in Hsk. rewrite length_skipn in Hsk.
        simpl in Hsk. destruct rest; [reflexivity|simpl in Hsk; lia]. }
      exists c. split; [|split; [exact Hall|exact Hstop]].
      rewrite <- Hsk. symmetry. apply firstn_skipn.
  - intros (X & c & -> & HX & Hc).
    rewrite (strspn_app_stop l X c [] HX Hc).
    rewrite length_app in *. cbn [length] in *.
    rewrite Z.mod_small by lia.
    destruct (Z.eqb_spec (Z.of_nat (S (length X + 1)) - 2)
                (Z.of_nat (length X))) as [E|E]; [reflexivity|lia].
Qed.

Lemma hostname_check_bracketed_witness :
  (Z.of_nat (length (cs "::1x")) < 2 ^ SIZE_WIDTH)%Z
  /\ hostname_check (cs "[::1x") 0 = CURLURLE_OK.
Proof.
  split; [reflexivity|].
  apply (hostname_check_bracketed (cs "::1x") 0); [reflexivity|].
  exists (cs "::1"), "x"%char. repeat split; reflexivity.
Defined.

(** ** Leading zeros in the port *)

Lemma scan_digits_zeros k r :
  scan_digits 0 (repeat "0"%char k ++ r)
  = let '(v, n) := scan_digits 0 r in (v, k + n).
Proof.
  induction k as [|k IH]; cbn [repeat app].
  - destruct (scan_digits 0 r); reflexivity.
  - rewrite scan_digits_cons by reflexivity.
    change (0 * 10 + digit_value "0")%Z with 0%Z. rewrite IH.
    destruct (scan_digits 0 r); reflexivity.
Qed.

(** The text written for a port is a run of digits that reads as the
    port. *)
Lemma port_text_scan v :
  (0 < v <= 65535)%Z ->
  snprintf_portbuf v <> []
  /\ forallb ISDIGIT (snprintf_portbuf v) = true
  /\ scan_digits 0 (snprintf_portbuf v) = (v, length (snprintf_portbuf v)).
Proof.
  intros Hv. unfold snprintf_portbuf, print_ld.
  assert ((v <? 0)%Z = false) as -> by (apply Z.ltb_ge; lia).
  destruct (print_digits_spec 19 5 v [])
    as (ds & Hp & Hne & Hall & Hlen & Hscan); [lia|simpl; lia|].
  rewrite Hp, app_nil_r. rewrite firstn_all2 by lia.
  split; [exact Hne|]. split; [exact Hall|].
  specialize (Hscan 0%Z []). rewrite app_nil_r in Hscan. rewrite Hscan.
  cbn [scan_digits]. f_equal. lia.
Qed.

(** [strtol] on a run of digits. *)
Lemma strtol_digits t v :
  t <> [] -> forallb ISDIGIT t = true ->
  scan_digits 0 t = (v, length t) ->
  (LONG_MIN <= v <= LONG_MAX)%Z ->
  strtol t = (v, length t).
Proof.
  intros Hne Hall Hscan Hv. destruct t as [|c t']; [contradiction|].
  assert (Hc : ISDIGIT c = true).
  { change (forallb ISDIGIT (c :: t'))
      with (ISDIGIT c && forallb ISDIGIT t') in Hall.
    exact (proj1 (andb_prop _ _ Hall)). }
  destruct (digit_not_sign c Hc) as (Hsp & Hminus & Hplus).
  set (t := c :: t') in *. unfold strtol.
  assert (count_space t = 0) as -> by (unfold t; simpl; now rewrite Hsp).
  cbn [skipn]. unfold t at 1 2. unfold char_at. cbn [nth].
  rewrite Hminus, Hplus. cbn [skipn]. fold t. rewrite Hscan.
  assert (E : (length t =? 0) = false) by (unfold t; reflexivity).
  rewrite E. f_equal. lia.
Qed.

Lemma forallb_repeat (p : ascii -> bool) c k :
  p c = true -> forallb p (repeat c k) = true.
Proof. intro H. induction k; simpl; [reflexivity|now rewrite H]. Qed.

Lemma sscanf_bracket_other hn :
  char_at hn 0 <> "[" -> sscanf_bracket hn = None.
Proof.
  destruct hn as [|c r]; [reflexivity|]. unfold char_at. cbn [nth].
  intros H. unfold sscanf_bracket.
  destruct (Ascii.eqb_spec c "["); [contradiction|reflexivity].
Qed.

(** X12. parse_port reads a port with leading zeros as the same port
    without them: behind a host name that has no ':' and no '[' in front,
    any number of '0' and then the decimal text of a port from 1 to 65535
    stores that text and that number, and leaves the host name. *)
Theorem parse_port_leading_zeros (u : Curl_URL) (name : cstring) (k : nat)
    (v : Z) :
  strchr name ":" = None ->
  char_at name 0 <> "[" ->
  (0 < v <= 65535)%Z ->
  parse_port u (name ++ ":" :: repeat "0"%char k ++ snprintf_portbuf v)
  = (CURLURLE_OK,
     set_port (set_portnum u v) (Some (snprintf_portbuf v)), name).
Proof.
  intros Hcolon Hb Hv. unfold parse_port.
  rewrite sscanf_bracket_other.
  2:{ destruct name as [|c r]; [discriminate|exact Hb]. }
  rewrite (strchr_app_here _ _ _ Hcolon).
  unfold parse_port_at. rewrite skipn_app_cons.
  destruct (port_text_scan v Hv) as (Hne & Hall & Hscan).
  set (t := repeat "0"%char k ++ snprintf_portbuf v).
  assert (Hstr : strtol t = (v, length t)).
  { apply strtol_digits.
    - unfold t. destruct (snprintf_portbuf v); [contradiction|].
      destruct (repeat "0"%char k); discriminate.
    - unfold t. rewrite forallb_app, Hall, forallb_repeat; reflexivity.
    - unfold t. rewrite scan_digits_zeros, Hscan.
      rewrite length_app, repeat_length. reflexivity.
    - unfold LONG_MIN, LONG_MAX. lia. }
  rewrite Hstr.
  assert (((v <=? 0)%Z || (v >? 65535)%Z) = false) as ->.
  { apply orb_false_iff. split; [apply Z.leb_gt; lia|].
    rewrite Z.gtb_ltb. apply Z.ltb_ge. lia. }
  rewrite char_at_end, Ascii.eqb_refl. cbn [negb].
  assert ((length t =? 0) = false) as ->.
  { apply Nat.eqb_neq. unfold t. rewrite length_app.
    destruct (snprintf_portbuf v); [contradiction|]. simpl. lia. }
  cbn [negb]. now rewrite firstn_app_exact.
Qed.

Lemma parse_port_leading_zeros_witness :
  strchr (cs "example.com") ":" = None
  /\ char_at (cs "example.com") 0 <> "["
  /\ (0 < 80 <= 65535)%Z
  /\ parse_port zero_handle (cs "example.com" ++ ":" :: cs "00080")
     = (CURLURLE_OK,
        set_port (set_portnum zero_handle 80) (Some (cs "80")),
        cs "example.com").
Proof.
  split; [reflexivity|]. split; [discriminate|]. split; [lia|].
  apply (parse_port_leading_zeros zero_handle (cs "example.com") 3 80);
    [reflexivity|discriminate|lia].
Defined.

(** * What every parsed handle satisfies *)

Section Parsed.

Variable Curl_builtin_scheme : cstring -> option Z.
Variable Curl_parse_login_details :
  cstring -> option (option cstring * option cstring * option cstring).
Variable Curl_dedotdotify : cstring -> cstring.
Variable WIN32 : bool.

(** The login step writes the user, the password and the options, and
    nothing else; with the option that disallows a user, it stores none. *)
Lemma login_frame u hn flags r u1 hn1 :
  parse_hostname_login Curl_parse_login_details u hn flags = (r, u1, hn1) ->
  exists us pw op,
    u1 = mkURL (scheme u) us pw op (host u) (port u) (path u) (query u)
           (fragment u) (scratch u) (portnum u)
    /\ (r = CURLURLE_OK -> has_flag flags CURLURL_DISALLOW_USER = true ->
        us = user u).
Proof.
  unfold parse_hostname_login.
  destruct (strchr hn "@") as [i|].
  2:{ intros [= <- <- <-]. exists (user u), (password u), (options u).
      split; [now destruct u|auto]. }
  destruct (Curl_parse_login_details (firstn i hn)) as [[[us pw] op]|].
  2:{ intros [= <- <- <-]. exists (user u), (password u), (options u).
      split; [now destruct u|auto]. }
  destruct us as [us|].
  - destruct (has_flag flags CURLURL_DISALLOW_USER).
    + intros [= <- <- <-]. exists (user u), (password u), (options u).
      split; [now destruct u|discriminate].
    + intros [= <- <- <-].
      exists (Some us),
        (match pw with Some _ => pw | None => password u end),
        (match op with Some _ => op | None => options u end).
      split; [destruct pw, op; reflexivity|discriminate].
  - intros [= <- <- <-].
    exists (user u),
      (match pw with Some _ => pw | None => password u end),
      (match op with Some _ => op | None => options u end).
    split; [destruct u, pw, op; reflexivity|auto].
Qed.

(** The port step writes the port string and the port number together,
    and nothing else. *)
Lemma port_frame u hn u2 hn2 :
  parse_port u hn = (CURLURLE_OK, u2, hn2) ->
  u2 = u
  \/ exists v,
       (0 < v <= 65535)%Z
       /\ u2 = set_port (set_portnum u v) (Some (snprintf_portbuf v)).
Proof.
  assert (Hat : forall o,
             parse_port_at u hn o = (CURLURLE_OK, u2, hn2) ->
             u2 = u
             \/ exists v,
                  (0 < v <= 65535)%Z
                  /\ u2 = set_port (set_portnum u v)
                            (Some (snprintf_portbuf v))).
  { intros [p|] H.
    - right. apply parse_port_at_ok in H as (v & Hv & -> & _).
      exists v. auto.
    - left. simpl in H. now injection H as <- _. }
  unfold parse_port.
  destruct (sscanf_bracket hn) as [[c len]|]; [|apply Hat].
  destruct (Ascii.eqb c "]"); [|apply Hat].
  destruct (negb (Ascii.eqb (char_at hn len) ":")); [discriminate|apply Hat].
Qed.

(** The handle of a successful parse, field by field. *)
Lemma parse_rest_fresh sch hn p0 flags h :
  parse_rest Curl_parse_login_details Curl_dedotdotify (fresh_handle sch)
    hn p0 flags = (CURLURLE_OK, h) ->
  exists p q f P q' f' us pw op H porto pn,
    split_query_fragment p0 = (p, q, f)
    /\ fix_path Curl_dedotdotify p q f flags = (P, q', f')
    /\ h = mkURL sch us pw op (Some H) porto (Some P) (stored q')
             (stored f') false pn
    /\ hostname_check H flags = CURLURLE_OK
    /\ (has_flag flags CURLURL_DISALLOW_USER = true -> us = None)
    /\ ((porto = None /\ pn = 0%Z)
        \/ exists v,
             (0 < v <= 65535)%Z
             /\ porto = Some (snprintf_portbuf v) /\ pn = v).
Proof.
  intros Hr.
  apply (parse_rest_ok Curl_parse_login_details Curl_dedotdotify) in Hr
    as (p & q & f & P & q' & f' & u1 & hn1 & u2 & H
        & Hs & Hf & Hl & Hp & Hc & ->).
  apply login_frame in Hl as (us & pw & op & -> & Hus).
  exists p, q, f, P, q', f', us, pw, op, H.
  apply port_frame in Hp as [->|(v & Hv & ->)].
  - exists None, 0%Z. split; [exact Hs|]. split; [exact Hf|]. split.
    { destruct q' as [[|]|]; destruct f' as [[|]|]; reflexivity. }
    split; [exact Hc|]. split; [exact (Hus eq_refl)|]. left. auto.
  - exists (Some (snprintf_portbuf v)), v.
    split; [exact Hs|]. split; [exact Hf|]. split.
    { destruct q' as [[|]|]; destruct f' as [[|]|]; reflexivity. }
    split; [exact Hc|]. split; [exact (Hus eq_refl)|]. right.
    exists v. auto.
Qed.

(** The two ways to a successful parse of a fresh handle. *)
Lemma parse_cases uninit U flags h :
  parseurl Curl_builtin_scheme Curl_parse_login_details Curl_dedotdotify
    WIN32 uninit U zero_handle flags = (CURLURLE_OK, h) ->
  (is_file_url U = true
   /\ exists p0,
        parse_file WIN32 U = inr p0
        /\ parse_rest Curl_parse_login_details Curl_dedotdotify
             (fresh_handle None) uninit p0 flags = (CURLURLE_OK, h))
  \/ (is_file_url U = false
      /\ exists s hn p0,
           parse_generic Curl_builtin_scheme U flags = inr (s, hn, p0)
           /\ parse_rest Curl_parse_login_details Curl_dedotdotify
                (fresh_handle (Some s)) hn p0 flags = (CURLURLE_OK, h)).
Proof.
  unfold parseurl, is_file_url.
  destruct (Ascii.eqb (char_at U 0) ":"); [discriminate|].
  destruct (check_scheme 16 U && strncasecompare U (cs "file:") 5).
  - destruct (parse_file WIN32 U) as [e|p0] eqn:Hf.
    + intros [= -> _]. apply parse_file_error in Hf. discriminate.
    + intros H. left. split; [reflexivity|]. exists p0. split; [reflexivity|].
      exact H.
  - destruct (parse_generic Curl_builtin_scheme U flags)
      as [e|[[s hn] p0]] eqn:Hg.
    + intros [= -> _]. apply parse_generic_error in Hg as [Hg|Hg];
        discriminate.
    + intros H. right. split; [reflexivity|]. exists s, hn, p0.
      split; [reflexivity|]. exact H.
Qed.

Lemma create_parse_flags uninit U flags h :
  curl_url Curl_builtin_scheme Curl_parse_login_details Curl_dedotdotify
    WIN32 uninit U flags = (CURLURLE_OK, Some h) ->
  parseurl Curl_builtin_scheme Curl_parse_login_details Curl_dedotdotify
    WIN32 uninit U zero_handle flags = (CURLURLE_OK, h).
Proof.
  unfold curl_url.
  destruct (parseurl _ _ _ _ uninit U zero_handle flags) as [result u].
  destruct (failed result || has_flag flags CURLURL_VERIFY_ONLY);
    [discriminate|]. now intros [= -> ->].
Qed.

(** Every handle handed out, field by field. *)
Lemma created_fields uninit U flags h :
  curl_url Curl_builtin_scheme Curl_parse_login_details Curl_dedotdotify
    WIN32 uninit U flags = (CURLURLE_OK, Some h) ->
  exists sch p0 p q f P q' f' us pw op H porto pn,
    split_query_fragment p0 = (p, q, f)
    /\ fix_path Curl_dedotdotify p q f flags = (P, q', f')
    /\ h = mkURL sch us pw op (Some H) porto (Some P) (stored q')
             (stored f') false pn
    /\ hostname_check H flags = CURLURLE_OK
    /\ (has_flag flags CURLURL_DISALLOW_USER = true -> us = None)
    /\ ((porto = None /\ pn = 0%Z)
        \/ exists v,
             (0 < v <= 65535)%Z
             /\ porto = Some (snprintf_portbuf v) /\ pn = v)
    /\ (if is_file_url U then sch = None
        else exists s hn,
               sch = Some s
               /\ parse_generic Curl_builtin_scheme U flags
                  = inr (s, hn, p0)).
Proof.
  intros Hc. apply create_parse_flags in Hc. apply parse_cases in Hc.
  destruct Hc as [(Hfile & p0 & Hpf & Hr)|(Hfile & s & hn & p0 & Hg & Hr)];
    apply parse_rest_fresh in Hr
      as (p & q & f & P & q' & f' & us & pw & op & H & porto & pn
          & H1 & H2 & H3 & H4 & H5 & H6); rewrite Hfile.
  - exists None, p0, p, q, f, P, q', f', us, pw, op, H, porto, pn.
    repeat (split; [assumption|]). reflexivity.
  - exists (Some s), p0, p, q, f, P, q', f', us, pw, op, H, porto, pn.
    repeat (split; [assumption|]). exists s, hn. auto.
Qed.

End Parsed.

Lemma strchr_firstn_none s c :
  forall n, strchr s c = None -> strchr (firstn n s) c = None.
Proof.
  induction s as [|x s IH]; intros [|n]; simpl; auto.
  destruct (Ascii.eqb x c); [discriminate|].
  destruct (strchr s c) eqn:E; [discriminate|]. intros _.
  now rewrite IH.
Qed.

Lemma split_query_fragment_marks p0 p q f :
  split_query_fragment p0 = (p, q, f) ->
  marks_written p q f = p0
  /\ strchr p "?" = None
  /\ (q = None -> strchr p "#" = None)
  /\ (forall Q, q = Some Q -> strchr Q "#" = None).
Proof.
  unfold split_query_fragment, marks_written.
  destruct (strchr p0 "?") as [i|] eqn:Hq.
  - destruct (strchr_split _ _ _ Hq) as [E1 N1].
    destruct (strchr (skipn (S i) p0) "#") as [j|] eqn:Hf.
    + destruct (strchr_split _ _ _ Hf) as [E2 N2].
      intros [= <- <- <-]. split; [|split; [exact N1|split]].
      * transitivity (firstn i p0 ++ "?" :: skipn (S i) p0);
          [|symmetry; exact E1].
        f_equal. cbn [app]. f_equal. symmetry. exact E2.
      * discriminate.
      * now intros Q [= <-].
    + intros [= <- <- <-]. split; [|split; [exact N1|split]].
      * transitivity (firstn i p0 ++ "?" :: skipn (S i) p0);
          [|symmetry; exact E1].
        f_equal. apply app_nil_r.
      * discriminate.
      * now intros Q [= <-].
  - destruct (strchr p0 "#") as [j|] eqn:Hf.
    + destruct (strchr_split _ _ _ Hf) as [E2 N2].
      intros [= <- <- <-]. split; [|split; [|split]].
      * symmetry. exact E2.
      * now apply strchr_firstn_none.
      * intros _. exact N2.
      * discriminate.
    + intros [= <- <- <-]. split; [|split; [exact Hq|split]].
      * now rewrite !app_nil_r.
      * intros _. exact Hf.
      * discriminate.
Qed.

(** * Invariants of the handles that curl_url hands out *)

(** X13. A handle that curl_url hands out has a host name that passes
    hostname_check, made of digits, letters, '-' and '.' only unless it
    starts with '['; it has a path, and its scratch area is released. *)
Theorem created_handle_complete :
  forall dir login dedot win uninit U flags h,
    curl_url dir login dedot win uninit U flags = (CURLURLE_OK, Some h) ->
    (exists H,
        host h = Some H /\ hostname_check H flags = CURLURLE_OK
        /\ (char_at H 0 <> "[" -> forallb name_byte H = true))
    /\ path h <> None
    /\ scratch h = false.
Proof.
  intros dir login dedot win uninit U flags h Hc.
  apply created_fields in Hc
    as (sch & p0 & p & q & f & P & q' & f' & us & pw & op & H & porto & pn
        & _ & _ & -> & Hh & _).
  split; [|split; [discriminate|reflexivity]].
  exists H. split; [reflexivity|]. split; [exact Hh|].
  intros Hb. now apply (hostname_check_names H flags Hb).
Qed.

Lemma created_handle_complete_witness :
  ref_curl_url [] (cs "http://user:pw@host:8080/a/../b?q=1#frag") 0
  = (CURLURLE_OK, Some handle_full)
  /\ (exists H,
         host handle_full = Some H /\ hostname_check H 0 = CURLURLE_OK
         /\ (char_at H 0 <> "[" -> forallb name_byte H = true))
  /\ path handle_full <> None
  /\ scratch handle_full = false.
Proof.
  split; [reflexivity|].
  apply (created_handle_complete builtin_scheme parse_login_details
           dedotdotify false [] (cs "http://user:pw@host:8080/a/../b?q=1#frag")
           0 handle_full).
  reflexivity.
Defined.

(** X14. In a handle that curl_url hands out, a query that is stored is
    not empty and holds no '#', and a fragment that is stored is not
    empty. *)
Theorem created_query_fragment :
  forall dir login dedot win uninit U flags h,
    curl_url dir login dedot win uninit U flags = (CURLURLE_OK, Some h) ->
    (forall Q, query h = Some Q -> Q <> [] /\ strchr Q "#" = None)
    /\ (forall F, fragment h = Some F -> F <> []).
Proof.
  intros dir login dedot win uninit U flags h Hc.
  apply created_fields in Hc
    as (sch & p0 & p & q & f & P & q' & f' & us & pw & op & H & porto & pn
        & Hs & Hf & -> & _).
  cbn [query fragment]. split.
  - intros Q HQ. pose proof HQ as HQ'. apply stored_some in HQ as [_ Hne].
    split; [exact Hne|].
    apply (proj1 (fix_path_stored dedot _ _ _ _ _ _ _ Hf)) in HQ'.
    destruct (split_query_fragment_marks _ _ _ _ Hs) as (_ & _ & _ & Hq).
    now apply Hq.
  - intros F HF. now apply stored_some in HF.
Qed.

Lemma created_query_fragment_witness :
  ref_curl_url [] (cs "http://user:pw@host:8080/a/../b?q=1#frag") 0
  = (CURLURLE_OK, Some handle_full)
  /\ (forall Q, query handle_full = Some Q -> Q <> [] /\ strchr Q "#" = None)
  /\ (forall F, fragment handle_full = Some F -> F <> []).
Proof.
  split; [reflexivity|].
  apply (created_query_fragment builtin_scheme parse_login_details
           dedotdotify false [] (cs "http://user:pw@host:8080/a/../b?q=1#frag")
           0 handle_full).
  reflexivity.
Defined.

Lemma port_text_strtol v :
  (0 < v <= 65535)%Z ->
  strtol (snprintf_portbuf v) = (v, length (snprintf_portbuf v)).
Proof.
  intros Hv. destruct (port_text_scan v Hv) as (Hne & Hall & Hscan).
  apply strtol_digits; auto. unfold LONG_MIN, LONG_MAX. lia.
Qed.

(** X15. In a handle that curl_url hands out, the port string and the
    port number go together: no string and the number 0, or a number from
    1 to 65535 and its decimal text, which strtol reads back in full. *)
Theorem created_port_in_step :
  forall dir login dedot win uninit U flags h,
    curl_url dir login dedot win uninit U flags = (CURLURLE_OK, Some h) ->
    port_in_step h.
Proof.
  intros dir login dedot win uninit U flags h Hc.
  apply created_fields in Hc
    as (sch & p0 & p & q & f & P & q' & f' & us & pw & op & H & porto & pn
        & _ & _ & -> & _ & _ & Hp & _).
  unfold port_in_step. cbn [port portnum].
  destruct Hp as [(-> & ->)|(v & Hv & -> & ->)]; [reflexivity|].
  split; [exact Hv|]. split; [reflexivity|]. now apply port_text_strtol.
Qed.

Lemma created_port_in_step_witness :
  ref_curl_url [] (cs "http://user:pw@host:8080/a/../b?q=1#frag") 0
  = (CURLURLE_OK, Some handle_full)
  /\ port_in_step handle_full.
Proof.
  split; [reflexivity|].
  apply (created_port_in_step builtin_scheme parse_login_details
           dedotdotify false [] (cs "http://user:pw@host:8080/a/../b?q=1#frag")
           0 handle_full).
  reflexivity.
Defined.

(** X16. With the option that disallows a user name, curl_url hands out no
    handle that holds a user. *)
Theorem created_without_user :
  forall dir login dedot win uninit U flags h,
    has_flag flags CURLURL_DISALLOW_USER = true ->
    curl_url dir login dedot win uninit U flags = (CURLURLE_OK, Some h) ->
    user h = None.
Proof.
  intros dir login dedot win uninit U flags h Hflag Hc.
  apply created_fields in Hc
    as (sch & p0 & p & q & f & P & q' & f' & us & pw & op & H & porto & pn
        & _ & _ & -> & _ & Hus & _).
  exact (Hus Hflag).
Qed.

Lemma created_without_user_witness :
  has_flag CURLURL_DISALLOW_USER CURLURL_DISALLOW_USER = true
  /\ ref_curl_url [] (cs "http://a/b/c") CURLURL_DISALLOW_USER
     = (CURLURLE_OK, Some handle_abc)
  /\ user handle_abc = None.
Proof.
  split; [reflexivity|]. split; [reflexivity|].
  apply (created_without_user builtin_scheme parse_login_details
           dedotdotify false [] (cs "http://a/b/c") CURLURL_DISALLOW_USER
           handle_abc); reflexivity.
Defined.

Lemma parse_generic_registered dir U flags s hn p0 :
  parse_generic dir U flags = inr (s, hn, p0) ->
  has_flag flags CURLURL_NON_SUPPORT_SCHEME = false ->
  dir s <> None.
Proof.
  unfold parse_generic. destruct (sscanf_url U) as [[[rc sb] hn'] p].
  destruct (rc =? 2)%Z; [discriminate|]. intros H Hflag. rewrite Hflag in H.
  destruct (rc <? 3)%Z.
  - destruct (negb (has_flag flags CURLURL_DEFAULT_SCHEME)); [discriminate|].
    destruct (sscanf_noscheme U) as [[rc2 hn2] p2].
    destruct (rc2 <? 1)%Z; [discriminate|].
    destruct (dir DEFAULT_SCHEME) eqn:E; [|discriminate].
    injection H as <- _ _. now rewrite E.
  - destruct (dir sb) eqn:E; [|discriminate].
    injection H as <- _ _. now rewrite E.
Qed.

(** X17. Without the option that lets other schemes in, the scheme of a
    handle that curl_url hands out is one the scheme directory knows. *)
Theorem created_scheme_registered :
  forall dir login dedot win uninit U flags h s,
    has_flag flags CURLURL_NON_SUPPORT_SCHEME = false ->
    curl_url dir login dedot win uninit U flags = (CURLURLE_OK, Some h) ->
    scheme h = Some s ->
    dir s <> None.
Proof.
  intros dir login dedot win uninit U flags h s Hflag Hc Hs.
  apply created_fields in Hc
    as (sch & p0 & p & q & f & P & q' & f' & us & pw & op & H & porto & pn
        & _ & _ & -> & _ & _ & _ & Hsch).
  cbn [scheme] in Hs. subst sch.
  destruct (is_file_url U); [discriminate|].
  destruct Hsch as (s' & hn & [= <-] & Hg).
  exact (parse_generic_registered _ _ _ _ _ _ Hg Hflag).
Qed.

Lemma created_scheme_registered_witness :
  has_flag 0 CURLURL_NON_SUPPORT_SCHEME = false
  /\ ref_curl_url [] (cs "http://a/b/c") 0 = (CURLURLE_OK, Some handle_abc)
  /\ scheme handle_abc = Some (cs "http")
  /\ builtin_scheme (cs "http") <> None.
Proof.
  split; [reflexivity|]. split; [reflexivity|]. split; [reflexivity|].
  apply (created_scheme_registered builtin_scheme parse_login_details
           dedotdotify false [] (cs "http://a/b/c") 0 handle_abc (cs "http"));
    reflexivity.
Defined.

(** X18. A URL that goes through the file: branch of the parser gives a
    handle with no scheme, so that the URL part of it cannot be extracted
    without the option for a default scheme: curl_url_get returns
    CURLURLE_NO_SCHEME. *)
Theorem created_file_has_no_scheme :
  forall dir login dedot win nul uninit U flags h getflags,
    is_file_url U = true ->
    curl_url dir login dedot win uninit U flags = (CURLURLE_OK, Some h) ->
    has_flag getflags CURLURL_DEFAULT_SCHEME = false ->
    scheme h = None
    /\ curl_url_get dir nul h CURLUPART_URL getflags
       = inl CURLURLE_NO_SCHEME.
Proof.
  intros dir login dedot win nul uninit U flags h getflags Hfile Hc Hg.
  apply created_fields in Hc
    as (sch & p0 & p & q & f & P & q' & f' & us & pw & op & H & porto & pn
        & _ & _ & -> & _ & _ & _ & Hsch).
  rewrite Hfile in Hsch. subst sch. split; [reflexivity|].
  unfold curl_url_get. cbn [host scheme]. now rewrite Hg.
Qed.

Lemma created_file_has_no_scheme_witness :
  is_file_url (cs "file:///etc/hosts") = true
  /\ ref_curl_url [] (cs "file:///etc/hosts") 0
     = (CURLURLE_OK,
        Some (mkURL None None None None (Some []) None
                (Some (cs "/etc/hosts")) None None false 0))
  /\ has_flag 0 CURLURL_DEFAULT_SCHEME = false
  /\ scheme (mkURL None None None None (Some []) None
               (Some (cs "/etc/hosts")) None None false 0) = None
  /\ ref_curl_url_get
       (mkURL None None None None (Some []) None
          (Some (cs "/etc/hosts")) None None false 0) CURLUPART_URL 0
     = inl CURLURLE_NO_SCHEME.
Proof.
  split; [reflexivity|]. split; [reflexivity|]. split; [reflexivity|].
  apply (created_file_has_no_scheme builtin_scheme parse_login_details
           dedotdotify false (cs "(nil)") [] (cs "file:///etc/hosts") 0
           _ 0); reflexivity.
Defined.

(** X19. The cuts of the query and of the fragment lose nothing: the path,
    a '?' and the query if one was cut, a '#' and the fragment if one was
    cut, give the text back; the path holds no '?', the query no '#', and
    without a query the path holds no '#'. *)
Theorem query_fragment_cuts (p0 p : cstring) (q f : option cstring) :
  split_query_fragment p0 = (p, q, f) ->
  marks_written p q f = p0
  /\ strchr p "?" = None
  /\ (q = None -> strchr p "#" = None)
  /\ (forall Q, q = Some Q -> strchr Q "#" = None).
Proof. apply split_query_fragment_marks. Qed.

Lemma query_fragment_cuts_witness :
  split_query_fragment (cs "/a/b?c=d#e?f")
  = (cs "/a/b", Some (cs "c=d"), Some (cs "e?f"))
  /\ marks_written (cs "/a/b") (Some (cs "c=d")) (Some (cs "e?f"))
     = cs "/a/b?c=d#e?f".
Proof.
  split; [reflexivity|].
  apply (query_fragment_cuts (cs "/a/b?c=d#e?f") (cs "/a/b")
           (Some (cs "c=d")) (Some (cs "e?f"))).
  reflexivity.
Defined.

(** * The options of the parser *)

Section Options.

Variable Curl_builtin_scheme : cstring -> option Z.
Variable Curl_parse_login_details :
  cstring -> option (option cstring * option cstring * option cstring).
Variable Curl_dedotdotify : cstring -> cstring.
Variable WIN32 : bool.

(** The parser looks at four bits of the flags and at no other. *)
Lemma parseurl_options uninit U u f1 f2 :
  same_parse_options f1 f2 ->
  parseurl Curl_builtin_scheme Curl_parse_login_details Curl_dedotdotify
    WIN32 uninit U u f1
  = parseurl Curl_builtin_scheme Curl_parse_login_details Curl_dedotdotify
      WIN32 uninit U u f2.
Proof.
  intros (H1 & H2 & H3 & H4).
  unfold parseurl, parse_rest, parse_generic, fix_path, parse_hostname_login,
    hostname_check.
  rewrite H1, H2, H3, H4. reflexivity.
Qed.

End Options.

Lemma has_flag_lor flags bit other :
  Z.land other bit = 0%Z ->
  has_flag (Z.lor flags other) bit = has_flag flags bit.
Proof.
  intros H. unfold has_flag. now rewrite Z.land_lor_distr_l, H, Z.lor_0_r.
Qed.

Lemma has_flag_verify_only flags :
  has_flag (Z.lor flags CURLURL_VERIFY_ONLY) CURLURL_VERIFY_ONLY = true.
Proof.
  unfold has_flag. rewrite Z.land_lor_distr_l.
  change (Z.land CURLURL_VERIFY_ONLY CURLURL_VERIFY_ONLY)
    with CURLURL_VERIFY_ONLY.
  destruct (Z.eqb_spec (Z.lor (Z.land flags CURLURL_VERIFY_ONLY)
                          CURLURL_VERIFY_ONLY) 0) as [E|E]; [|reflexivity].
  apply Z.lor_eq_0_iff in E as [_ E]. discriminate.
Qed.

(** X20. With the option for verification only added to the flags,
    curl_url returns the code it returns without it, and hands out no
    handle. *)
Theorem verify_only_same_code :
  forall dir login dedot win uninit U flags,
    curl_url dir login dedot win uninit U (Z.lor flags CURLURL_VERIFY_ONLY)
    = (fst (curl_url dir login dedot win uninit U flags), None).
Proof.
  intros dir login dedot win uninit U flags. unfold curl_url.
  rewrite (parseurl_options dir login dedot win uninit U zero_handle
             (Z.lor flags CURLURL_VERIFY_ONLY) flags).
  2:{ repeat split; apply has_flag_lor; reflexivity. }
  destruct (parseurl dir login dedot win uninit U zero_handle flags)
    as [result u].
  rewrite has_flag_verify_only, orb_true_r.
  destruct (failed result || has_flag flags CURLURL_VERIFY_ONLY);
    reflexivity.
Qed.

(** ** A URL without a scheme *)

Lemma check_scheme_no_colon U :
  strchr U ":" = None -> forall n, check_scheme n U = false.
Proof.
  induction U as [|c r IH]; intros H [|n]; simpl; try reflexivity.
  simpl in H. destruct (Ascii.eqb c ":"); [discriminate|].
  destruct (Ascii.eqb c "/"); [reflexivity|].
  apply IH. now destruct (strchr r ":").
Qed.

Lemma strchr_app_found a c b : strchr (a ++ c :: b) c <> None.
Proof.
  intros H. apply (strchr_none_nth _ _ (length a)) in H.
  - now rewrite char_at_app_here in H.
  - rewrite length_app. simpl. lia.
Qed.

(** Without a ':' the first scan of the parser finds no scheme. *)
Lemma sscanf_url_no_colon U :
  strchr U ":" = None ->
  exists rc sb hn p,
    sscanf_url U = (rc, sb, hn, p)
    /\ (rc =? 2)%Z = false /\ (rc <? 3)%Z = true.
Proof.
  intros H. unfold sscanf_url. destruct U as [|c0 r0].
  { exists EOF, [], [], []. auto. }
  destruct (scan_set (not_in_set [LF; "/"; ":"]) 15 (c0 :: r0))
    as [sb r1] eqn:E.
  destruct (scan_set_spec _ _ _ _ _ E) as (Hs & _).
  destruct sb as [|s0 sb]; [exists 0%Z, [], [], []; auto|].
  destruct r1 as [|c r2]; [exists 1%Z, (s0 :: sb), [], []; auto|].
  destruct (Ascii.eqb_spec c ":") as [->|_].
  - rewrite Hs in H. now apply strchr_app_found in H.
  - exists 1%Z, (s0 :: sb), [], []. auto.
Qed.

Lemma scan_all_cons p c r :
  p c = true ->
  exists a b, scan_all p (c :: r) = (c :: a, b).
Proof.
  intros H. unfold scan_all. cbn [length scan_set]. rewrite H.
  destruct (scan_set p (length r) r) as [a b]. now exists a, b.
Qed.

Section DefaultScheme.

Variable Curl_builtin_scheme : cstring -> option Z.
Variable Curl_parse_login_details :
  cstring -> option (option cstring * option cstring * option cstring).
Variable Curl_dedotdotify : cstring -> cstring.
Variable WIN32 : bool.

Lemma parse_generic_no_colon U flags :
  strchr U ":" = None ->
  has_flag flags CURLURL_DEFAULT_SCHEME = false ->
  parse_generic Curl_builtin_scheme U flags = inl CURLURLE_MALFORMED_INPUT.
Proof.
  intros H Hflag. unfold parse_generic.
  destruct (sscanf_url_no_colon U H) as (rc & sb & hn & p & -> & -> & ->).
  now rewrite Hflag.
Qed.

(** With the option, the host name and the path are scanned from the
    start of the URL, just as they are behind "https://". *)
Lemma parse_generic_default c r flags :
  strchr (c :: r) ":" = None ->
  host_byte c = true ->
  has_flag flags CURLURL_DEFAULT_SCHEME = true ->
  parse_generic Curl_builtin_scheme (c :: r) flags
  = parse_generic Curl_builtin_scheme (cs "https://" ++ c :: r) flags.
Proof.
  intros H Hc Hflag. unfold parse_generic.
  destruct (sscanf_url_no_colon _ H) as (rc & sb & hn & p & -> & -> & ->).
  rewrite Hflag. cbn [negb].
  unfold sscanf_noscheme, sscanf_url.
  change (cs "https://" ++ c :: r)
    with ("h" :: "t" :: "t" :: "p" :: "s" :: ":" :: "/" :: "/" :: c :: r).
  change (scan_set (not_in_set [LF; "/"; ":"]) 15
            ("h" :: "t" :: "t" :: "p" :: "s" :: ":" :: "/" :: "/" :: c :: r))
    with (cs "https", ":" :: "/" :: "/" :: c :: r).
  cbv beta match zeta.
  change (negb (Ascii.eqb ":" ":")) with false. cbv match.
  assert (Hsl : scan_set (in_set ["/"]) 3 ("/" :: "/" :: c :: r)
                = (cs "//", c :: r)).
  { cbn [scan_set]. change (in_set ["/"] "/") with true. cbv match.
    now rewrite (host_byte_not_slash c Hc). }
  rewrite Hsl. cbv beta match zeta.
  destruct (scan_all_cons (not_in_set [LF; "/"; "?"; "#"]) c r Hc)
    as (a & b & ->).
  cbv beta match zeta.
  destruct (scan_all (not_in_set [LF]) b) as [[|x path] rest]; reflexivity.
Qed.

Lemma parseurl_no_colon uninit U u flags :
  strchr U ":" = None ->
  has_flag flags CURLURL_DEFAULT_SCHEME = false ->
  fst (parseurl Curl_builtin_scheme Curl_parse_login_details
         Curl_dedotdotify WIN32 uninit U u flags)
  = CURLURLE_MALFORMED_INPUT.
Proof.
  intros H Hflag. unfold parseurl.
  destruct (Ascii.eqb (char_at U 0) ":"); [reflexivity|].
  rewrite (check_scheme_no_colon U H). cbn [andb].
  now rewrite parse_generic_no_colon.
Qed.

Lemma parseurl_default uninit c r u flags :
  strchr (c :: r) ":" = None ->
  host_byte c = true ->
  has_flag flags CURLURL_DEFAULT_SCHEME = true ->
  parseurl Curl_builtin_scheme Curl_parse_login_details Curl_dedotdotify
    WIN32 uninit (c :: r) u flags
  = parseurl Curl_builtin_scheme Curl_parse_login_details Curl_dedotdotify
      WIN32 uninit (cs "https://" ++ c :: r) u flags.
Proof.
  intros H Hc Hflag. unfold parseurl.
  rewrite (check_scheme_no_colon _ H). cbn [andb].
  rewrite (parse_generic_default c r flags H Hc Hflag).
  change (char_at (c :: r) 0) with c.
  destruct (Ascii.eqb_spec c ":") as [->|_].
  { simpl in H. discriminate. }
  reflexivity.
Qed.

End DefaultScheme.

(** X21. A URL that holds no ':' is refused as malformed input when the
    option for a default scheme is not given. *)
Theorem no_colon_is_malformed :
  forall dir login dedot win uninit U flags,
    strchr U ":" = None ->
    has_flag flags CURLURL_DEFAULT_SCHEME = false ->
    curl_url dir login dedot win uninit U flags
    = (CURLURLE_MALFORMED_INPUT, None).
Proof.
  intros dir login dedot win uninit U flags H Hflag. unfold curl_url.
  pose proof (parseurl_no_colon dir login dedot win uninit U zero_handle
                flags H Hflag) as E.
  destruct (parseurl dir login dedot win uninit U zero_handle flags)
    as [result u]. simpl in E. subst result. reflexivity.
Qed.

Lemma no_colon_is_malformed_witness :
  strchr (cs "example.com/index.html") ":" = None
  /\ has_flag 0 CURLURL_DEFAULT_SCHEME = false
  /\ ref_curl_url [] (cs "example.com/index.html") 0
     = (CURLURLE_MALFORMED_INPUT, None).
Proof.
  split; [reflexivity|]. split; [reflexivity|].
  apply (no_colon_is_malformed builtin_scheme parse_login_details
           dedotdotify false [] (cs "example.com/index.html") 0);
    reflexivity.
Defined.

(** X22. With the option for a default scheme, a URL that holds no ':' and
    starts with a byte of a host name is parsed just as the same URL
    behind "https://". *)
Theorem default_scheme_is_https :
  forall dir login dedot win uninit U flags,
    has_flag flags CURLURL_DEFAULT_SCHEME = true ->
    strchr U ":" = None ->
    U <> [] ->
    host_byte (char_at U 0) = true ->
    curl_url dir login dedot win uninit U flags
    = curl_url dir login dedot win uninit (cs "https://" ++ U) flags.
Proof.
  intros dir login dedot win uninit U flags Hflag H Hne Hc.
  destruct U as [|c r]; [contradiction|]. unfold curl_url.
  now rewrite (parseurl_default dir login dedot win uninit c r zero_handle
                 flags H Hc Hflag).
Qed.

Lemma default_scheme_is_https_witness :
  has_flag CURLURL_DEFAULT_SCHEME CURLURL_DEFAULT_SCHEME = true
  /\ strchr (cs "example.com/index.html") ":" = None
  /\ cs "example.com/index.html" <> []
  /\ host_byte (char_at (cs "example.com/index.html") 0) = true
  /\ ref_curl_url [] (cs "example.com/index.html") CURLURL_DEFAULT_SCHEME
     = ref_curl_url [] (cs "https://" ++ cs "example.com/index.html")
         CURLURL_DEFAULT_SCHEME.
Proof.
  split; [reflexivity|]. split; [reflexivity|]. split; [discriminate|].
  split; [reflexivity|].
  apply (default_scheme_is_https builtin_scheme parse_login_details
           dedotdotify false [] (cs "example.com/index.html")
           CURLURL_DEFAULT_SCHEME); [reflexivity|reflexivity|discriminate|reflexivity].
Defined.

(** * Setting and getting a part, and the copy of a handle *)

Section Accessors.

Variable Curl_builtin_scheme : cstring -> option Z.
Variable Curl_parse_login_details :
  cstring -> option (option cstring * option cstring * option cstring).
Variable Curl_dedotdotify : cstring -> cstring.
Variable WIN32 : bool.
Variable printf_null : cstring.
Variable uninit : cstring.

Lemma store_part_ok u store v port u' :
  store_part u store v port = (CURLURLE_OK, u') ->
  u' = (if negb (port =? 0)%Z then set_portnum (store u (Some v)) port
        else store u (Some v)).
Proof.
  unfold store_part. destruct (Ascii.eqb (char_at v 0) NUL); [discriminate|].
  now intros [= <-].
Qed.

(** What a successful set of one field leaves in the handle. *)
Lemma set_scalar_ok u what v flags u' :
  scalar_part what = true ->
  curl_url_set Curl_builtin_scheme Curl_parse_login_details Curl_dedotdotify
    WIN32 printf_null uninit u what v flags = Some (CURLURLE_OK, u') ->
  match what with
  | CURLUPART_SCHEME => u' = set_scheme u (Some v)
  | CURLUPART_USER => u' = set_user u (Some v)
  | CURLUPART_PASSWORD => u' = set_password u (Some v)
  | CURLUPART_OPTIONS => u' = set_options u (Some v)
  | CURLUPART_HOST => u' = set_host u (Some v)
  | CURLUPART_PORT =>
      u' = set_portnum (set_port u (Some v)) (fst (strtol v))
      /\ (0 < fst (strtol v) <= 65535)%Z
  | CURLUPART_PATH => u' = set_path u (Some v)
  | CURLUPART_QUERY => u' = set_query u (Some v)
  | CURLUPART_FRAGMENT => u' = set_fragment u (Some v)
  | _ => False
  end.
Proof.
  intros Hs. unfold curl_url_set.
  destruct what; try discriminate Hs.
  - destruct (_ && _); [discriminate|].
    intros [= H]. now apply store_part_ok in H.
  - intros [= H]. now apply store_part_ok in H.
  - intros [= H]. now apply store_part_ok in H.
  - intros [= H]. now apply store_part_ok in H.
  - intros [= H]. now apply store_part_ok in H.
  - destruct ((fst (strtol v) <=? 0)%Z || (fst (strtol v) >? 65535)%Z) eqn:E;
      [discriminate|].
    apply orb_false_elim in E as [Hlo Hhi].
    apply Z.leb_gt in Hlo. rewrite Z.gtb_ltb in Hhi. apply Z.ltb_ge in Hhi.
    intros [= H]. apply store_part_ok in H.
    assert ((fst (strtol v) =? 0)%Z = false) as E0 by (apply Z.eqb_neq; lia).
    rewrite E0 in H. split; [exact H|lia].
  - intros [= H]. now apply store_part_ok in H.
  - intros [= H]. now apply store_part_ok in H.
  - intros [= H]. now apply store_part_ok in H.
Qed.

Lemma get_port_plain u p :
  port u = Some p ->
  curl_url_get Curl_builtin_scheme printf_null u CURLUPART_PORT 0 = inr p.
Proof.
  intros Hp. unfold curl_url_get. rewrite Hp.
  destruct (scheme u) as [s|]; [|reflexivity].
  destruct (Curl_builtin_scheme s) as [d|]; [|reflexivity].
  change (has_flag 0 CURLURL_NO_DEFAULT_PORT) with false.
  now rewrite andb_false_r.
Qed.

Lemma set_then_get u what v flags u' :
  scalar_part what = true ->
  curl_url_set Curl_builtin_scheme Curl_parse_login_details Curl_dedotdotify
    WIN32 printf_null uninit u what v flags = Some (CURLURLE_OK, u') ->
  curl_url_get Curl_builtin_scheme printf_null u' what 0 = inr v
  /\ forall other getflags,
       other <> what -> other <> CURLUPART_URL -> other <> CURLUPART_PORT ->
       curl_url_get Curl_builtin_scheme printf_null u' other getflags
       = curl_url_get Curl_builtin_scheme printf_null u other getflags.
Proof.
  intros Hs H. pose proof (set_scalar_ok u what v flags u' Hs H) as E.
  destruct what; try contradiction;
    try (subst u'; split;
         [reflexivity
         |intros other g N1 N2 N3; destruct other;
          try reflexivity; contradiction]).
  destruct E as [-> _]. split.
  - now apply get_port_plain.
  - intros other g N1 N2 N3; destruct other; try reflexivity; contradiction.
Qed.

(** The port that the URL part writes is the port that the port part
    hands out. *)
Lemma url_writes_port u s H flags :
  scheme u = Some s -> host u = Some H ->
  curl_url_get Curl_builtin_scheme printf_null u CURLUPART_URL flags
  = inr (format_url printf_null u s H
           (port_handed_out Curl_builtin_scheme printf_null u flags)).
Proof.
  intros Hs Hh. unfold port_handed_out, curl_url_get. rewrite Hs, Hh.
  destruct (port u) as [p|].
  - destruct (Curl_builtin_scheme s) as [d|]; [|reflexivity].
    destruct ((d =? portnum u)%Z && has_flag flags CURLURL_NO_DEFAULT_PORT);
      reflexivity.
  - destruct (has_flag flags CURLURL_DEFAULT_PORT); [|reflexivity].
    destruct (Curl_builtin_scheme s); reflexivity.
Qed.

Lemma port_text_first v :
  (0 < v <= 65535)%Z ->
  Ascii.eqb (char_at (snprintf_portbuf v) 0) NUL = false.
Proof.
  intros Hv. destruct (port_text_scan v Hv) as (Hne & Hall & _).
  destruct (snprintf_portbuf v) as [|c t]; [contradiction|].
  change (char_at (c :: t) 0) with c.
  destruct (Ascii.eqb_spec c NUL) as [->|]; [|reflexivity].
  simpl in Hall. discriminate.
Qed.

Lemma default_port_set_get u s d flags :
  scheme u = Some s -> Curl_builtin_scheme s = Some d ->
  (0 < d <= 65535)%Z ->
  exists u',
    curl_url_set Curl_builtin_scheme Curl_parse_login_details
      Curl_dedotdotify WIN32 printf_null uninit u CURLUPART_PORT
      (snprintf_portbuf d) flags = Some (CURLURLE_OK, u')
    /\ port_in_step u'
    /\ curl_url_get Curl_builtin_scheme printf_null u' CURLUPART_PORT
         CURLURL_NO_DEFAULT_PORT = inl CURLURLE_NO_PORT
    /\ curl_url_get Curl_builtin_scheme printf_null u' CURLUPART_PORT 0
       = inr (snprintf_portbuf d).
Proof.
  intros Hs Hd Hv.
  exists (set_portnum (set_port u (Some (snprintf_portbuf d))) d).
  pose proof (port_text_strtol d Hv) as Hstr.
  split; [|split; [|split]].
  - unfold curl_url_set. rewrite Hstr. cbn [fst].
    assert (((d <=? 0)%Z || (d >? 65535)%Z) = false) as ->.
    { apply orb_false_iff. split; [apply Z.leb_gt; lia|].
      rewrite Z.gtb_ltb. apply Z.ltb_ge. lia. }
    unfold store_part. rewrite (port_text_first d Hv).
    assert ((d =? 0)%Z = false) as -> by (apply Z.eqb_neq; lia).
    reflexivity.
  - unfold port_in_step, set_portnum, set_port. cbn [port portnum].
    split; [exact Hv|]. split; [reflexivity|exact Hstr].
  - unfold curl_url_get, set_portnum, set_port. cbn [port scheme portnum].
    rewrite Hs, Hd, Z.eqb_refl. reflexivity.
  - apply get_port_plain. reflexivity.
Qed.

End Accessors.

(** X23. After a successful curl_url_set of one field of the handle,
    curl_url_get of that part with no option hands out the value that was
    set, and every other part but the URL and the port reads as it did
    before the set. *)
Theorem set_then_get_part :
  forall dir login dedot win nul uninit u what v flags u',
    scalar_part what = true ->
    curl_url_set dir login dedot win nul uninit u what v flags
    = Some (CURLURLE_OK, u') ->
    curl_url_get dir nul u' what 0 = inr v
    /\ forall other getflags,
         other <> what -> other <> CURLUPART_URL ->
         other <> CURLUPART_PORT ->
         curl_url_get dir nul u' other getflags
         = curl_url_get dir nul u other getflags.
Proof.
  intros dir login dedot win nul uninit u what v flags u'.
  apply set_then_get.
Qed.

Lemma set_then_get_part_witness :
  scalar_part CURLUPART_QUERY = true
  /\ ref_curl_url_set [] handle_abc CURLUPART_QUERY (cs "x=1") 0
     = Some (CURLURLE_OK, set_query handle_abc (Some (cs "x=1")))
  /\ ref_curl_url_get (set_query handle_abc (Some (cs "x=1")))
       CURLUPART_QUERY 0 = inr (cs "x=1").
Proof.
  split; [reflexivity|]. split; [reflexivity|].
  apply (set_then_get_part builtin_scheme parse_login_details dedotdotify
           false (cs "(nil)") [] handle_abc CURLUPART_QUERY (cs "x=1") 0
           (set_query handle_abc (Some (cs "x=1"))));
    reflexivity.
Defined.

(** X24. On a handle whose scheme has a default port from 1 to 65535,
    setting the port to the decimal text of that default succeeds and
    leaves the port string and the port number in step; the port then
    reads as that text with no option, and as missing with the option that
    hides a default port. *)
Theorem default_port_hidden :
  forall dir login dedot win nul uninit u s d flags,
    scheme u = Some s -> dir s = Some d -> (0 < d <= 65535)%Z ->
    exists u',
      curl_url_set dir login dedot win nul uninit u CURLUPART_PORT
        (snprintf_portbuf d) flags = Some (CURLURLE_OK, u')
      /\ port_in_step u'
      /\ curl_url_get dir nul u' CURLUPART_PORT CURLURL_NO_DEFAULT_PORT
         = inl CURLURLE_NO_PORT
      /\ curl_url_get dir nul u' CURLUPART_PORT 0
         = inr (snprintf_portbuf d).
Proof.
  intros dir login dedot win nul uninit u s d flags.
  apply default_port_set_get.
Qed.

Lemma default_port_hidden_witness :
  scheme handle_abc = Some (cs "http")
  /\ builtin_scheme (cs "http") = Some 80%Z
  /\ (0 < 80 <= 65535)%Z
  /\ exists u',
       ref_curl_url_set [] handle_abc CURLUPART_PORT (snprintf_portbuf 80) 0
       = Some (CURLURLE_OK, u')
       /\ port_in_step u'
       /\ ref_curl_url_get u' CURLUPART_PORT CURLURL_NO_DEFAULT_PORT
          = inl CURLURLE_NO_PORT
       /\ ref_curl_url_get u' CURLUPART_PORT 0 = inr (snprintf_portbuf 80).
Proof.
  split; [reflexivity|]. split; [reflexivity|]. split; [lia|].
  apply (default_port_hidden builtin_scheme parse_login_details dedotdotify
           false (cs "(nil)") [] handle_abc (cs "http") 80%Z 0);
    [reflexivity|reflexivity|lia].
Defined.

(** X25. On a handle with a scheme and a host, the URL part is written
    with the port that the port part hands out with the same options, and
    with no port when the port part reports none. *)
Theorem url_port_is_port_part :
  forall dir nul u s H flags,
    scheme u = Some s -> host u = Some H ->
    curl_url_get dir nul u CURLUPART_URL flags
    = inr (format_url nul u s H (port_handed_out dir nul u flags)).
Proof.
  intros dir nul u s H flags. apply url_writes_port.
Qed.

Lemma url_port_is_port_part_witness :
  scheme handle_abc = Some (cs "http")
  /\ host handle_abc = Some (cs "a")
  /\ ref_curl_url_get handle_abc CURLUPART_URL CURLURL_DEFAULT_PORT
     = inr (cs "http://a:80/b/c").
Proof.
  split; [reflexivity|]. split; [reflexivity|]. unfold ref_curl_url_get.
  rewrite (url_port_is_port_part builtin_scheme (cs "(nil)") handle_abc
             (cs "http") (cs "a") CURLURL_DEFAULT_PORT);
    reflexivity.
Defined.

(** X26. The handle that curl_url_dup returns holds the nine strings and
    the port number of the handle it copies and no scratch area, so that
    every part reads from it as from the original; the copy of a handle
    whose scratch area is released is that handle. *)
Theorem dup_reads_the_same :
  forall dir nul u,
    curl_url_dup u = set_scratch u false
    /\ (forall what flags,
          curl_url_get dir nul (curl_url_dup u) what flags
          = curl_url_get dir nul u what flags)
    /\ (scratch u = false -> curl_url_dup u = u).
Proof.
  intros dir nul u.
  assert (E : curl_url_dup u = set_scratch u false).
  { destruct u as [sc us pw op ho po pa qu fr scr pn].
    unfold curl_url_dup, DUP. cbn [scheme user password options host port
      path query fragment portnum].
    destruct sc, us, pw, op, ho, po, pa, qu, fr; reflexivity. }
  split; [exact E|]. split.
  - intros what flags. rewrite E. destruct what; reflexivity.
  - intros Hs. rewrite E. destruct u. simpl in Hs. now subst.
Qed.

(** * The codes that come back *)

Section Codes.

Variable Curl_builtin_scheme : cstring -> option Z.
Variable Curl_parse_login_details :
  cstring -> option (option cstring * option cstring * option cstring).
Variable Curl_dedotdotify : cstring -> cstring.
Variable WIN32 : bool.
Variable printf_null : cstring.
Variable uninit : cstring.

Lemma login_codes u hn flags r u1 hn1 :
  parse_hostname_login Curl_parse_login_details u hn flags = (r, u1, hn1) ->
  r = CURLURLE_OK \/ r = CURLURLE_MALFORMED_INPUT
  \/ (r = CURLURLE_USER_NOT_ALLOWED
      /\ has_flag flags CURLURL_DISALLOW_USER = true).
Proof.
  unfold parse_hostname_login.
  destruct (strchr hn "@") as [i|]; [|intros [= <- _ _]; now left].
  destruct (Curl_parse_login_details (firstn i hn)) as [[[us pw] op]|];
    [|intros [= <- _ _]; right; now left].
  destruct us as [us|]; [|intros [= <- _ _]; now left].
  destruct (has_flag flags CURLURL_DISALLOW_USER).
  - intros [= <- _ _]. right. right. auto.
  - intros [= <- _ _]. now left.
Qed.

Lemma port_codes u hn r u2 hn2 :
  parse_port u hn = (r, u2, hn2) ->
  r = CURLURLE_OK \/ r = CURLURLE_MALFORMED_INPUT
  \/ r = CURLURLE_BAD_PORT_NUMBER.
Proof.
  assert (Hat : forall o,
             parse_port_at u hn o = (r, u2, hn2) ->
             r = CURLURLE_OK \/ r = CURLURLE_MALFORMED_INPUT
             \/ r = CURLURLE_BAD_PORT_NUMBER).
  { intros [p|]; unfold parse_port_at; [|intros [= <- _ _]; now left].
    destruct (strtol (skipn (S p) hn)) as [v n].
    destruct ((v <=? 0)%Z || (v >? 65535)%Z);
      [intros [= <- _ _]; right; now right|].
    destruct (negb (Ascii.eqb _ NUL));
      [intros [= <- _ _]; right; now right|].
    destruct (negb (n =? 0)); intros [= <- _ _]; now left. }
  unfold parse_port.
  destruct (sscanf_bracket hn) as [[c len]|]; [|apply Hat].
  destruct (Ascii.eqb c "]"); [|apply Hat].
  destruct (negb (Ascii.eqb (char_at hn len) ":")); [|apply Hat].
  intros [= <- _ _]. right. now left.
Qed.

Lemma hostname_check_codes hn flags :
  hostname_check hn flags = CURLURLE_OK
  \/ hostname_check hn flags = CURLURLE_MALFORMED_INPUT.
Proof.
  unfold hostname_check.
  destruct (Ascii.eqb (char_at hn 0) "["); cbv beta match zeta;
    match goal with
    | |- context [negb ?b] => destruct b
    end; auto.
Qed.

Lemma parse_rest_codes u hn p0 flags e h :
  parse_rest Curl_parse_login_details Curl_dedotdotify u hn p0 flags
  = (e, h) ->
  parser_code e = true
  /\ e <> CURLURLE_UNSUPPORTED_SCHEME
  /\ (e = CURLURLE_USER_NOT_ALLOWED ->
      has_flag flags CURLURL_DISALLOW_USER = true).
Proof.
  unfold parse_rest.
  destruct (split_query_fragment p0) as [[p q] f].
  destruct (fix_path Curl_dedotdotify p q f flags) as [[p' q'] f'].
  destruct (parse_hostname_login _ _ hn flags) as [[r1 u1] hn1] eqn:Hl.
  apply login_codes in Hl.
  destruct (failed r1) eqn:F1.
  { intros [= <- _].
    destruct Hl as [->|[->|[-> Hflag]]];
      (split; [reflexivity|split; [discriminate|]]);
      try discriminate. intros _. exact Hflag. }
  destruct (parse_port u1 hn1) as [[r2 u2] hn2] eqn:Hp.
  apply port_codes in Hp.
  destruct (failed r2) eqn:F2.
  { intros [= <- _].
    destruct Hp as [->|[->| ->]];
      (split; [reflexivity|split; discriminate]). }
  destruct (failed (hostname_check hn2 flags)) eqn:F3.
  { intros [= <- _].
    destruct (hostname_check_codes hn2 flags) as [->| ->];
      (split; [reflexivity|split; discriminate]). }
  intros [= <- _]. split; [reflexivity|split; discriminate].
Qed.

Lemma parse_generic_unsupported U flags :
  parse_generic Curl_builtin_scheme U flags
  = inl CURLURLE_UNSUPPORTED_SCHEME ->
  has_flag flags CURLURL_NON_SUPPORT_SCHEME = false.
Proof.
  unfold parse_generic. destruct (sscanf_url U) as [[[rc sb] hn] p].
  destruct (rc =? 2)%Z; [discriminate|].
  destruct (has_flag flags CURLURL_NON_SUPPORT_SCHEME); [|reflexivity].
  destruct (rc <? 3)%Z.
  - destruct (negb (has_flag flags CURLURL_DEFAULT_SCHEME)); [discriminate|].
    destruct (sscanf_noscheme U) as [[rc2 hn2] p2].
    destruct (rc2 <? 1)%Z; [discriminate|].
    destruct (Curl_builtin_scheme DEFAULT_SCHEME); discriminate.
  - destruct (Curl_builtin_scheme sb); discriminate.
Qed.

Lemma parseurl_codes U u flags e h :
  parseurl Curl_builtin_scheme Curl_parse_login_details Curl_dedotdotify
    WIN32 uninit U u flags = (e, h) ->
  parser_code e = true
  /\ (e = CURLURLE_USER_NOT_ALLOWED ->
      has_flag flags CURLURL_DISALLOW_USER = true)
  /\ (e = CURLURLE_UNSUPPORTED_SCHEME ->
      has_flag flags CURLURL_NON_SUPPORT_SCHEME = false).
Proof.
  unfold parseurl.
  destruct (Ascii.eqb (char_at U 0) ":").
  { intros [= <- _]. split; [reflexivity|split; discriminate]. }
  destruct (check_scheme 16 U && strncasecompare U (cs "file:") 5).
  - destruct (parse_file WIN32 U) as [e0|p0] eqn:Hf.
    + apply parse_file_error in Hf. subst e0. intros [= <- _].
      split; [reflexivity|split; discriminate].
    + intros H. apply parse_rest_codes in H as (H1 & H2 & H3).
      split; [exact H1|]. split; [exact H3|]. intros E. contradiction.
  - destruct (parse_generic Curl_builtin_scheme U flags)
      as [e0|[[s hn] p0]] eqn:Hg.
    + intros [= <- _].
      destruct (parse_generic_error _ _ _ _ Hg) as [->| ->].
      * split; [reflexivity|split; discriminate].
      * split; [reflexivity|]. split; [discriminate|].
        intros _. exact (parse_generic_unsupported _ _ Hg).
    + intros H. apply parse_rest_codes in H as (H1 & H2 & H3).
      split; [exact H1|]. split; [exact H3|]. intros E. contradiction.
Qed.


End Codes.

(** X27. curl_url returns OK or one of four error codes: malformed input,
    bad port number, unsupported scheme, user not allowed.  It returns
    the last only with the option that disallows a user, and the one
    before only without the option that lets other schemes in. *)
Theorem curl_url_codes :
  forall dir login dedot win uninit U flags,
    parser_code (fst (curl_url dir login dedot win uninit U flags)) = true
    /\ (fst (curl_url dir login dedot win uninit U flags)
        = CURLURLE_USER_NOT_ALLOWED ->
        has_flag flags CURLURL_DISALLOW_USER = true)
    /\ (fst (curl_url dir login dedot win uninit U flags)
        = CURLURLE_UNSUPPORTED_SCHEME ->
        has_flag flags CURLURL_NON_SUPPORT_SCHEME = false).
Proof.
  intros dir login dedot win uninit U flags. unfold curl_url.
  destruct (parseurl dir login dedot win uninit U zero_handle flags)
    as [e h] eqn:Hp.
  apply parseurl_codes in Hp.
  destruct (failed e || has_flag flags CURLURL_VERIFY_ONLY); exact Hp.
Qed.



(** * Escaping twice *)

Lemma percent_encode_plain c : forallb plain_byte (percent_encode c) = true.
Proof. destruct c as [[] [] [] [] [] [] [] []]; vm_compute; reflexivity. Qed.

Lemma percent_encode_no_slash c :
  forallb (fun x => negb (Ascii.eqb x "/")) (percent_encode c) = true.
Proof. destruct c as [[] [] [] [] [] [] [] []]; vm_compute; reflexivity. Qed.

Lemma escape_piece_plain boundary firstq i c :
  boundary <= i ->
  forallb plain_byte (escape_piece boundary firstq i c) = true.
Proof.
  intros Hb. unfold escape_piece.
  assert ((i <? boundary) = false) as -> by (apply Nat.ltb_ge; lia).
  destruct (Ascii.eqb c " ") eqn:Hsp.
  - destruct firstq as [q|]; [destruct (q <=? i)|]; reflexivity.
  - destruct (urlchar_needs_escaping c) eqn:Hn.
    + apply percent_encode_plain.
    + simpl. unfold plain_byte. now rewrite Hsp, Hn.
Qed.

Lemma map_pieces_plain boundary firstq s :
  forall i,
    boundary <= i ->
    forallb plain_byte (map_pieces (escape_piece boundary firstq) i s) = true.
Proof.
  induction s as [|c s IH]; intros i Hb; simpl; [reflexivity|].
  rewrite forallb_app, escape_piece_plain, IH by lia. reflexivity.
Qed.

Lemma map_pieces_app f a :
  forall i b,
    map_pieces f i (a ++ b)
    = map_pieces f i a ++ map_pieces f (i + length a) b.
Proof.
  induction a as [|c a IH]; intros i b; simpl.
  - now rewrite Nat.add_0_r.
  - rewrite IH, <- app_assoc. do 3 f_equal. lia.
Qed.

Lemma map_pieces_host boundary firstq a :
  forall i,
    i + length a <= boundary ->
    map_pieces (escape_piece boundary firstq) i a = a.
Proof.
  induction a as [|c a IH]; intros i Hb; simpl in *; [reflexivity|].
  unfold escape_piece at 1.
  assert ((i <? boundary) = true) as -> by (apply Nat.ltb_lt; lia).
  simpl. f_equal. apply IH. lia.
Qed.

(** A piece is the '/' itself, or it is not empty and holds no '/'. *)
Lemma escape_piece_slash boundary firstq i c :
  (c = "/"%char /\ escape_piece boundary firstq i c = ["/"])
  \/ (c <> "/"%char
      /\ escape_piece boundary firstq i c <> []
      /\ forallb (fun x => negb (Ascii.eqb x "/"))
           (escape_piece boundary firstq i c) = true).
Proof.
  unfold escape_piece. destruct (Ascii.eqb_spec c "/") as [->|Hc].
  - left. split; [reflexivity|]. destruct (i <? boundary); reflexivity.
  - right. split; [exact Hc|].
    assert (Hown : forallb (fun x => negb (Ascii.eqb x "/")) [c] = true).
    { simpl. destruct (Ascii.eqb_spec c "/"); [contradiction|reflexivity]. }
    destruct (i <? boundary); [split; [discriminate|exact Hown]|].
    destruct (Ascii.eqb c " ").
    + destruct firstq as [q|]; [destruct (q <=? i)|];
        (split; [discriminate|reflexivity]).
    + destruct (urlchar_needs_escaping c).
      * split; [discriminate|apply percent_encode_no_slash].
      * split; [discriminate|exact Hown].
Qed.

Lemma map_pieces_head boundary firstq s i :
  char_at (map_pieces (escape_piece boundary firstq) i s) 0 = "/" ->
  char_at s 0 = "/".
Proof.
  destruct s as [|c s]; [discriminate|]. simpl.
  destruct (escape_piece_slash boundary firstq i c)
    as [(-> & _)|(Hc & Hne & Hall)]; [reflexivity|].
  destruct (escape_piece boundary firstq i c) as [|x t]; [contradiction|].
  unfold char_at. simpl. intros ->. simpl in Hall. discriminate.
Qed.

Lemma has_prefix_slash T :
  has_prefix ["/"%char] T = Ascii.eqb "/" (char_at T 0).
Proof.
  destruct T as [|t T]; [reflexivity|].
  change (has_prefix ["/"%char] (t :: T)) with (Ascii.eqb "/" t && true).
  now rewrite andb_true_r.
Qed.

Lemma strstr_slash_cons x T :
  strstr (x :: T) (cs "//")
  = if Ascii.eqb "/" x && has_prefix ["/"%char] T then Some 0
    else option_map S (strstr T (cs "//")).
Proof. reflexivity. Qed.

Lemma strstr_no_slash_app X T :
  forallb (fun x => negb (Ascii.eqb x "/")) X = true ->
  strstr T (cs "//") = None ->
  strstr (X ++ T) (cs "//") = None.
Proof.
  intros HX HT. induction X as [|x X IH]; [exact HT|].
  simpl in HX. apply andb_prop in HX as [Hx HX].
  apply negb_true_iff in Hx.
  change ((x :: X) ++ T) with (x :: (X ++ T)).
  rewrite strstr_slash_cons, Ascii.eqb_sym, Hx. cbn [andb]. now rewrite IH.
Qed.

Lemma strstr_cons_none x T :
  strstr (x :: T) (cs "//") = None ->
  (Ascii.eqb "/" x && Ascii.eqb "/" (char_at T 0)) = false
  /\ strstr T (cs "//") = None.
Proof.
  rewrite strstr_slash_cons, has_prefix_slash.
  destruct (Ascii.eqb "/" x && Ascii.eqb "/" (char_at T 0)); [discriminate|].
  destruct (strstr T (cs "//")); [discriminate|]. auto.
Qed.

(** Escaping puts no "//" where there was none. *)
Lemma map_pieces_no_dslash boundary firstq s :
  forall i,
    strstr s (cs "//") = None ->
    strstr (map_pieces (escape_piece boundary firstq) i s) (cs "//") = None.
Proof.
  induction s as [|c s IH]; intros i H; [reflexivity|].
  apply strstr_cons_none in H as [Hhead Hrest]. cbn [map_pieces].
  specialize (IH (S i) Hrest).
  destruct (escape_piece_slash boundary firstq i c)
    as [(-> & ->)|(Hc & Hne & Hall)].
  - cbn [app].
    set (T := map_pieces (escape_piece boundary firstq) (S i) s) in *.
    rewrite strstr_slash_cons.
    assert (E : has_prefix ["/"%char] T = false).
    { rewrite has_prefix_slash.
      destruct (Ascii.eqb_spec "/" (char_at T 0)) as [Heq|]; [|reflexivity].
      assert (Hs : char_at s 0 = "/")
        by (apply (map_pieces_head boundary firstq s (S i)); now fold T).
      rewrite Hs in Hhead. discriminate. }
    rewrite E, andb_false_r. now rewrite IH.
  - now apply strstr_no_slash_app.
Qed.

Lemma has_prefix_firstn pat :
  forall k a,
    length pat <= k -> has_prefix pat (firstn k a) = has_prefix pat a.
Proof.
  induction pat as [|x pat IH]; intros k a Hk; [reflexivity|].
  simpl in Hk. destruct k as [|k]; [lia|].
  destruct a as [|y a]; [reflexivity|]. simpl. rewrite IH by lia.
  reflexivity.
Qed.

(** The first match of a pattern is found in any string that starts with
    the same bytes up to the end of the match. *)
Lemma strstr_agree pat a :
  forall b k i,
    firstn k a = firstn k b ->
    strstr a pat = Some i -> i + length pat <= k ->
    strstr b pat = Some i.
Proof.
  induction a as [|x a IH]; intros b k i Hf Hs Hk.
  - simpl in Hs. destruct (has_prefix pat []) eqn:E; [|discriminate].
    injection Hs as <-.
    assert (E' : has_prefix pat b = true).
    { rewrite <- (has_prefix_firstn pat k b) by lia.
      rewrite <- Hf. now rewrite has_prefix_firstn by lia. }
    destruct b; simpl; simpl in E'; now rewrite E'.
  - assert (Hp : has_prefix pat b = has_prefix pat (x :: a)).
    { rewrite <- (has_prefix_firstn pat k b) by lia.
      rewrite <- Hf. now rewrite has_prefix_firstn by lia. }
    change (strstr (x :: a) pat)
      with (if has_prefix pat (x :: a) then Some 0
            else option_map S (strstr a pat)) in Hs.
    destruct (has_prefix pat (x :: a)) eqn:E.
    + injection Hs as <-. destruct b; simpl; simpl in Hp; now rewrite Hp.
    + destruct (strstr a pat) as [j|] eqn:Ej; [|discriminate].
      injection Hs as <-.
      destruct k as [|k]; [lia|]. destruct b as [|y b]; [discriminate|].
      simpl in Hf. injection Hf as <- Hf.
      change (strstr (x :: b) pat)
        with (if has_prefix pat (x :: b) then Some 0
              else option_map S (strstr b pat)).
      rewrite Hp. rewrite (IH b k j Hf eq_refl) by lia. reflexivity.
Qed.

Lemma find_host_sep_unique url k :
  host_start url <= k <= length url ->
  (k < length url -> char_at url k = "/" \/ char_at url k = "?") ->
  (forall i, host_start url <= i < k ->
             char_at url i <> "/" /\ char_at url i <> "?") ->
  find_host_sep url = k.
Proof.
  intros Hk Hat Hnone.
  destruct (find_host_sep_spec url) as (Hb & Hat' & Hnone').
  destruct (Nat.lt_trichotomy (find_host_sep url) k) as [Hlt|[E|Hgt]].
  - destruct (Hnone (find_host_sep url) ltac:(lia)) as [N1 N2].
    destruct (Hat' ltac:(lia)); contradiction.
  - exact E.
  - destruct (Hnone' k ltac:(lia)) as [N1 N2].
    destruct (Hat ltac:(lia)); contradiction.
Qed.

Lemma strcpy_url_loop_host (needs : ascii -> bool) a :
  forall host_sep pos left out t,
    pos + length a <= host_sep ->
    strcpy_url_loop needs host_sep pos left out (a ++ t)
    = strcpy_url_loop needs host_sep (pos + length a) left (out ++ a) t.
Proof.
  induction a as [|c a IH]; intros host_sep pos left out t Hb; simpl in *.
  - now rewrite Nat.add_0_r, app_nil_r.
  - assert ((pos <? host_sep) = true) as -> by (apply Nat.ltb_lt; lia).
    rewrite IH by lia. rewrite <- app_assoc. f_equal. lia.
Qed.

Lemma char_at_firstn (s : cstring) k i :
  i < k -> char_at (firstn k s) i = char_at s i.
Proof.
  unfold char_at. revert k i; induction s as [|x s IH]; intros k i Hi.
  - now rewrite firstn_nil.
  - destruct k as [|k]; [lia|]. destruct i as [|i]; [reflexivity|].
    simpl. apply IH. lia.
Qed.

Lemma char_at_app_left (a b : cstring) i :
  i < length a -> char_at (a ++ b) i = char_at a i.
Proof. intros Hi. unfold char_at. now apply app_nth1. Qed.

(** The copy made with the host name kept: the bytes up to the end of the
    host name, then the escaped rest. *)
Lemma strcpy_url_split url :
  Curl_strcpy_url urlchar_needs_escaping url false
  = firstn (find_host_sep url) url
    ++ map_pieces
         (escape_piece (find_host_sep url)
            (first_query_from (host_start url) url))
         (find_host_sep url) (skipn (find_host_sep url) url).
Proof.
  rewrite strcpy_url_is_escaped_copy. unfold escaped_copy.
  rewrite <- find_host_sep_min.
  destruct (find_host_sep_spec url) as ((_ & Hle) & _).
  set (sep := find_host_sep url) in *.
  set (fq := first_query_from (host_start url) url).
  transitivity (map_pieces (escape_piece sep fq) 0
                  (firstn sep url ++ skipn sep url));
    [now rewrite firstn_skipn|].
  rewrite map_pieces_app, map_pieces_host;
    rewrite length_firstn; [|lia].
  f_equal. f_equal. lia.
Qed.

(** The end of the host name is found at the same place in the copy. *)
Lemma find_host_sep_of_copy url :
  find_host_sep (Curl_strcpy_url urlchar_needs_escaping url false)
  = find_host_sep url.
Proof.
  assert (Hd : strstr url (cs "//") = None ->
               strstr (Curl_strcpy_url urlchar_needs_escaping url false)
                 (cs "//") = None).
  { intros H. rewrite strcpy_url_is_escaped_copy. unfold escaped_copy.
    now apply map_pieces_no_dslash. }
  rewrite strcpy_url_split in *.
  destruct (find_host_sep_spec url) as ((Hge & Hle) & Hat & Hnone).
  set (sep := find_host_sep url) in *.
  set (fq := first_query_from (host_start url) url) in *.
  set (E := map_pieces (escape_piece sep fq) sep (skipn sep url)) in *.
  assert (HP : length (firstn sep url) = sep)
    by (rewrite length_firstn; lia).
  assert (Hhs : host_start (firstn sep url ++ E) = host_start url).
  { unfold host_start in *.
    destruct (strstr url (cs "//")) as [i|] eqn:Hs.
    - rewrite (strstr_agree (cs "//") url (firstn sep url ++ E) sep i);
        [reflexivity| |exact Hs|simpl; lia].
      rewrite firstn_app, HP, Nat.sub_diag, firstn_firstn.
      simpl. rewrite app_nil_r. f_equal. lia.
    - now rewrite (Hd eq_refl). }
  apply find_host_sep_unique.
  - rewrite Hhs, length_app, HP. lia.
  - rewrite length_app, HP. intros HE.
    destruct (skipn sep url) as [|c r] eqn:Hsk.
    { unfold E in HE. simpl in HE. lia. }
    assert (Hlt : sep < length url).
    { apply (f_equal (@length ascii)) in Hsk. rewrite length_skipn in Hsk.
      simpl in Hsk. lia. }
    assert (Hc : char_at url sep = c).
    { rewrite <- (Nat.add_0_r sep), <- char_at_skipn. now rewrite Hsk. }
    specialize (Hat Hlt). rewrite Hc in Hat.
    assert (HE0 : exists E', E = c :: E').
    { unfold E. simpl. unfold escape_piece at 1.
      rewrite Nat.ltb_irrefl.
      destruct Hat as [-> | ->]; simpl; eexists; reflexivity. }
    destruct HE0 as (E' & ->).
    pose proof (char_at_app_here (firstn sep url) c E') as Hch.
    rewrite HP in Hch. rewrite Hch. exact Hat.
  - rewrite Hhs. intros i Hi.
    rewrite char_at_app_left by lia. rewrite char_at_firstn by lia.
    now apply Hnone.
Qed.

(** X4. Escaping twice is escaping once: Curl_strcpy_url leaves what it
    returns as it is, with either value of the relative flag; what it
    writes for a relative reference holds no space and no byte that needs
    escaping. *)
Theorem strcpy_url_idempotent (url : cstring) (relative : bool) :
  Curl_strcpy_url urlchar_needs_escaping
    (Curl_strcpy_url urlchar_needs_escaping url relative) relative
  = Curl_strcpy_url urlchar_needs_escaping url relative
  /\ forallb plain_byte (Curl_strcpy_url urlchar_needs_escaping url true)
     = true.
Proof.
  assert (H : forallb plain_byte
                (Curl_strcpy_url urlchar_needs_escaping url true) = true).
  { rewrite strcpy_url_is_escaped_copy. unfold escaped_copy.
    apply map_pieces_plain. lia. }
  split; [|exact H]. destruct relative.
  - unfold Curl_strcpy_url at 1. now rewrite strcpy_url_loop_plain.
  - unfold Curl_strcpy_url at 1. rewrite find_host_sep_of_copy.
    rewrite strcpy_url_split.
    destruct (find_host_sep_spec url) as ((_ & Hle) & _).
    set (sep := find_host_sep url) in *.
    set (E := map_pieces _ sep (skipn sep url)).
    assert (HP : length (firstn sep url) = sep)
      by (rewrite length_firstn; lia).
    rewrite strcpy_url_loop_host by lia.
    rewrite strcpy_url_loop_plain; [reflexivity|].
    apply map_pieces_plain. lia.
Qed.

(** * The end of the line *)

Lemma scan_set_tail p c t :
  p c = false ->
  forall w a x y,
    scan_set p w a = (x, y) ->
    scan_set p w (a ++ c :: t) = (x, y ++ c :: t).
Proof.
  intros Hc. induction w as [|w IH]; intros a x y H.
  - destruct a; simpl in H; injection H as <- <-; reflexivity.
  - destruct a as [|d a].
    + simpl in H. injection H as <- <-. simpl. now rewrite Hc.
    + simpl in H. rewrite <- app_comm_cons. cbn [scan_set].
      destruct (p d).
      * destruct (scan_set p w a) as [x' y'] eqn:E. injection H as <- <-.
        now rewrite (IH a x' y' E).
      * injection H as <- <-. reflexivity.
Qed.

Lemma scan_set_wide p s :
  forall w, length s <= w -> scan_set p w s = scan_set p (length s) s.
Proof.
  induction s as [|d s IH]; intros w H.
  - destruct w; reflexivity.
  - destruct w as [|w]; [simpl in H; lia|]. simpl in *.
    destruct (p d); [|reflexivity]. rewrite (IH w) by lia. reflexivity.
Qed.

Lemma scan_all_tail p c t a x y :
  p c = false ->
  scan_all p a = (x, y) ->
  scan_all p (a ++ c :: t) = (x, y ++ c :: t).
Proof.
  unfold scan_all. intros Hc H. apply scan_set_tail; [exact Hc|].
  rewrite scan_set_wide; [exact H|]. rewrite length_app. lia.
Qed.

(** The scans of the parser stop at a line feed. *)
Lemma sscanf_url_tail U t :
  U <> [] -> sscanf_url (U ++ LF :: t) = sscanf_url U.
Proof.
  intros Hne. unfold sscanf_url.
  destruct U as [|u0 U']; [contradiction|].
  rewrite <- app_comm_cons. cbv iota. rewrite app_comm_cons.
  destruct (scan_set (not_in_set [LF; "/"; ":"]) 15 (u0 :: U'))
    as [sb r1] eqn:E1.
  rewrite (scan_set_tail _ LF t eq_refl _ _ _ _ E1).
  destruct sb as [|s0 sb]; [reflexivity|].
  destruct r1 as [|c r2]; [reflexivity|].
  rewrite <- app_comm_cons. cbv iota.
  destruct (negb (Ascii.eqb c ":")); [reflexivity|].
  destruct (scan_set (in_set ["/"]) 3 r2) as [sl r3] eqn:E2.
  rewrite (scan_set_tail _ LF t eq_refl _ _ _ _ E2).
  destruct sl as [|l0 sl]; [reflexivity|].
  destruct (scan_all (not_in_set [LF; "/"; "?"; "#"]) r3) as [hn r4] eqn:E3.
  rewrite (scan_all_tail _ LF t _ _ _ eq_refl E3).
  destruct hn as [|h0 hn]; [reflexivity|].
  destruct (scan_all (not_in_set [LF]) r4) as [pa r5] eqn:E4.
  rewrite (scan_all_tail _ LF t _ _ _ eq_refl E4).
  reflexivity.
Qed.

Lemma sscanf_noscheme_tail U t :
  U <> [] -> sscanf_noscheme (U ++ LF :: t) = sscanf_noscheme U.
Proof.
  intros Hne. unfold sscanf_noscheme.
  destruct U as [|u0 U']; [contradiction|].
  rewrite <- app_comm_cons. cbv iota. rewrite app_comm_cons.
  destruct (scan_all (not_in_set [LF; "/"; "?"; "#"]) (u0 :: U'))
    as [hn r1] eqn:E1.
  rewrite (scan_all_tail _ LF t _ _ _ eq_refl E1).
  destruct hn as [|h0 hn]; [reflexivity|].
  destruct (scan_all (not_in_set [LF]) r1) as [pa r2] eqn:E2.
  rewrite (scan_all_tail _ LF t _ _ _ eq_refl E2).
  reflexivity.
Qed.

Lemma sscanf_file_tail U t : sscanf_file (U ++ LF :: t) = sscanf_file U.
Proof.
  unfold sscanf_file.
  destruct (scan_set (not_in_set [LF; "/"; ":"]) 15 U) as [sb r1] eqn:E1.
  rewrite (scan_set_tail _ LF t eq_refl _ _ _ _ E1).
  destruct sb as [|s0 sb]; [reflexivity|].
  destruct r1 as [|c r2]; [reflexivity|].
  rewrite <- app_comm_cons. cbv iota.
  destruct (negb (Ascii.eqb c ":")); [reflexivity|].
  destruct (scan_all (not_in_set [LF]) r2) as [pa r3] eqn:E2.
  rewrite (scan_all_tail _ LF t _ _ _ eq_refl E2).
  reflexivity.
Qed.

Lemma file_prefix_tail U t :
  strncasecompare (U ++ LF :: t) (cs "file:") 5
  = strncasecompare U (cs "file:") 5.
Proof.
  change (cs "file:") with ["f"; "i"; "l"; "e"; ":"]%char.
  destruct U as [|a [|b [|c [|d [|e r]]]]];
    rewrite <- ?app_comm_cons; rewrite ?app_nil_l;
    rewrite ?strncasecompare_cons;
    try (progress change (Ascii.eqb (raw_toupper LF) (raw_toupper "f")) with false);
    try (progress change (Ascii.eqb (raw_toupper LF) (raw_toupper "i")) with false);
    try (progress change (Ascii.eqb (raw_toupper LF) (raw_toupper "l")) with false);
    try (progress change (Ascii.eqb (raw_toupper LF) (raw_toupper "e")) with false);
    try (progress change (Ascii.eqb (raw_toupper LF) (raw_toupper ":")) with false);
    repeat match goal with
           | |- (if Ascii.eqb (raw_toupper ?v) _ then _ else _) = _ =>
               is_var v;
               destruct (Ascii.eqb (raw_toupper v) _); [|reflexivity]
           end;
    rewrite ?strncasecompare_0; reflexivity.
Qed.

Lemma file_letter a x :
  In x (cs "file") ->
  Ascii.eqb (raw_toupper a) (raw_toupper x) = true ->
  Ascii.eqb a "/" = false /\ Ascii.eqb a ":" = false.
Proof.
  intros [<-|[<-|[<-|[<-|[]]]]];
    destruct a as [[] [] [] [] [] [] [] []]; vm_compute; intros H;
    solve [discriminate H | split; reflexivity].
Qed.

Lemma colon_only e :
  Ascii.eqb (raw_toupper e) (raw_toupper ":") = true -> e = ":"%char.
Proof.
  destruct e as [[] [] [] [] [] [] [] []]; vm_compute; intros H;
    solve [discriminate H | reflexivity].
Qed.

(** A URL that starts with "file:" in any case has its scheme found. *)
Lemma check_scheme_file U :
  strncasecompare U (cs "file:") 5 = true ->
  exists a b c d r,
    U = a :: b :: c :: d :: ":"%char :: r
    /\ forall r', check_scheme 16 (a :: b :: c :: d :: ":"%char :: r') = true.
Proof.
  change (cs "file:") with ["f"; "i"; "l"; "e"; ":"]%char.
  destruct U as [|a [|b [|c [|d [|e r]]]]];
    rewrite ?strncasecompare_cons;
    repeat match goal with
           | |- (if ?x then _ else _) = true -> _ =>
               let E := fresh "E" in destruct x eqn:E; [|discriminate]
           end;
    try discriminate.
  intros _. apply colon_only in E3. subst e.
  exists a, b, c, d, r. split; [reflexivity|]. intros r'.
  destruct (file_letter a "f" ltac:(simpl; auto) E) as [A1 A2].
  destruct (file_letter b "i" ltac:(simpl; auto) E0) as [B1 B2].
  destruct (file_letter c "l" ltac:(simpl; auto) E1) as [C1 C2].
  destruct (file_letter d "e" ltac:(simpl; auto) E2) as [D1 D2].
  cbn [check_scheme]. rewrite A1, A2, B1, B2, C1, C2, D1, D2.
  reflexivity.
Qed.

Lemma file_test_tail U t :
  is_file_url (U ++ LF :: t) = is_file_url U.
Proof.
  unfold is_file_url. rewrite file_prefix_tail.
  destruct (strncasecompare U (cs "file:") 5) eqn:E;
    [|now rewrite !andb_false_r].
  apply check_scheme_file in E as (a & b & c & d & r & -> & H).
  rewrite <- !app_comm_cons. now rewrite !H.
Qed.

Section LineFeed.

Variable Curl_builtin_scheme : cstring -> option Z.
Variable Curl_parse_login_details :
  cstring -> option (option cstring * option cstring * option cstring).
Variable Curl_dedotdotify : cstring -> cstring.
Variable WIN32 : bool.

Lemma parse_generic_tail U t flags :
  parse_generic Curl_builtin_scheme (U ++ LF :: t) flags
  = parse_generic Curl_builtin_scheme U flags.
Proof.
  unfold parse_generic. destruct U as [|u0 U'].
  - change (sscanf_url ([] ++ LF :: t)) with (0%Z, @nil ascii, @nil ascii, @nil ascii).
    change (sscanf_url []) with (EOF, @nil ascii, @nil ascii, @nil ascii).
    change (sscanf_noscheme ([] ++ LF :: t)) with (0%Z, @nil ascii, @nil ascii).
    change (sscanf_noscheme []) with (EOF, @nil ascii, @nil ascii).
    cbv beta match zeta.
    change (0 =? 2)%Z with false. change (EOF =? 2)%Z with false.
    change (0 <? 3)%Z with true. change (EOF <? 3)%Z with true.
    change (0 <? 1)%Z with true. change (EOF <? 1)%Z with true.
    cbv match.
    destruct (negb (has_flag flags CURLURL_DEFAULT_SCHEME)); reflexivity.
  - rewrite sscanf_url_tail, sscanf_noscheme_tail by discriminate.
    reflexivity.
Qed.

Lemma parse_file_tail U t :
  parse_file WIN32 (U ++ LF :: t) = parse_file WIN32 U.
Proof. unfold parse_file. now rewrite sscanf_file_tail. Qed.

Lemma first_colon_tail U t :
  Ascii.eqb (char_at (U ++ LF :: t) 0) ":" = Ascii.eqb (char_at U 0) ":".
Proof. destruct U; reflexivity. Qed.

Lemma parseurl_tail uninit U t u flags :
  parseurl Curl_builtin_scheme Curl_parse_login_details Curl_dedotdotify
    WIN32 uninit (U ++ LF :: t) u flags
  = parseurl Curl_builtin_scheme Curl_parse_login_details Curl_dedotdotify
      WIN32 uninit U u flags.
Proof.
  unfold parseurl. rewrite first_colon_tail.
  fold (is_file_url (U ++ LF :: t)). fold (is_file_url U).
  now rewrite file_test_tail, parse_file_tail, parse_generic_tail.
Qed.

End LineFeed.

(** X29. The parser reads a URL up to its first line feed and no further:
    curl_url gives for a URL followed by a line feed and anything else the
    code and the handle it gives for the URL alone. *)
Theorem line_feed_ends_the_url :
  forall dir login dedot win uninit U tail flags,
    curl_url dir login dedot win uninit (U ++ LF :: tail) flags
    = curl_url dir login dedot win uninit U flags.
Proof.
  intros dir login dedot win uninit U tail flags. unfold curl_url.
  now rewrite parseurl_tail.
Qed.

(** * A reference that is only a query *)

(** X30. A reference that starts with '?' replaces the query of the base:
    Curl_concat_url returns the base up to its first '?' behind the start
    of the host name (all of it when it has none), then the escaped
    reference. *)
Theorem concat_url_query_only (base q : cstring) :
  Curl_concat_url urlchar_needs_escaping base ("?" :: q)
  = firstn (or_end base (first_query_from (host_start base) base)) base
    ++ Curl_strcpy_url urlchar_needs_escaping ("?" :: q) true.
Proof.
  unfold Curl_concat_url.
  change (char_at ("?" :: q) 0) with "?"%char.
  change (char_at ("?" :: q) 1) with (char_at q 0).
  change (Ascii.eqb "?" "/") with false.
  change (Ascii.eqb "?" "?") with true.
  change (Ascii.eqb "?" ".") with false.
  cbn [negb andb]. cbv beta match zeta.
  rewrite (skip_dotdot_eq 0 ("?" :: q)).
  change (has_prefix (cs "../") ("?" :: q)) with false.
  cbv beta match zeta.
  change (char_at ("?" :: q) 0) with "?"%char.
  change (Ascii.eqb "?" "/") with false.
  change (Ascii.eqb "?" "?") with true.
  rewrite orb_true_r. cbn [negb]. f_equal.
  unfold or_end, first_query_from.
  destruct (strchr (skipn (host_start base) base) "?") as [i|]; simpl.
  - destruct (strchr (skipn (host_start base) (firstn (host_start base + i) base)) "/");
      reflexivity.
  - rewrite firstn_all.
    destruct (strchr (skipn (host_start base) base) "/"); reflexivity.
Qed.
